(** * market-cli: the price adapters and the aggregator of [src/index.js]

    A shallow embedding of [fetchChinaStock], [fetchCrypto], [fetchGold],
    [formatPrice] and [fetchAllPrices], with the pieces of the JavaScript
    run time they rely on (strings of UTF-16 code units, [String.includes],
    [String.split], the quoted-run pattern, [parseFloat], property lookup
    through [Object.prototype], the key order of ordinary objects).

    Numbers are doubles. A finite double is the rational it stands for;
    every numeral and every arithmetic operation is rounded to the nearest
    double, ties to even, and overflows to an infinity, as IEEE 754 has it.
    The two zeros are one: no operation of the program tells them apart
    (both are falsy, pass [>= 0], and print alike). *)

From Stdlib Require Import List Bool NArith ZArith QArith Qreduction Qabs.
From Stdlib Require Import Qround Qpower Lia Lqa.
From Stdlib Require Import Ascii String.
Import ListNotations.

Set Implicit Arguments.
#[local] Set Warnings "-register-all".

(** ** JavaScript strings *)

Module Js.

(** A string is its sequence of UTF-16 code units; [length] is what
    [s.length] returns. *)
Definition jsstring := list N.

(** ASCII literals. *)
Definition lit (s : string) : jsstring :=
  List.map N_of_ascii (list_ascii_of_string s).

Fixpoint str_eqb (a b : jsstring) : bool :=
  match a, b with
  | [], [] => true
  | x :: a', y :: b' => (x =? y)%N && str_eqb a' b'
  | _, _ => false
  end.

Fixpoint starts_with (p s : jsstring) : bool :=
  match p, s with
  | [], _ => true
  | x :: p', y :: s' => (x =? y)%N && starts_with p' s'
  | _ :: _, [] => false
  end.

(** [s.includes(p)] *)
Fixpoint includes (s p : jsstring) : bool :=
  starts_with p s ||
  match s with
  | [] => false
  | _ :: s' => includes s' p
  end.

Definition comma : N := 44.
Definition dquote : N := 34.

(** A string between double quotes. *)
Definition quoted (s : jsstring) : jsstring := dquote :: s ++ [dquote].

(** [s.split(sep)] for a separator of one code unit. *)
Fixpoint split (sep : N) (s : jsstring) : list jsstring :=
  match s with
  | [] => [[]]
  | c :: r =>
      if (c =? sep)%N then [] :: split sep r
      else match split sep r with
           | h :: t => (c :: h) :: t
           | [] => [[c]]
           end
  end.

(** The longest run of code units other than the double quote, and what
    follows it. *)
Fixpoint span_unquoted (s : jsstring) : jsstring * jsstring :=
  match s with
  | [] => ([], [])
  | c :: r =>
      if (c =? dquote)%N then ([], s)
      else let (run, rest) := span_unquoted r in (c :: run, rest)
  end.

(** [s.match(re)] for the pattern of [fetchChinaStock]: a double quote, a
    captured run of one or more code units other than the double quote, a
    double quote. The result is the capture group of the leftmost match. At
    a double quote the greedy class takes the whole run up to the next
    double quote; the match fails there when the run is empty or the string
    ends, and the search goes on one code unit further. *)
Fixpoint match_quoted (s : jsstring) : option jsstring :=
  match s with
  | [] => None
  | c :: r =>
      if (c =? dquote)%N then
        match span_unquoted r with
        | ((_ :: _) as run, _ :: _) => Some run
        | _ => match_quoted r
        end
      else match_quoted r
  end.

(** ** Numbers *)

Inductive number :=
| NaN
| Inf (negative : bool)
| Num (q : Q).

Definition pow2 (z : Z) : Q := 2 ^ z.

(** The binade of a positive rational: the [e] with 2^e <= q < 2^(e+1). *)
Definition binade (q : Q) : Z :=
  let e := (Z.log2 (Qnum q) - Z.log2 (Zpos (Qden q)))%Z in
  if Qle_bool (pow2 e) q then e else (e - 1)%Z.

(** The nearest integer, the even one of two that are as near. *)
Definition round_half_even (x : Q) : Z :=
  let f := Qfloor x in
  match Qcompare (x - inject_Z f) (1 # 2) with
  | Lt => f
  | Gt => (f + 1)%Z
  | Eq => if Z.even f then f else (f + 1)%Z
  end.

(** The doubles around a positive [q] are the multiples of 2^u: 53 bits in
    the binade of [q], and the subnormal spacing 2^-1074 below 2^-1022. *)
Definition ulp_exponent (q : Q) : Z := Z.max (binade q - 52) (-1074).

(** The double nearest to a positive rational; from 2^1024 on, the result
    is infinite. *)
Definition round_positive (q : Q) : number :=
  let u := ulp_exponent q in
  let x := inject_Z (round_half_even (q / pow2 u)) * pow2 u in
  if Qle_bool (pow2 1024) x then Inf false else Num (Qred x).

(** [-a] *)
Definition fneg (a : number) : number :=
  match a with
  | NaN => NaN
  | Inf s => Inf (negb s)
  | Num x => Num (- x)
  end.

(** The Number value of a rational: the nearest double, ties to even. *)
Definition round64 (q : Q) : number :=
  let q := Qred q in
  match Qnum q with
  | Z0 => Num 0
  | Zpos _ => round_positive q
  | Zneg _ => fneg (round_positive (- q))
  end.

(** A rational that is a finite double. *)
Definition is_double (q : Q) : bool :=
  match round64 q with
  | Num x => Qeq_bool x q
  | _ => false
  end.

(** [a + b], [a - b] and [a * b] on numbers. *)
Definition fadd (a b : number) : number :=
  match a, b with
  | NaN, _ | _, NaN => NaN
  | Inf s, Inf s' => if Bool.eqb s s' then Inf s else NaN
  | Inf s, Num _ | Num _, Inf s => Inf s
  | Num x, Num y => round64 (x + y)
  end.

Definition fsub (a b : number) : number := fadd a (fneg b).

Definition fmul (a b : number) : number :=
  match a, b with
  | NaN, _ | _, NaN => NaN
  | Inf s, Inf s' => Inf (xorb s s')
  | Inf s, Num y | Num y, Inf s =>
      match Qcompare y 0 with
      | Eq => NaN
      | Lt => Inf (negb s)
      | Gt => Inf s
      end
  | Num x, Num y => round64 (x * y)
  end.

(** The double a decimal literal of the source denotes. *)
Definition literal (q : Q) : Q :=
  match round64 q with
  | Num x => x
  | _ => 0
  end.

(** A positive rational on the grid of the doubles of its binade. *)
Definition on_grid (f : Q) : Prop :=
  exists m : Z, f == inject_Z m * pow2 (ulp_exponent f).

(** A number at most, or at least, a rational. *)
Definition at_most (n : number) (hi : Q) : Prop :=
  match n with
  | NaN | Inf false => False
  | Inf true => True
  | Num x => x <= hi
  end.

Definition at_least (n : number) (lo : Q) : Prop :=
  match n with
  | NaN | Inf true => False
  | Inf false => True
  | Num x => lo <= x
  end.

(** ** parseFloat *)

Definition is_space (c : N) : bool :=
  existsb (N.eqb c)
    [9; 10; 11; 12; 13; 32; 160; 5760; 8232; 8233; 8239; 8287; 12288; 65279]%N
  || ((8192 <=? c) && (c <=? 8202))%N.

Fixpoint trim_start (s : jsstring) : jsstring :=
  match s with
  | c :: r => if is_space c then trim_start r else s
  | [] => []
  end.

Definition is_digit (c : N) : bool := ((48 <=? c) && (c <=? 57))%N.

(** The longest run of decimal digits, as digit values, and what follows. *)
Fixpoint span_digits (s : jsstring) : list N * jsstring :=
  match s with
  | c :: r =>
      if is_digit c then let (ds, rest) := span_digits r in ((c - 48)%N :: ds, rest)
      else ([], s)
  | [] => ([], [])
  end.

Definition digits_value (ds : list N) : N :=
  fold_left (fun acc d => (10 * acc + d)%N) ds 0%N.

Definition sign_of (s : jsstring) : bool * jsstring :=
  match s with
  | 43%N :: r => (false, r)
  | 45%N :: r => (true, r)
  | _ => (false, s)
  end.

(** The exponent part [e|E] [+|-] digits, when it is complete. *)
Definition exponent_of (s : jsstring) : Z :=
  match s with
  | c :: r =>
      if ((c =? 101) || (c =? 69))%N then
        let (neg, r') := sign_of r in
        match span_digits r' with
        | ((_ :: _) as ds, _) =>
            if neg then (- Z.of_N (digits_value ds))%Z else Z.of_N (digits_value ds)
        | _ => 0%Z
        end
      else 0%Z
  | [] => 0%Z
  end.

(** mantissa * 10 ^ e *)
Definition scale10 (neg : bool) (mantissa : N) (e : Z) : Q :=
  let m := if neg then (- Z.of_N mantissa)%Z else Z.of_N mantissa in
  match e with
  | Zneg p => Qred (m # Pos.pow 10 p)
  | _ => inject_Z (m * 10 ^ e)
  end.

(** [parseFloat(s)]: leading white space is skipped, then the longest prefix
    that is a decimal literal is taken, whatever follows it; the result is
    the double nearest to what the literal denotes, as V8 computes it. *)
Definition parseFloat (s : jsstring) : number :=
  let (neg, body) := sign_of (trim_start s) in
  if starts_with (lit "Infinity") body then Inf neg
  else
    let (ip, r1) := span_digits body in
    let (fp, r2) :=
      match r1 with
      | 46%N :: r =>
          let (fd, r') := span_digits r in
          match ip, fd with
          | [], [] => ([], r1)
          | _, _ => (fd, r')
          end
      | _ => ([], r1)
      end in
    match ip ++ fp with
    | [] => NaN
    | ds => round64 (scale10 neg (digits_value ds)
                       (exponent_of r2 - Z.of_nat (List.length fp)))
    end.

(** [parseFloat(parts[i])]: a missing element is [undefined], which is
    converted to the string [undefined] first. *)
Definition parseFloat_at (parts : list jsstring) (i : nat) : number :=
  parseFloat (match nth_error parts i with
              | Some s => s
              | None => lit "undefined"
              end).

End Js.
Import Js.

(** ** Decimal numerals

    The text of a price or of a change in a response, and the number it
    stands for. *)

(** A sign, the digits before the point and the digits after it. *)
Record decimal := { negative : bool; whole : list N; fraction : list N }.

Definition digit_chars (ds : list N) : jsstring :=
  map (fun d => (d + 48)%N) ds.

(** The numeral as it is written. *)
Definition print (d : decimal) : jsstring :=
  (if negative d then [45%N] else [])
  ++ digit_chars (whole d)
  ++ match fraction d with
     | [] => []
     | _ => 46%N :: digit_chars (fraction d)
     end.

Definition well_formed (d : decimal) : Prop :=
  whole d <> [] /\ Forall (fun x => (x < 10)%N) (whole d)
  /\ Forall (fun x => (x < 10)%N) (fraction d).

(** The number a numeral denotes. *)
Definition decimal_value (d : decimal) : Q :=
  let x := inject_Z (Z.of_N (digits_value (whole d)))
           + inject_Z (Z.of_N (digits_value (fraction d)))
             / inject_Z (10 ^ Z.of_nat (List.length (fraction d))) in
  if negative d then - x else x.

(** ** Values and objects *)

Module Obj.

(** The values a response body or a quote field can be. *)
Inductive value :=
| VUndef
| VNull
| VBool (b : bool)
| VNum (n : number)
| VStr (s : jsstring)
| VArr (items : list value)
| VObj (fields : list (jsstring * value)).

(** [if (v)] *)
Definition truthy (v : value) : bool :=
  match v with
  | VUndef | VNull => false
  | VBool b => b
  | VNum NaN => false
  | VNum (Inf _) => true
  | VNum (Num q) => negb (Qeq_bool q 0)
  | VStr s => match s with [] => false | _ => true end
  | VArr _ | VObj _ => true
  end.

Fixpoint assoc {A : Type} (k : jsstring) (o : list (jsstring * A)) : option A :=
  match o with
  | [] => None
  | (k', a) :: o' => if str_eqb k' k then Some a else assoc k o'
  end.

(** What an object literal inherits: the members of [Object.prototype]. *)
Inductive builtin :=
| NativeFunction (name : jsstring)
| ObjectPrototype.

Definition object_prototype_methods : list jsstring :=
  [lit "hasOwnProperty"; lit "isPrototypeOf"; lit "propertyIsEnumerable";
   lit "toLocaleString"; lit "toString"; lit "valueOf";
   lit "__defineGetter__"; lit "__defineSetter__";
   lit "__lookupGetter__"; lit "__lookupSetter__"].

Definition object_prototype (k : jsstring) : option builtin :=
  if str_eqb k (lit "constructor") then Some (NativeFunction (lit "Object"))
  else if str_eqb k (lit "__proto__") then Some ObjectPrototype
  else if existsb (str_eqb k) object_prototype_methods
       then Some (NativeFunction k)
       else None.

(** [String(m)] *)
Definition builtin_to_string (m : builtin) : jsstring :=
  match m with
  | NativeFunction n => lit "function " ++ n ++ lit "() { [native code] }"
  | ObjectPrototype => lit "[object Object]"
  end.

(** [o[k]] on an object literal whose own properties are [o]. *)
Inductive looked (A : Type) :=
| Own (a : A)
| Inherited (m : builtin)
| Missing.
Arguments Inherited {A} m.
Arguments Missing {A}.

Definition lookup {A : Type} (o : list (jsstring * A)) (k : jsstring) : looked A :=
  match assoc k o with
  | Some a => Own a
  | None => match object_prototype k with
            | Some m => Inherited m
            | None => Missing
            end
  end.

(** [v[k]] on a value that is neither [undefined] nor [null], for a key [k]
    that names no built-in member: the program reads the keys [cny] and
    [cny_24h_change] and the keys [fetchCrypto] computes, see
    [coin_key_not_builtin]. *)
Definition field (v : value) (k : jsstring) : value :=
  match v with
  | VObj fs => match assoc k fs with Some x => x | None => VUndef end
  | _ => VUndef
  end.

(** Whether the conversion of [v] to a string, as a template literal does
    it, returns. A value parsed from JSON has no callable property of its
    own: an object with an own [toString] hides the method of
    [Object.prototype], and its [valueOf], own or inherited, gives no
    primitive, so that the conversion throws a [TypeError]. An array is
    joined, each element being converted in turn ([undefined] and [null]
    give the empty string). *)
Fixpoint converts_to_string (v : value) : bool :=
  match v with
  | VObj fs => match assoc (lit "toString") fs with
               | Some _ => false
               | None => true
               end
  | VArr items => forallb converts_to_string items
  | _ => true
  end.

(** An ordinary object under construction: its string-keyed own properties
    in creation order. *)
Definition object (A : Type) := list (jsstring * A).

Fixpoint replace {A : Type} (o : object A) (k : jsstring) (a : A) : object A :=
  match o with
  | [] => []
  | (k', a') :: o' =>
      if str_eqb k' k then (k', a) :: o' else (k', a') :: replace o' k a
  end.

(** Defining the own property [k]: an existing property keeps its place, a
    new one is created last. *)
Definition define {A : Type} (o : object A) (k : jsstring) (a : A) : object A :=
  match assoc k o with
  | Some _ => replace o k a
  | None => o ++ [(k, a)]
  end.

(** [o[k] = a] where [a] is a primitive: the key [__proto__] reaches the
    setter of [Object.prototype], which ignores primitives; any other key
    defines an own property. *)
Definition set {A : Type} (o : object A) (k : jsstring) (a : A) : object A :=
  if str_eqb k (lit "__proto__") then o else define o k a.

(** The object spread of [a] then [b]. *)
Definition spread {A : Type} (a b : object A) : object A :=
  fold_left (fun o kv => define o (fst kv) (snd kv)) b a.

(** Array indices: canonical numerals below 2^32 - 1. *)
Definition array_index (k : jsstring) : option N :=
  match k with
  | [] => None
  | c :: r =>
      if forallb is_digit k && (negb (c =? 48)%N || match r with [] => true | _ => false end)
      then let n := digits_value (List.map (fun d => (d - 48)%N) k) in
           if (n <? 4294967295)%N then Some n else None
      else None
  end.

Fixpoint insert_sorted (n : N) (k : jsstring) (l : list (N * jsstring)) :=
  match l with
  | [] => [(n, k)]
  | (m, k') :: l' =>
      if (n <? m)%N then (n, k) :: l else (m, k') :: insert_sorted n k l'
  end.

(** [Object.keys(o)]: array indices in ascending order, then the other keys
    in creation order. *)
Definition keys {A : Type} (o : object A) : list jsstring :=
  let ks := List.map fst o in
  let idx := fold_left (fun acc k => match array_index k with
                                    | Some n => insert_sorted n k acc
                                    | None => acc
                                    end) ks [] in
  List.map snd idx
  ++ filter (fun k => match array_index k with Some _ => false | None => true end) ks.

End Obj.
Import Obj.

(** ** Effects

    An adapter call reads the network through [axios.get], draws from
    [Math.random], and can throw. The environment is a state [world] that
    both thread; a run returns its result, the final environment and the
    trace of what it did. *)

Record request := { url : jsstring; referer : option jsstring }.

Inductive http :=
| Rejected
| Response (data : value).

Inductive event :=
| EvGet (r : request)
| EvRandom
| EvMatch
| EvSplit.

Inductive exn :=
| NetworkError
| TypeError.

Inductive result (A : Type) :=
| Ret (a : A)
| Throw (e : exn).
Arguments Throw {A} e.

Definition M (W A : Type) : Type := W -> result A * W * list event.

Definition ret {W A : Type} (a : A) : M W A := fun w => (Ret a, w, []).

Definition throw {W A : Type} (e : exn) : M W A := fun w => (Throw e, w, []).

Definition bind {W A B : Type} (m : M W A) (f : A -> M W B) : M W B :=
  fun w =>
    match m w with
    | (Ret a, w1, t1) => let '(r, w2, t2) := f a w1 in (r, w2, t1 ++ t2)
    | (Throw e, w1, t1) => (Throw e, w1, t1)
    end.

(** [try { m } catch (error) { h }] *)
Definition try_catch {W A : Type} (m : M W A) (h : exn -> M W A) : M W A :=
  fun w =>
    match m w with
    | (Throw e, w1, t1) => let '(r, w2, t2) := h e w1 in (r, w2, t1 ++ t2)
    | ok => ok
    end.

Definition tick {W : Type} (e : event) : M W unit := fun w => (Ret tt, w, [e]).

Declare Scope js_scope.
Delimit Scope js_scope with js.
Notation "x <- m ;; k" := (bind m (fun x => k))
  (at level 61, m at next level, right associativity) : js_scope.
Notation "m ;;; k" := (bind m (fun _ => k))
  (at level 61, right associativity) : js_scope.
Open Scope js_scope.

Definition outcome_of {W A : Type} (r : result A * W * list event) : result A :=
  fst (fst r).
Definition trace_of {W A : Type} (r : result A * W * list event) : list event :=
  snd r.

Definition is_get (e : event) : bool :=
  match e with EvGet _ => true | _ => false end.
Definition is_parse (e : event) : bool :=
  match e with EvMatch | EvSplit => true | _ => false end.

(** The number of network calls of a trace. *)
Definition gets (t : list event) : nat := List.length (filter is_get t).
(** The requests of a trace, in the order they were sent. *)
Definition requests (t : list event) : list request :=
  flat_map (fun e => match e with EvGet r => [r] | _ => [] end) t.

(** ** The configuration *)

(** An entry and a group of the watchlist; [title] is the [name] property
    of the group. *)
Record entry := { symbol : jsstring; name : jsstring }.
Record group := { title : jsstring; symbols : list entry }.

(** The watchlist object: its groups by key, in the order of its keys. *)
Definition watchlist := list (jsstring * group).

(** A quote object: both properties exist, with whatever value they got. *)
Record quote := { price : value; change : value }.

(** What [fetchAllPrices] stores per name: the cross, or the pieces of the
    line [formatPrice] builds (the price, the sign and colour chosen by
    [change >= 0], the change to be printed with two decimals). *)
Inductive cell :=
| Cross
| Line (p : value) (up : bool) (c : number).

(** The built-in watchlist of [index.js]. Names are given by their code
    units where they are not ASCII. *)
Definition DEFAULT_WATCHLIST : watchlist :=
  [ (lit "stocks",
     {| title := [65; 32929]%N;
        symbols :=
          [ {| symbol := lit "sh000001"; name := [19978; 35777; 25351; 25968]%N |};
            {| symbol := lit "sz399001"; name := [28145; 35777; 25104; 25351]%N |};
            {| symbol := lit "sz399006"; name := [21019; 19994; 26495; 25351]%N |};
            {| symbol := lit "sh600519"; name := [36149; 24030; 33541; 21488]%N |};
            {| symbol := lit "sz000001"; name := [24179; 23433; 38134; 34892]%N |} ] |});
    (lit "hkstocks",
     {| title := [28207; 32929]%N;
        symbols :=
          [ {| symbol := lit "hkHSI"; name := [24658; 29983; 25351; 25968]%N |};
            {| symbol := lit "hk00700"; name := [33150; 35759; 25511; 32929]%N |} ] |});
    (lit "gold",
     {| title := [40644; 37329]%N;
        symbols :=
          [ {| symbol := lit "XAUUSD"; name := [40644; 37329; 47; 32654; 20803]%N |};
            {| symbol := lit "AU9999"; name := lit "Au9999" |} ] |});
    (lit "crypto",
     {| title := [21152; 23494; 36135; 24065]%N;
        symbols :=
          [ {| symbol := lit "bitcoin"; name := lit "BTC" |};
            {| symbol := lit "ethereum"; name := lit "ETH" |};
            {| symbol := lit "solana"; name := lit "SOL" |} ] |}) ].

(** The table of [fetchGold]: the doubles its literals denote. *)
Module Mock.
Record metal := { base : Q; change : Q }.
End Mock.

Definition mockData : list (jsstring * Mock.metal) :=
  [ (lit "XAUUSD",
     {| Mock.base := literal 2650; Mock.change := literal (5 # 10) |});
    (lit "AU9999",
     {| Mock.base := literal 620; Mock.change := literal (3 # 10) |}) ].

(** The literal 0.1 of [fetchGold]. *)
Definition tenth : Q := literal (1 # 10).

(** The table of [fetchCrypto]. *)
Definition idMap : list (jsstring * jsstring) :=
  [ (lit "bitcoin", lit "bitcoin");
    (lit "ethereum", lit "ethereum");
    (lit "solana", lit "solana") ].

(** [idMap[symbol]] as the string it becomes in the URL and as a property
    key: the id, the text of an inherited member, or [undefined]. *)
Definition coin_key (symbol : jsstring) : jsstring :=
  match lookup idMap symbol with
  | Own id => id
  | Inherited m => builtin_to_string m
  | Missing => lit "undefined"
  end.

Definition china_request (symbol : jsstring) : request :=
  {| url := lit "https://hq.sinajs.cn/list=" ++ symbol;
     referer := Some (lit "http://finance.sina.com.cn") |}.

Definition crypto_request (symbol : jsstring) : request :=
  {| url := lit "https://api.coingecko.com/api/v3/simple/price?ids="
            ++ coin_key symbol
            ++ lit "&vs_currencies=cny&include_24hr_change=true";
     referer := None |}.

(** [change >= 0] on a number *)
Definition geq0 (n : number) : bool :=
  match n with
  | NaN => false
  | Inf negative => negb negative
  | Num q => Qle_bool 0 q
  end.

(** ** The adapters and the aggregator *)

Section Adapters.

Variable W : Type.
(** [Math.random()]: a draw, which is a double in [0, 1), and the
    generator's next state. *)
Variable math_random : W -> Q * W.
(** [axios.get(url, config)]: the promise is rejected, or fulfilled with a
    response whose [data] is given. *)
Variable axios_get : request -> W -> http * W.

Definition random : M W Q :=
  fun w => let (r, w') := math_random w in (Ret r, w', [EvRandom]).

Definition get (r : request) : M W value :=
  fun w =>
    match axios_get r w with
    | (Rejected, w') => (Throw NetworkError, w', [EvGet r])
    | (Response d, w') => (Ret d, w', [EvGet r])
    end.

(** [response.data[k]] *)
Definition member (v : value) (k : jsstring) : M W value :=
  match v with
  | VUndef | VNull => throw TypeError
  | _ => ret (field v k)
  end.

Definition is_null_string (v : value) : bool :=
  match v with
  | VStr s => str_eqb s (lit "null")
  | _ => false
  end.

(** [fetchChinaStock], lines 75-100. On a string [includes], [length] and
    [match] are the string's; on an array [includes] and [length] are the
    array's and [match] is not a function; any other value has no
    [includes] to call. *)
Definition fetchChinaStock (symbol : jsstring) : M W (option quote) :=
  try_catch
    (data <- get (china_request symbol) ;;
     match data with
     | VStr body =>
         if includes body (lit "null") || (List.length body <? 32)%nat
         then ret None
         else
           tick EvMatch ;;;
           match match_quoted body with
           | Some inner =>
               tick EvSplit ;;;
               let parts := split comma inner in
               ret (Some {| price := VNum (parseFloat_at parts 1);
                            change := VNum (parseFloat_at parts 2) |})
           | None => ret None
           end
     | VArr items =>
         if existsb is_null_string items || (List.length items <? 32)%nat
         then ret None
         else throw TypeError
     | _ => throw TypeError
     end)
    (fun _ => ret None).

(** [fetchCrypto], lines 103-125. *)
Definition fetchCrypto (symbol : jsstring) : M W (option quote) :=
  try_catch
    (response <- get (crypto_request symbol) ;;
     data <- member response (coin_key symbol) ;;
     if truthy data
     then ret (Some {| price := field data (lit "cny");
                       change := field data (lit "cny_24h_change") |})
     else ret None)
    (fun _ => ret None).

(** [fetchGold], lines 128-149. An inherited member of the table is a
    function or an object: it passes [if (data)], and its [base] and
    [change] are [undefined], which added to a number give [NaN]. *)
Definition fetchGold (symbol : jsstring) : M W (option quote) :=
  try_catch
    (match lookup mockData symbol with
     | Own data =>
         r <- random ;;
         let variance := fmul (fsub (Num r) (Num (literal (5 # 10))))
                              (Num (literal 2)) in
         ret (Some {| price := VNum (fadd (Num (Mock.base data)) variance);
                      change := VNum (fadd (Num (Mock.change data))
                                           (fmul variance (Num tenth))) |})
     | Inherited _ =>
         _ <- random ;;
         ret (Some {| price := VNum NaN; change := VNum NaN |})
     | Missing => ret None
     end)
    (fun _ => ret None).

(** [formatPrice], lines 68-72. [change.toFixed] exists on numbers only,
    and the template literal converts [price] to a string: a [TypeError]
    is thrown when the change is no number or the price does not convert.
    Nothing else is observable in between. *)
Definition formatPrice (p c : value) : M W cell :=
  match c with
  | VNum n =>
      if converts_to_string p then ret (Line p (geq0 n) n)
      else throw TypeError
  | _ => throw TypeError
  end.

(** [data ? formatPrice(data.price, data.change) : cross] *)
Definition render (data : option quote) : M W cell :=
  match data with
  | Some q => formatPrice (price q) (change q)
  | None => ret Cross
  end.

(** One [for (const e of entries)] loop of [fetchAllPrices]. *)
Fixpoint for_of (fetch : jsstring -> M W (option quote))
    (entries : list entry) (results : object cell) : M W (object cell) :=
  match entries with
  | [] => ret results
  | e :: rest =>
      data <- fetch (symbol e) ;;
      c <- render data ;;
      for_of fetch rest (set results (name e) c)
  end.

(** [watchlist[key].symbols]: reading [symbols] of a missing group, or of
    an inherited member iterated by [for ... of], is a [TypeError]. *)
Definition symbols_of (wl : watchlist) (key : jsstring) : M W (list entry) :=
  match lookup wl key with
  | Own g => ret (symbols g)
  | _ => throw TypeError
  end.

(** [fetchAllPrices], lines 152-180. *)
Definition fetchAllPrices (wl : watchlist) : M W (object cell) :=
  stocks <- symbols_of wl (lit "stocks") ;;
  results <- for_of fetchChinaStock stocks [] ;;
  hkstocks <- symbols_of wl (lit "hkstocks") ;;
  results <- for_of fetchChinaStock hkstocks results ;;
  gold <- symbols_of wl (lit "gold") ;;
  results <- for_of fetchGold gold results ;;
  crypto <- symbols_of wl (lit "crypto") ;;
  for_of fetchCrypto crypto results.

End Adapters.

(** ** Reading the configuration

    Lines 189-198 of [main]: the built-in watchlist, overridden group by
    group by the configuration file when it exists and parses.

    A parsed file is taken to hold groups: an object whose values are
    objects with a [name] and an array [symbols] of entries whose [symbol]
    and [name] are strings, which is what the add command writes. A file
    that parses to anything else ([null] under a key, a group without
    [symbols]) is outside [Parsed]; the statements about [Parsed] files
    say nothing of it. *)
Inductive config_file :=
| NoFile
| Unparsable
| Parsed (customConfig : watchlist).

Definition load_watchlist (f : config_file) : watchlist :=
  match f with
  | Parsed customConfig => spread DEFAULT_WATCHLIST customConfig
  | NoFile | Unparsable => DEFAULT_WATCHLIST
  end.

(** [addStock] of [cli.js], lines 72-89, as a function of the configuration
    it read: a market without a group gets a new one, whatever its key. An
    inherited member passes [!config[market]] and has no [symbols] to push
    to. *)
Definition addStock (s n market : jsstring) (config : watchlist)
  : result watchlist :=
  let e := {| symbol := s; name := n |} in
  match lookup config market with
  | Own g =>
      Ret (replace config market
             {| title := title g; symbols := symbols g ++ [e] |})
  | Inherited _ => Throw TypeError
  | Missing =>
      Ret (config ++ [(market, {| title := market; symbols := [e] |})])
  end.

(** ** The report, as the sequence of entries with their outcomes

    The run that visits the four groups in the order of [fetchAllPrices],
    each with its adapter, and keeps every outcome beside its entry. *)
Section Report.

Variable W : Type.
Variable math_random : W -> Q * W.
Variable axios_get : request -> W -> http * W.

Fixpoint fetch_each (fetch : jsstring -> M W (option quote))
    (entries : list entry) : M W (list (entry * option quote)) :=
  match entries with
  | [] => ret []
  | e :: rest =>
      o <- fetch (symbol e) ;;
      os <- fetch_each fetch rest ;;
      ret ((e, o) :: os)
  end.

Definition visit_all (stocks hkstocks gold crypto : list entry)
  : M W (list (entry * option quote)) :=
  a <- fetch_each (fetchChinaStock axios_get) stocks ;;
  b <- fetch_each (fetchChinaStock axios_get) hkstocks ;;
  c <- fetch_each (fetchGold math_random) gold ;;
  d <- fetch_each (fetchCrypto axios_get) crypto ;;
  ret (a ++ b ++ c ++ d).

End Report.

(** The cell of an outcome that can be formatted. *)
Definition cell_of (o : option quote) : cell :=
  match o with
  | Some {| price := p; change := VNum n |} => Line p (geq0 n) n
  | _ => Cross
  end.

(** An outcome [formatPrice] accepts: no quote, or a quote whose change is
    a number and whose price converts to a string. *)
Definition printable (o : option quote) : Prop :=
  match o with
  | Some q => (exists n, change q = VNum n)
              /\ converts_to_string (price q) = true
  | None => True
  end.

(** Storing the outcomes under the names of their entries. *)
Definition store (results : object cell) (outs : list (entry * option quote))
  : object cell :=
  fold_left (fun r eo => set r (name (fst eo)) (cell_of (snd eo))) outs results.

(** The entries of all the groups of a watchlist, in its own order. *)
Definition configured (wl : watchlist) : list entry :=
  flat_map (fun kg => symbols (snd kg)) wl.

(** A group key with an adapter. *)
Definition bound (k : jsstring) : bool :=
  existsb (str_eqb k) [lit "stocks"; lit "hkstocks"; lit "gold"; lit "crypto"].

(** ** A stubbed environment

    Draws are replayed from a list (0 once it is used up); a GET is answered
    by the route of its URL in a fixed table, and rejected when there is
    none. *)
Module Stub.

(** The environment is the list of draws still to come. *)
Definition world := list Q.

Definition math_random (w : world) : Q * world :=
  match w with
  | [] => (0, w)
  | r :: rs => (r, rs)
  end.

(** The transport of a table of routes. *)
Definition axios_get (routes : list (jsstring * value))
    (r : request) (w : world) : http * world :=
  match assoc (url r) routes with
  | Some d => (Response d, w)
  | None => (Rejected, w)
  end.

(** No route at all: every GET is rejected. *)
Definition offline : request -> world -> http * world := axios_get [].

End Stub.

(** ** Notions used in the statements *)

(** An outcome with a [NaN] price, or change. *)
Definition price_is_nan (o : option quote) : Prop :=
  exists q, o = Some q /\ price q = VNum NaN.
Definition change_is_nan (o : option quote) : Prop :=
  exists q, o = Some q /\ change q = VNum NaN.

(** What the report holds for an entry and its outcome. *)
Definition named (eo : entry * option quote) : jsstring * cell :=
  (name (fst eo), cell_of (snd eo)).

(** The entries of the group under a key, when the watchlist has it. *)
Definition group_entries (wl : watchlist) (key : jsstring)
  : option (list entry) :=
  option_map symbols (assoc key wl).

(** The entries under a key, none when the key is missing. *)
Definition entries_of (wl : watchlist) (key : jsstring) : list entry :=
  match group_entries wl key with
  | Some es => es
  | None => []
  end.

(** Every quote the cryptocurrency adapter returns for these entries can
    be formatted: its change is a number and its price converts to a
    string. *)
Definition crypto_quotes_printable {W : Type}
    (axios_get : request -> W -> http * W) (crypto : list entry) : Prop :=
  forall e w q,
    In e crypto ->
    outcome_of (fetchCrypto axios_get (symbol e) w) = Ret (Some q) ->
    printable (Some q).

(** The requests of a run that visits all the entries of the four groups:
    those of the stocks, of the Hong Kong stocks and of the coins, in this
    order; the metals send none. *)
Definition requests_of (stocks hkstocks crypto : list entry) : list request :=
  map (fun e => china_request (symbol e)) stocks
  ++ map (fun e => china_request (symbol e)) hkstocks
  ++ map (fun e => crypto_request (symbol e)) crypto.


(** Pairwise distinct strings. *)
Fixpoint distinctb (l : list jsstring) : bool :=
  match l with
  | [] => true
  | k :: l' => negb (existsb (str_eqb k) l') && distinctb l'
  end.

(** ** Concrete inputs *)

Definition moutai : jsstring := [36149; 24030; 33541; 21488]%N.

(** A table of routes: one stock and one coin answer, the rest is down. *)
Definition some_routes : list (jsstring * value) :=
  [ (url (china_request (lit "sh600519")),
     VStr (lit "sh600519="
           ++ quoted (moutai ++ lit ",1830.00,1835.00,1820.00")));
    (url (crypto_request (lit "bitcoin")),
     VObj [(lit "bitcoin",
            VObj [(lit "cny", VNum (Num 435000));
                  (lit "cny_24h_change", VNum (Num (-2)))])]) ].

(** The built-in watchlist with a futures group, as the add command of the
    CLI makes it. *)
Definition with_futures : watchlist :=
  DEFAULT_WATCHLIST
  ++ [(lit "futures",
       {| title := lit "futures";
          symbols := [{| symbol := lit "CL"; name := lit "Oil" |}] |})].

(** Two entries with one display name. *)
Definition same_name : watchlist :=
  [ (lit "stocks",
     {| title := lit "A";
        symbols := [ {| symbol := lit "sh000001"; name := lit "Index" |};
                     {| symbol := lit "sz399001"; name := lit "Index" |} ] |});
    (lit "hkstocks", {| title := lit "HK"; symbols := [] |});
    (lit "gold", {| title := lit "Gold"; symbols := [] |});
    (lit "crypto", {| title := lit "Crypto"; symbols := [] |}) ].

(** The coin group is the first key. *)
Definition crypto_first : watchlist :=
  [ (lit "crypto",
     {| title := lit "Crypto";
        symbols := [ {| symbol := lit "bitcoin"; name := lit "BTC" |} ] |});
    (lit "stocks",
     {| title := lit "A";
        symbols := [ {| symbol := lit "sh000001"; name := lit "SSE" |} ] |});
    (lit "hkstocks", {| title := lit "HK"; symbols := [] |});
    (lit "gold", {| title := lit "Gold"; symbols := [] |}) ].

(** ** Further notions used in the statements *)

(** The cell stored last under a name among outcomes, if any. *)
Fixpoint last_named (k : jsstring) (outs : list (entry * option quote))
  : option cell :=
  match outs with
  | [] => None
  | eo :: rest =>
      match last_named k rest with
      | Some c => Some c
      | None => if str_eqb (name (fst eo)) k then Some (cell_of (snd eo))
                else None
      end
  end.

(** The four keys [fetchAllPrices] and [main] read, in their order. *)
Definition bound_keys : list jsstring :=
  [lit "stocks"; lit "hkstocks"; lit "gold"; lit "crypto"].

(** ** The command line of [cli.js] *)

Module Cli.

(** The built-in watchlist of [cli.js], lines 14-43. *)
Definition DEFAULT_WATCHLIST : watchlist :=
  [ (lit "stocks",
     {| title := [65; 32929]%N;
        symbols :=
          [ {| symbol := lit "sh000001"; name := [19978; 35777; 25351; 25968]%N |};
            {| symbol := lit "sz399001"; name := [28145; 35777; 25104; 25351]%N |};
            {| symbol := lit "sh600519"; name := [36149; 24030; 33541; 21488]%N |} ] |});
    (lit "hkstocks",
     {| title := [28207; 32929]%N;
        symbols :=
          [ {| symbol := lit "hkHSI"; name := [24658; 29983; 25351; 25968]%N |};
            {| symbol := lit "hk00700"; name := [33150; 35759; 25511; 32929]%N |} ] |});
    (lit "gold",
     {| title := [40644; 37329]%N;
        symbols :=
          [ {| symbol := lit "XAUUSD"; name := [40644; 37329; 47; 32654; 20803]%N |} ] |});
    (lit "crypto",
     {| title := [21152; 23494; 36135; 24065]%N;
        symbols :=
          [ {| symbol := lit "bitcoin"; name := lit "BTC" |};
            {| symbol := lit "ethereum"; name := lit "ETH" |} ] |}) ].

(** The configuration [addStock] starts from, lines 73-79: the file when it
    exists and parses, the built-in watchlist otherwise. *)
Definition read_config (f : config_file) : watchlist :=
  match f with
  | Parsed config => config
  | NoFile | Unparsable => DEFAULT_WATCHLIST
  end.

(** What a run of the command line did. [WriteFailed] is the error of
    [fs.writeFileSync], which nothing catches. *)
Inductive done :=
| Wrote (config : watchlist)
| WriteFailed
| Failed (e : exn)
| Usage
| Help
| Watch.

(** [args[i]], with [undefined] as the empty string where only its
    truthiness is read. *)
Definition arg (args : list jsstring) (i : nat) : jsstring :=
  nth i args [].

Definition nonempty (s : jsstring) : bool :=
  match s with [] => false | _ => true end.

(** The dispatch of lines 92-140. The add command needs a symbol and a
    name that are not empty; its market is [args[3] || 'stocks']. What it
    writes to the file is the configuration [addStock] leaves, which
    [JSON.parse] gives back from the file; [writable] tells whether
    [fs.writeFileSync] succeeds (it fails when the directory [config] does
    not exist, which the code does not create). The default command calls
    what [require('./index.js')] returns, which is the object of the four
    exported functions and not callable: a [TypeError]. The help text and
    the watch timer, whose ticks make the same call, are only named. *)
Definition run (args : list jsstring) (f : config_file) (writable : bool)
  : done :=
  match args with
  | command :: _ =>
      if str_eqb command (lit "add") then
        if nonempty (arg args 1) && nonempty (arg args 2) then
          let market := if nonempty (arg args 3) then arg args 3
                        else lit "stocks" in
          match addStock (arg args 1) (arg args 2) market (read_config f) with
          | Ret config => if writable then Wrote config else WriteFailed
          | Throw e => Failed e
          end
        else Usage
      else if str_eqb command (lit "help") || str_eqb command (lit "--help")
              || str_eqb command (lit "-h") then Help
      else if str_eqb command (lit "watch") then Watch
      else Failed TypeError
  | [] => Failed TypeError
  end.

End Cli.

(** ** The main program of [index.js]

    [main], lines 183-236, writes lines to the console between its fetches.
    Its runs are traced by the effects below: the events of the adapters
    and the lines logged, in their order. *)

Inductive market := Stocks | HKStocks | Gold | Crypto.

(** The lines of [main]: the banner and the closing line carry the date and
    the time they print; a heading is the fixed text of its loop; an entry
    line is the name and the cell of its status. *)
Inductive line :=
| Blank
| Banner (date : jsstring)
| Rule
| ConfigWarning
| Heading (m : market)
| EntryLine (n : jsstring) (c : cell)
| Finished (time : jsstring).

Inductive effect :=
| Did (e : event)
| Logged (l : line).

Definition IO (W A : Type) : Type := W -> result A * W * list effect.

Definition io_ret {W A : Type} (a : A) : IO W A := fun w => (Ret a, w, []).

Definition io_bind {W A B : Type} (m : IO W A) (f : A -> IO W B) : IO W B :=
  fun w =>
    match m w with
    | (Ret a, w1, t1) => let '(r, w2, t2) := f a w1 in (r, w2, t1 ++ t2)
    | (Throw e, w1, t1) => (Throw e, w1, t1)
    end.

(** A computation of the adapters inside [main]. *)
Definition io_lift {W A : Type} (m : M W A) : IO W A :=
  fun w => let '(r, w', t) := m w in (r, w', map Did t).

(** [console.log(l)] *)
Definition log {W : Type} (l : line) : IO W unit :=
  fun w => (Ret tt, w, [Logged l]).

Declare Scope io_scope.
Delimit Scope io_scope with io.
Notation "x <- m ;; k" := (io_bind m (fun x => k))
  (at level 61, m at next level, right associativity) : io_scope.
Notation "m ;;; k" := (io_bind m (fun _ => k))
  (at level 61, right associativity) : io_scope.

(** The events of a run of [main], and the entry lines it logged. *)
Definition events_of (t : list effect) : list event :=
  flat_map (fun x => match x with Did e => [e] | Logged _ => [] end) t.
Definition lines_of (t : list effect) : list line :=
  flat_map (fun x => match x with Logged l => [l] | Did _ => [] end) t.
Definition entry_lines (t : list effect) : list (jsstring * cell) :=
  flat_map (fun x => match x with
                     | Logged (EntryLine n c) => [(n, c)]
                     | _ => []
                     end) t.

Section Main.

Variable W : Type.
Variable math_random : W -> Q * W.
Variable axios_get : request -> W -> http * W.
(** [new Date().toLocaleString('zh-CN')] and
    [new Date().toLocaleTimeString('zh-CN')] *)
Variable locale_string : W -> jsstring * W.
Variable locale_time_string : W -> jsstring * W.

Definition read_clock (clock : W -> jsstring * W) : IO W jsstring :=
  fun w => let (s, w') := clock w in (Ret s, w', []).

(** One loop of [main], lines 202-206 and its three copies. *)
Fixpoint print_each (fetch : jsstring -> M W (option quote))
    (entries : list entry) : IO W unit :=
  match entries with
  | [] => io_ret tt
  | e :: rest =>
      (data <- io_lift (fetch (symbol e)) ;;
       status <- io_lift (render data) ;;
       log (EntryLine (name e) status) ;;;
       print_each fetch rest)%io
  end.

(** Lines 189-198: the warning is logged when the file does not parse. *)
Definition read_watchlist (f : config_file) : IO W watchlist :=
  match f with
  | Unparsable => (log ConfigWarning ;;; io_ret (load_watchlist f))%io
  | _ => io_ret (load_watchlist f)
  end.

Definition main (f : config_file) : IO W unit :=
  (log Blank ;;;
   date <- read_clock locale_string ;;
   log (Banner date) ;;;
   log Rule ;;;
   log Blank ;;;
   watchlist <- read_watchlist f ;;
   log (Heading Stocks) ;;;
   stocks <- io_lift (symbols_of watchlist (lit "stocks")) ;;
   print_each (fetchChinaStock axios_get) stocks ;;;
   log Blank ;;;
   log (Heading HKStocks) ;;;
   hkstocks <- io_lift (symbols_of watchlist (lit "hkstocks")) ;;
   print_each (fetchChinaStock axios_get) hkstocks ;;;
   log Blank ;;;
   log (Heading Gold) ;;;
   gold <- io_lift (symbols_of watchlist (lit "gold")) ;;
   print_each (fetchGold math_random) gold ;;;
   log Blank ;;;
   log (Heading Crypto) ;;;
   crypto <- io_lift (symbols_of watchlist (lit "crypto")) ;;
   print_each (fetchCrypto axios_get) crypto ;;;
   log Blank ;;;
   log Rule ;;;
   time <- read_clock locale_time_string ;;
   log (Finished time) ;;;
   log Blank)%io.

End Main.

(** ** Further concrete inputs *)

(** The groups of [crypto_first] under other titles, in another order and
    beside a group without adapter. *)
Definition crypto_last : watchlist :=
  [ (lit "gold", {| title := lit "Au"; symbols := [] |});
    (lit "futures", {| title := lit "F"; symbols := [] |});
    (lit "hkstocks", {| title := lit "H"; symbols := [] |});
    (lit "stocks",
     {| title := lit "S";
        symbols := [ {| symbol := lit "sh000001"; name := lit "SSE" |} ] |});
    (lit "crypto",
     {| title := lit "C";
        symbols := [ {| symbol := lit "bitcoin"; name := lit "BTC" |} ] |}) ].

(** A watchlist without the Hong Kong group. *)
Definition no_hkstocks : watchlist :=
  [ (lit "stocks",
     {| title := lit "A";
        symbols := [ {| symbol := lit "sh000001"; name := lit "SSE" |} ] |});
    (lit "gold", {| title := lit "Gold"; symbols := [] |});
    (lit "crypto", {| title := lit "Crypto"; symbols := [] |}) ].

(** The line of an entry and its outcome. *)
Definition entry_line (eo : entry * option quote) : line :=
  EntryLine (name (fst eo)) (cell_of (snd eo)).

(** The lines [main] logs around the entry lines of the four groups. *)
Definition screen (f : config_file) (date time : jsstring)
    (a b c d : list (entry * option quote)) : list line :=
  [Blank; Banner date; Rule; Blank]
  ++ match f with Unparsable => [ConfigWarning] | _ => [] end
  ++ [Heading Stocks] ++ map entry_line a
  ++ [Blank; Heading HKStocks] ++ map entry_line b
  ++ [Blank; Heading Gold] ++ map entry_line c
  ++ [Blank; Heading Crypto] ++ map entry_line d
  ++ [Blank; Rule; Finished time; Blank].

(** What reading the configuration logs. *)
Definition warning (f : config_file) : list effect :=
  match f with Unparsable => [Logged ConfigWarning] | _ => [] end.

(** A clock that stands still. *)
Definition stub_date (w : Stub.world) : jsstring * Stub.world :=
  (lit "2026/1/5 09:30:00", w).
Definition stub_time (w : Stub.world) : jsstring * Stub.world :=
  (lit "09:30:00", w).

Definition trace_of_io {W A : Type} (r : result A * W * list effect)
  : list effect := snd r.


(** * Properties *)

Unset Implicit Arguments.

(** ** The run-time functions on examples *)

Example split_ex :
  split comma (lit "a,,b,") = [lit "a"; lit ""; lit "b"; lit ""].
Proof. reflexivity. Qed.

Example match_quoted_ex :
  match_quoted (lit "x=" ++ quoted [] ++ lit "; y=" ++ quoted (lit "ab")
                ++ lit " z=" ++ quoted (lit "c")) = Some (lit "; y=").
Proof. reflexivity. Qed.

Example keys_ex :
  keys (set (set (set (set [] (lit "b") 1) (lit "10") 2) (lit "9") 3) (lit "b") 4)
  = [lit "9"; lit "10"; lit "b"].
Proof. reflexivity. Qed.

(** ** Doubles *)

Arguments round64 : simpl never.
Arguments fadd : simpl never.
Arguments fmul : simpl never.
Arguments fsub : simpl never.
Arguments literal : simpl never.

Lemma Num_inj (x y : Q) : Num x = Num y -> x = y.
Proof. now intros [= ->]. Qed.

Lemma pow2_pos (z : Z) : 0 < pow2 z.
Proof. apply Qpower_0_lt. reflexivity. Qed.

Lemma pow2_add (a b : Z) : pow2 (a + b) == pow2 a * pow2 b.
Proof. apply Qpower_plus. discriminate. Qed.

Lemma pow2_Z (z : Z) : (0 <= z)%Z -> pow2 z == inject_Z (2 ^ z).
Proof. intros H. unfold pow2. now rewrite (Zpower_Qpower 2 z H). Qed.

Lemma pow2_lt (a b : Z) : (a < b)%Z -> pow2 a < pow2 b.
Proof. intros H. apply Qpower_lt_compat_l; [exact H | reflexivity]. Qed.

Lemma pow2_le (a b : Z) : (a <= b)%Z -> pow2 a <= pow2 b.
Proof. intros H. apply Qpower_le_compat_l; [exact H | discriminate]. Qed.

Lemma pow2_lt_inv (a b : Z) : pow2 a < pow2 b -> (a < b)%Z.
Proof. intros H. apply (Qpower_lt_compat_l_inv 2); [exact H | reflexivity]. Qed.

Lemma pow2_split (a b : Z) :
  (a <= b)%Z -> pow2 b == inject_Z (2 ^ (b - a)) * pow2 a.
Proof.
  intros H. rewrite <- pow2_Z by lia. rewrite <- pow2_add.
  now replace (b - a + a)%Z with b by lia.
Qed.

Lemma binade_spec (q : Q) :
  0 < q -> pow2 (binade q) <= q /\ q < pow2 (binade q + 1).
Proof.
  intros Hq. destruct q as [n d].
  assert (Hn : (0 < n)%Z).
  { unfold Qlt in Hq. simpl in Hq. lia. }
  unfold binade. cbv zeta. cbn [Qnum Qden].
  set (a := Z.log2 n). set (b := Z.log2 (Z.pos d)).
  destruct (Z.log2_spec n Hn) as [A1 A2]. fold a in A1, A2.
  destruct (Z.log2_spec (Z.pos d) (Pos2Z.is_pos d)) as [B1 B2]. fold b in B1, B2.
  assert (Ha : (0 <= a)%Z) by apply Z.log2_nonneg.
  assert (Hb : (0 <= b)%Z) by apply Z.log2_nonneg.
  set (N := inject_Z n). set (D := inject_Z (Z.pos d)).
  assert (Eq : (n # d) * D == N).
  { unfold N, D. rewrite (Qmake_Qdiv n d). field.
    intros E. discriminate E. }
  assert (HD : 0 < D) by reflexivity.
  assert (PA1 : pow2 a <= N).
  { rewrite (pow2_Z a Ha). unfold N. now rewrite <- Zle_Qle. }
  assert (PA2 : N < 2 * pow2 a).
  { assert (E : 2 * pow2 a == pow2 (Z.succ a)).
    { replace (Z.succ a) with (1 + a)%Z by lia. now rewrite pow2_add. }
    rewrite E, (pow2_Z (Z.succ a)) by lia. unfold N. now rewrite <- Zlt_Qlt. }
  assert (PB1 : pow2 b <= D).
  { rewrite (pow2_Z b Hb). unfold D. now rewrite <- Zle_Qle. }
  assert (PB2 : D < 2 * pow2 b).
  { assert (E : 2 * pow2 b == pow2 (Z.succ b)).
    { replace (Z.succ b) with (1 + b)%Z by lia. now rewrite pow2_add. }
    rewrite E, (pow2_Z (Z.succ b)) by lia. unfold D. now rewrite <- Zlt_Qlt. }
  assert (HE : pow2 (a - b) * pow2 b == pow2 a).
  { rewrite <- pow2_add. now replace (a - b + b)%Z with a by lia. }
  pose proof (pow2_pos a) as Pa. pose proof (pow2_pos b) as Pb.
  pose proof (pow2_pos (a - b)) as Pe.
  assert (E1 : pow2 (a - b + 1) == 2 * pow2 (a - b)).
  { rewrite pow2_add. change (pow2 1) with 2. ring. }
  assert (E2 : 2 * pow2 (a - b - 1) == pow2 (a - b)).
  { replace (a - b)%Z with (1 + (a - b - 1))%Z at 2 by lia.
    now rewrite pow2_add. }
  remember (pow2 (a - b)) as E. remember (pow2 a) as PA.
  remember (pow2 b) as PB. remember (n # d) as q.
  destruct (Qle_bool E q) eqn:T.
  - apply Qle_bool_iff in T. rewrite <- HeqE. split; [exact T|]. rewrite E1.
    destruct (Qlt_le_dec q (2 * E)) as [L|L]; [exact L|]. exfalso.
    assert (2 * E * D <= q * D) by (apply Qmult_le_compat_r; lra).
    assert (2 * E * PB <= 2 * E * D).
    { apply Qmult_le_l; lra. }
    nra.
  - assert (T' : q < E).
    { destruct (Qlt_le_dec q E) as [L|L]; [exact L|].
      apply Qle_bool_iff in L. congruence. }
    replace (a - b - 1 + 1)%Z with (a - b)%Z by lia. rewrite <- HeqE.
    split; [|exact T'].
    remember (pow2 (a - b - 1)) as E'.
    destruct (Qlt_le_dec q E') as [L|L]; [|exact L]. exfalso.
    assert (q * D <= E' * D) by (apply Qmult_le_compat_r; lra).
    assert (E' * D <= E' * (2 * PB)).
    { apply Qmult_le_l; [|lra]. subst E'. apply pow2_pos. }
    nra.
Qed.

Lemma binade_unique (q : Q) (e : Z) :
  pow2 e <= q -> q < pow2 (e + 1) -> binade q = e.
Proof.
  intros H1 H2.
  assert (Hq : 0 < q).
  { apply Qlt_le_trans with (pow2 e); [apply pow2_pos | exact H1]. }
  destruct (binade_spec q Hq) as [S1 S2].
  assert (binade q < e + 1)%Z.
  { apply pow2_lt_inv. apply Qle_lt_trans with q; assumption. }
  assert (e < binade q + 1)%Z.
  { apply pow2_lt_inv. apply Qle_lt_trans with q; assumption. }
  lia.
Qed.

Lemma binade_eq (q q' : Q) : 0 < q -> q == q' -> binade q' = binade q.
Proof.
  intros Hq E. destruct (binade_spec q Hq) as [S1 S2].
  apply binade_unique; now rewrite <- E.
Qed.

Lemma binade_mono (q q' : Q) : 0 < q -> q <= q' -> (binade q <= binade q')%Z.
Proof.
  intros Hq H.
  assert (Hq' : 0 < q') by lra.
  destruct (binade_spec q Hq) as [S1 _].
  destruct (binade_spec q' Hq') as [_ S2].
  assert (binade q < binade q' + 1)%Z.
  { apply pow2_lt_inv. lra. }
  lia.
Qed.

Lemma ulp_exponent_mono (q q' : Q) :
  0 < q -> q <= q' -> (ulp_exponent q <= ulp_exponent q')%Z.
Proof.
  intros Hq H. pose proof (binade_mono q q' Hq H). unfold ulp_exponent. lia.
Qed.

Lemma ulp_exponent_eq (q q' : Q) :
  0 < q -> q == q' -> ulp_exponent q' = ulp_exponent q.
Proof. intros Hq E. unfold ulp_exponent. now rewrite (binade_eq q q' Hq E). Qed.

(** Rounding to the nearest integer stays between the integers around. *)
Lemma round_half_even_floor (x : Q) :
  (Qfloor x <= round_half_even x <= Qfloor x + 1)%Z.
Proof.
  unfold round_half_even.
  destruct (Qcompare (x - inject_Z (Qfloor x)) (1 # 2));
    try destruct (Z.even (Qfloor x)); lia.
Qed.

Lemma round_half_even_le (x : Q) (k : Z) :
  x <= inject_Z k -> (round_half_even x <= k)%Z.
Proof.
  intros H. pose proof (Qfloor_le x) as F.
  assert (Fk : (Qfloor x <= k)%Z).
  { rewrite Zle_Qle. lra. }
  assert (Up : 0 < x - inject_Z (Qfloor x) -> (Qfloor x + 1 <= k)%Z).
  { intros P. assert (L : inject_Z (Qfloor x) < inject_Z k) by lra.
    rewrite <- Zlt_Qlt in L. lia. }
  unfold round_half_even.
  destruct (Qcompare_spec (x - inject_Z (Qfloor x)) (1 # 2)) as [E|L|G].
  - destruct (Z.even (Qfloor x)); [exact Fk|]. apply Up. rewrite E. reflexivity.
  - exact Fk.
  - apply Up. lra.
Qed.

Lemma round_half_even_ge (x : Q) (k : Z) :
  inject_Z k <= x -> (k <= round_half_even x)%Z.
Proof.
  intros H. apply Qfloor_resp_le in H. rewrite Qfloor_Z in H.
  pose proof (round_half_even_floor x). lia.
Qed.

Lemma round_half_even_Z (k : Z) : round_half_even (inject_Z k) = k.
Proof.
  pose proof (round_half_even_le (inject_Z k) k (Qle_refl _)).
  pose proof (round_half_even_ge (inject_Z k) k (Qle_refl _)). lia.
Qed.


Lemma round_positive_upper (q f : Q) :
  0 < q -> q <= f -> on_grid f -> f < pow2 1024 ->
  exists x, round_positive q = Num x /\ 0 <= x /\ x <= f.
Proof.
  intros Hq Hf [m Hm] Hfin.
  pose proof (ulp_exponent_mono q f Hq Hf) as Hu.
  set (u := ulp_exponent q) in *. set (u' := ulp_exponent f) in *.
  pose proof (pow2_pos u) as Pu.
  assert (G : f == inject_Z (m * 2 ^ (u' - u)) * pow2 u).
  { rewrite Hm, (pow2_split u u' Hu), inject_Z_mult. ring. }
  set (k := (m * 2 ^ (u' - u))%Z) in *.
  assert (X : q / pow2 u <= inject_Z k).
  { apply Qle_shift_div_r; [exact Pu|]. now rewrite <- G. }
  pose proof (round_half_even_le _ _ X) as R.
  assert (R0 : (0 <= round_half_even (q / pow2 u))%Z).
  { apply round_half_even_ge. apply Qle_shift_div_l; [exact Pu|].
    change (inject_Z 0) with 0. lra. }
  unfold round_positive. cbv zeta. fold u.
  set (n := round_half_even (q / pow2 u)) in *.
  assert (Le : inject_Z n * pow2 u <= f).
  { rewrite G. apply Qmult_le_compat_r; [|lra]. now rewrite <- Zle_Qle. }
  destruct (Qle_bool (pow2 1024) (inject_Z n * pow2 u)) eqn:T.
  - apply Qle_bool_iff in T. lra.
  - exists (Qred (inject_Z n * pow2 u)). split; [reflexivity|].
    pose proof (Qred_correct (inject_Z n * pow2 u)) as Ex.
    assert (0 <= inject_Z n * pow2 u).
    { apply Qmult_le_0_compat; [|apply Qlt_le_weak; exact Pu].
      change 0 with (inject_Z 0). now rewrite <- Zle_Qle. }
    split; lra.
Qed.

Lemma round_positive_lower (q f x : Q) :
  0 < f -> f <= q -> on_grid f -> round_positive q = Num x -> f <= x.
Proof.
  intros Hf Hq [m Hm] E.
  assert (Hq0 : 0 < q) by lra.
  pose proof (binade_mono f q Hf Hq) as Hb.
  destruct (binade_spec f Hf) as [_ F2].
  destruct (binade_spec q Hq0) as [Q1 _].
  unfold round_positive in E. cbv zeta in E.
  unfold ulp_exponent in E, Hm.
  set (e := binade q) in *. set (e' := binade f) in *.
  set (u := Z.max (e - 52) (-1074)) in *.
  set (u' := Z.max (e' - 52) (-1074)) in *.
  set (n := round_half_even (q / pow2 u)) in *.
  pose proof (pow2_pos u) as Pu.
  destruct (Qle_bool (pow2 1024) (inject_Z n * pow2 u)); [discriminate|].
  apply Num_inj in E. subst x.
  pose proof (Qred_correct (inject_Z n * pow2 u)) as Ex.
  apply Qle_trans with (inject_Z n * pow2 u); [|lra]. clear Ex.
  destruct (Z.eq_dec e' e) as [Eb|Nb].
  - assert (Eu : u' = u) by (unfold u', u; now rewrite Eb).
    rewrite Eu in Hm.
    assert (X : inject_Z m <= q / pow2 u).
    { apply Qle_shift_div_l; [exact Pu|]. now rewrite <- Hm. }
    apply round_half_even_ge in X. fold n in X.
    rewrite Hm. apply Qmult_le_compat_r; [|lra]. now rewrite <- Zle_Qle.
  - assert (Fe : f < pow2 e).
    { apply Qlt_le_trans with (pow2 (e' + 1)); [exact F2|].
      apply pow2_le. lia. }
    destruct (Z_le_gt_dec u e) as [Hue|Hue].
    + assert (X : inject_Z (2 ^ (e - u)) <= q / pow2 u).
      { apply Qle_shift_div_l; [exact Pu|]. now rewrite <- pow2_split. }
      apply round_half_even_ge in X. fold n in X.
      apply Qle_trans with (pow2 e); [lra|].
      rewrite (pow2_split u e Hue).
      apply Qmult_le_compat_r; [|lra]. now rewrite <- Zle_Qle.
    + exfalso.
      assert (Eu' : u' = (-1074)%Z) by lia.
      assert (Lt : pow2 e < pow2 u') by (apply pow2_lt; lia).
      pose proof (pow2_pos u') as Pu'.
      assert (Hm0 : (0 < m)%Z).
      { destruct (Z_lt_le_dec 0 m) as [P|P]; [exact P|]. exfalso.
        rewrite Zle_Qle in P. change (inject_Z 0) with 0 in P.
        assert (inject_Z m * pow2 u' <= 0 * pow2 u').
        { apply Qmult_le_compat_r; lra. }
        lra. }
      assert (M1 : 1 <= inject_Z m).
      { change 1 with (inject_Z 1). rewrite <- Zle_Qle. lia. }
      assert (1 * pow2 u' <= inject_Z m * pow2 u').
      { apply Qmult_le_compat_r; lra. }
      lra.
Qed.

Lemma round_positive_fixed (p p' x : Q) :
  0 < p -> p == p' -> round_positive p = Num x -> x == p' ->
  on_grid p' /\ p' < pow2 1024.
Proof.
  intros Hp E R X. unfold round_positive in R. cbv zeta in R.
  set (n := round_half_even (p / pow2 (ulp_exponent p))) in *.
  destruct (Qle_bool (pow2 1024) (inject_Z n * pow2 (ulp_exponent p))) eqn:T;
    [discriminate|].
  apply Num_inj in R. subst x. rewrite Qred_correct in X. split.
  - exists n. rewrite (ulp_exponent_eq p p' Hp E). now symmetry.
  - destruct (Qlt_le_dec p' (pow2 1024)) as [L|L]; [exact L|].
    rewrite <- X in L. apply Qle_bool_iff in L. congruence.
Qed.

(** ** The sign cases of [round64] *)

Lemma round64_pos (q : Q) : 0 < q -> round64 q = round_positive (Qred q).
Proof.
  intros H. unfold round64. cbv zeta.
  assert (P : 0 < Qred q) by now rewrite Qred_correct.
  destruct (Qred q) as [n d]. unfold Qlt in P. simpl in P |- *.
  destruct n; try lia. reflexivity.
Qed.

Lemma round64_neg (q : Q) :
  q < 0 -> round64 q = fneg (round_positive (- Qred q)).
Proof.
  intros H. unfold round64. cbv zeta.
  assert (P : Qred q < 0) by now rewrite Qred_correct.
  destruct (Qred q) as [n d]. unfold Qlt in P. simpl in P |- *.
  destruct n; try lia. reflexivity.
Qed.

Lemma round64_zero (q : Q) : q == 0 -> round64 q = Num 0.
Proof.
  intros H. unfold round64. cbv zeta.
  assert (P : Qred q == 0) by now rewrite Qred_correct.
  destruct (Qred q) as [n d]. unfold Qeq in P. simpl in P |- *.
  destruct n; try lia. reflexivity.
Qed.

Lemma is_double_pos (f : Q) :
  0 < f -> is_double f = true -> on_grid f /\ f < pow2 1024.
Proof.
  intros Hf D. unfold is_double in D. rewrite (round64_pos f Hf) in D.
  destruct (round_positive (Qred f)) as [| |x] eqn:R; try discriminate.
  apply Qeq_bool_iff in D.
  apply (round_positive_fixed (Qred f) f x); try assumption.
  - now rewrite Qred_correct.
  - apply Qred_correct.
Qed.

Lemma is_double_neg (f : Q) :
  f < 0 -> is_double f = true -> on_grid (- f) /\ - f < pow2 1024.
Proof.
  intros Hf D. unfold is_double in D. rewrite (round64_neg f Hf) in D.
  destruct (round_positive (- Qred f)) as [| |x] eqn:R; try discriminate.
  simpl in D. apply Qeq_bool_iff in D.
  apply (round_positive_fixed (- Qred f) (- f) x); try assumption.
  - rewrite Qred_correct. lra.
  - now rewrite Qred_correct.
  - lra.
Qed.

Lemma round_positive_shape (p : Q) :
  0 < p ->
  round_positive p = Inf false
  \/ exists x, round_positive p = Num x /\ 0 <= x.
Proof.
  intros Hp. unfold round_positive. cbv zeta.
  set (u := ulp_exponent p). set (n := round_half_even (p / pow2 u)).
  pose proof (pow2_pos u) as Pu.
  destruct (Qle_bool (pow2 1024) (inject_Z n * pow2 u)); [now left|].
  right. exists (Qred (inject_Z n * pow2 u)). split; [reflexivity|].
  rewrite Qred_correct. apply Qmult_le_0_compat; [|apply Qlt_le_weak; exact Pu].
  change 0 with (inject_Z 0). rewrite <- Zle_Qle.
  apply round_half_even_ge. apply Qle_shift_div_l; [exact Pu|].
  change (inject_Z 0) with 0. lra.
Qed.


(** Rounding does not cross a double. *)
Lemma round64_upper (hi q : Q) :
  is_double hi = true -> q <= hi -> at_most (round64 q) hi.
Proof.
  intros Dhi H.
  destruct (Q_dec q 0) as [[Neg|Pos]|Zero].
  - rewrite (round64_neg q Neg).
    assert (P : 0 < - Qred q) by (rewrite Qred_correct; lra).
    destruct (round_positive_shape (- Qred q) P) as [E|(x & E & X0)].
    + now rewrite E.
    + rewrite E. simpl.
      destruct (Qlt_le_dec hi 0) as [Hi|Hi]; [|lra].
      destruct (is_double_neg hi Hi Dhi) as [G _].
      assert (L : - hi <= x).
      { apply (round_positive_lower (- Qred q) (- hi) x); try assumption;
          try lra. rewrite Qred_correct. lra. }
      lra.
  - rewrite (round64_pos q Pos).
    assert (P : 0 < Qred q) by now rewrite Qred_correct.
    assert (Hi : 0 < hi) by lra.
    destruct (is_double_pos hi Hi Dhi) as [G F].
    destruct (round_positive_upper (Qred q) hi P) as (x & E & X0 & X1);
      try assumption.
    { now rewrite Qred_correct. }
    now rewrite E.
  - rewrite (round64_zero q Zero). simpl. lra.
Qed.

Lemma round64_lower (lo q : Q) :
  is_double lo = true -> lo <= q -> at_least (round64 q) lo.
Proof.
  intros Dlo H.
  destruct (Q_dec q 0) as [[Neg|Pos]|Zero].
  - rewrite (round64_neg q Neg).
    assert (P : 0 < - Qred q) by (rewrite Qred_correct; lra).
    assert (Lo : lo < 0) by lra.
    destruct (is_double_neg lo Lo Dlo) as [G F].
    destruct (round_positive_upper (- Qred q) (- lo) P) as (x & E & X0 & X1);
      try assumption.
    { rewrite Qred_correct. lra. }
    rewrite E. simpl. lra.
  - rewrite (round64_pos q Pos).
    assert (P : 0 < Qred q) by now rewrite Qred_correct.
    destruct (round_positive_shape (Qred q) P) as [E|(x & E & X0)].
    + now rewrite E.
    + rewrite E. simpl.
      destruct (Qlt_le_dec 0 lo) as [Lo|Lo]; [|lra].
      destruct (is_double_pos lo Lo Dlo) as [G _].
      apply (round_positive_lower (Qred q) lo x); try assumption.
      now rewrite Qred_correct.
  - rewrite (round64_zero q Zero). simpl. lra.
Qed.

(** Between two doubles the result is finite and between them. *)
Lemma round64_between (lo hi q : Q) :
  is_double lo = true -> is_double hi = true -> lo <= q <= hi ->
  exists x, round64 q = Num x /\ lo <= x <= hi.
Proof.
  intros Dlo Dhi [H1 H2].
  pose proof (round64_lower lo q Dlo H1) as L.
  pose proof (round64_upper hi q Dhi H2) as U.
  destruct (round64 q) as [|[|]|x]; simpl in L, U; try contradiction.
  now exists x.
Qed.

(** A double is what it rounds to. *)
Lemma is_double_round64 (q : Q) :
  is_double q = true -> round64 q = Num (Qred q).
Proof.
  intros D. unfold is_double in D.
  destruct (round64 q) as [| |x] eqn:R; try discriminate.
  apply Qeq_bool_iff in D. f_equal.
  assert (C : Qred x = x).
  { revert R. unfold round64. cbv zeta.
    destruct (Qnum (Qred q)).
    - now intros [= <-].
    - unfold round_positive. cbv zeta.
      destruct (Qle_bool _ _); [discriminate|]. intros E.
      apply Num_inj in E. subst x.
      apply Qred_complete, Qred_correct.
    - unfold round_positive. cbv zeta.
      destruct (Qle_bool _ _); [discriminate|]. cbn [fneg]. intros E.
      apply Num_inj in E. subst x.
      rewrite Qred_opp. f_equal. apply Qred_complete, Qred_correct. }
  rewrite <- C. now apply Qred_complete.
Qed.

(** The doubles below 1 end at 1 - 2^-53. *)
Lemma is_double_below_1 (r : Q) :
  is_double r = true -> r < 1 -> r <= 1 - (1 # 2 ^ 53).
Proof.
  intros D H.
  destruct (Qlt_le_dec r (1 # 2)) as [L|L].
  - apply Qlt_le_weak. apply Qlt_le_trans with (1 # 2); [exact L|].
    vm_compute. discriminate.
  - assert (P : 0 < r) by lra.
    destruct (is_double_pos r P D) as [[m G] _].
    assert (B : binade r = (-1)%Z).
    { apply binade_unique; [exact L | exact H]. }
    unfold ulp_exponent in G. rewrite B in G.
    change (pow2 (Z.max (-1 - 52) (-1074))) with (1 # 2 ^ 53) in G.
    assert (M : (m < 2 ^ 53)%Z).
    { rewrite G in H. unfold Qlt in H. simpl in H. lia. }
    rewrite G. unfold Qle, Qminus, Qplus, Qopp. simpl. lia.
Qed.

Lemma round64_eq (q q' : Q) : q == q' -> round64 q = round64 q'.
Proof. intros E. unfold round64. now rewrite (Qred_complete q q' E). Qed.

(** ** The arithmetic of [fetchGold] *)

(** The variance of a draw: rounding keeps it in [-1, 1). *)
Lemma gold_variance (r : Q) :
  is_double r = true -> 0 <= r -> r < 1 ->
  exists v, fmul (fsub (Num r) (Num (1 # 2))) (Num 2) = Num v
            /\ -1 <= v /\ v <= 1 - (1 # 2 ^ 52).
Proof.
  intros Dr R0 R1.
  pose proof (is_double_below_1 r Dr R1) as Rm.
  destruct (round64_between (- (1 # 2)) ((1 # 2) - (1 # 2 ^ 53)) (r + - (1 # 2)))
    as (v1 & E1 & L1 & U1); try reflexivity.
  { split; lra. }
  destruct (round64_between (-1) (1 - (1 # 2 ^ 52)) (v1 * 2))
    as (v & E & L & U); try reflexivity.
  { assert (T : (1 # 2) - (1 # 2 ^ 53) == (1 - (1 # 2 ^ 52)) * (1 # 2))
      by reflexivity.
    split; lra. }
  exists v. unfold fsub, fadd, fmul, fneg. rewrite E1, E. auto.
Qed.

(** The quote of a base [b] and a baseline change [c] that are doubles,
    between doubles that enclose what the perturbation can reach. *)
Lemma gold_quote (b c clo chi r : Q) :
  is_double (b - 1) = true -> is_double b = true -> is_double (b + 1) = true ->
  is_double c = true -> is_double clo = true -> is_double chi = true ->
  clo <= c - tenth -> c + tenth <= chi ->
  is_double r = true -> 0 <= r -> r < 1 ->
  exists p x v,
    fmul (fsub (Num r) (Num (1 # 2))) (Num 2) = Num v
    /\ -1 <= v /\ v < 1
    /\ fadd (Num b) (Num v) = Num p
    /\ fadd (Num c) (fmul (Num v) (Num tenth)) = Num x
    /\ b - 1 <= p <= b + 1
    /\ clo <= x <= chi
    /\ (0 <= v -> b <= p /\ c <= x)
    /\ (v <= 0 -> p <= b /\ x <= c).
Proof.
  intros Db1 Db Db2 Dc Dlo Dhi Hlo Hhi Dr R0 R1.
  destruct (gold_variance r Dr R0 R1) as (v & Ev & V0 & V1).
  assert (V1' : v < 1).
  { apply Qle_lt_trans with (1 - (1 # 2 ^ 52)); [exact V1 | reflexivity]. }
  assert (T0 : 0 < tenth) by reflexivity.
  remember tenth as T eqn:HT.
  assert (DT : is_double T = true) by (subst T; reflexivity).
  assert (DT' : is_double (- T) = true) by (subst T; reflexivity).
  assert (D0 : is_double 0 = true) by reflexivity.
  destruct (round64_between (b - 1) (b + 1) (b + v) Db1 Db2)
    as (p & Ep & P0 & P1); [split; lra|].
  assert (Tv : - T <= v * T <= T).
  { assert (v * T <= 1 * T) by (apply Qmult_le_compat_r; lra).
    assert (-1 * T <= v * T) by (apply Qmult_le_compat_r; lra).
    split; lra. }
  destruct (round64_between (- T) T (v * T) DT' DT Tv)
    as (t & Et & T1 & T2).
  destruct (round64_between clo chi (c + t) Dlo Dhi)
    as (x & Ex & X0 & X1); [split; lra|].
  exists p, x, v. split; [exact Ev|]. split; [exact V0|]. split; [exact V1'|].
  split; [exact Ep|].
  assert (Ex' : fadd (Num c) (fmul (Num v) (Num T)) = Num x).
  { unfold fmul. rewrite Et. exact Ex. }
  split; [exact Ex'|]. split; [now split|]. split; [now split|].
  split.
  - intros Hv.
    pose proof (round64_lower b (b + v) Db) as L1. rewrite Ep in L1.
    assert (0 <= v * T) by (apply Qmult_le_0_compat; lra).
    pose proof (round64_lower 0 (v * T) D0) as L2. rewrite Et in L2.
    pose proof (round64_lower c (c + t) Dc) as L3. rewrite Ex in L3.
    simpl in L1, L2, L3. split; [apply L1; lra|].
    apply L3. specialize (L2 H). lra.
  - intros Hv.
    pose proof (round64_upper b (b + v) Db) as L1. rewrite Ep in L1.
    assert (v * T <= 0 * T) by (apply Qmult_le_compat_r; lra).
    pose proof (round64_upper 0 (v * T) D0) as L2. rewrite Et in L2.
    pose proof (round64_upper c (c + t) Dc) as L3. rewrite Ex in L3.
    simpl in L1, L2, L3. split; [apply L1; lra|].
    apply L3. assert (t <= 0) by (apply L2; lra). lra.
Qed.

(** Numerals beyond the doubles, and below them. *)
Example parseFloat_overflow : parseFloat (lit "1e400") = Inf false.
Proof. vm_compute. reflexivity. Qed.

Example parseFloat_underflow :
  parseFloat (lit "-1e-400") = Num 0 /\ geq0 (parseFloat (lit "-1e-400")) = true.
Proof. split; vm_compute; reflexivity. Qed.

Example parseFloat_nearest :
  parseFloat (lit "0.1") = Num (3602879701896397 # 2 ^ 55)
  /\ parseFloat (lit "0.1") = Num tenth.
Proof. split; vm_compute; reflexivity. Qed.

(** ** Strings and objects *)

Lemma str_eqb_refl (a : jsstring) : str_eqb a a = true.
Proof.
  induction a as [|x a IH]; simpl; [reflexivity|].
  now rewrite N.eqb_refl, IH.
Qed.

Lemma str_eqb_eq (a b : jsstring) : str_eqb a b = true <-> a = b.
Proof.
  split.
  - revert b; induction a as [|x a IH]; intros [|y b] H; simpl in H;
      try discriminate; [reflexivity|].
    apply andb_true_iff in H as [Hx Hr].
    apply N.eqb_eq in Hx. now rewrite Hx, (IH b Hr).
  - intros ->. apply str_eqb_refl.
Qed.

Lemma str_eqb_neq (a b : jsstring) : str_eqb a b = false <-> a <> b.
Proof.
  split.
  - intros H E. apply str_eqb_eq in E. congruence.
  - intros H. destruct (str_eqb a b) eqn:E; [|reflexivity].
    apply str_eqb_eq in E. contradiction.
Qed.

Section AdapterFacts.

Variable W : Type.
Variable math_random : W -> Q * W.
Variable axios_get : request -> W -> http * W.

(** A fetch of the regional-exchange adapter returns, sends exactly one
    request, and a quote it returns has numbers (or NaN) in both fields. *)
Lemma fetchChinaStock_run (sym : jsstring) (w : W) :
  exists o t,
    fetchChinaStock axios_get sym w
    = (Ret o, snd (axios_get (china_request sym) w),
       EvGet (china_request sym) :: t)
    /\ forallb (fun e => negb (is_get e)) t = true
    /\ (forall q, o = Some q ->
        exists a b, price q = VNum a /\ change q = VNum b).
Proof.
  unfold fetchChinaStock, try_catch, bind, get.
  destruct (axios_get (china_request sym) w) as [[|d] w']; simpl.
  - exists None, []. repeat split; discriminate.
  - destruct d as [| |b|n|body|items|fs]; simpl;
      try (exists None, []; repeat split; discriminate).
    + destruct (includes body (lit "null") || (List.length body <? 32)%nat);
        simpl.
      * exists None, []. repeat split; discriminate.
      * destruct (match_quoted body) as [inner|]; simpl.
        -- eexists _, _. split; [reflexivity|]. split; [reflexivity|].
           intros q [= <-]. simpl. eauto.
        -- eexists _, _. split; [reflexivity|]. split; [reflexivity|].
           discriminate.
    + destruct (existsb is_null_string items || (List.length items <? 32)%nat);
        simpl; exists None, []; repeat split; discriminate.
Qed.

(** A fetch of the cryptocurrency adapter returns, and its whole trace is
    the one request it sends, whatever the symbol. *)
Lemma fetchCrypto_run (sym : jsstring) (w : W) :
  exists o,
    fetchCrypto axios_get sym w
    = (Ret o, snd (axios_get (crypto_request sym) w),
       [EvGet (crypto_request sym)])
    /\ (forall q, o = Some q ->
        exists data, truthy data = true
                     /\ price q = field data (lit "cny")
                     /\ change q = field data (lit "cny_24h_change")).
Proof.
  unfold fetchCrypto, try_catch, bind, get.
  destruct (axios_get (crypto_request sym) w) as [[|d] w']; simpl.
  - exists None. split; [reflexivity | discriminate].
  - destruct d as [| |b|n|body|items|fs]; simpl;
      try (exists None; split; [reflexivity | discriminate]).
    + destruct (assoc (coin_key sym) fs) as [data|]; simpl;
        [|exists None; split; [reflexivity | discriminate]].
      destruct (truthy data) eqn:T; simpl.
      * eexists. split; [reflexivity|]. intros q [= <-]. exists data. auto.
      * exists None. split; [reflexivity | discriminate].
Qed.

(** The three ways of [fetchGold]. *)
Lemma fetchGold_own (sym : jsstring) (d : Mock.metal) (w : W) :
  assoc sym mockData = Some d ->
  fetchGold math_random sym w
  = (let v := fmul (fsub (Num (fst (math_random w))) (Num (1 # 2))) (Num 2) in
     Ret (Some {| price := VNum (fadd (Num (Mock.base d)) v);
                  change := VNum (fadd (Num (Mock.change d))
                                       (fmul v (Num tenth))) |}),
     snd (math_random w), [EvRandom]).
Proof.
  intros H. unfold fetchGold, lookup, try_catch, bind, random. rewrite H.
  destruct (math_random w) as [r w']. reflexivity.
Qed.

Lemma fetchGold_inherited (sym : jsstring) (m : builtin) (w : W) :
  assoc sym mockData = None -> object_prototype sym = Some m ->
  fetchGold math_random sym w
  = (Ret (Some {| price := VNum NaN; change := VNum NaN |}),
     snd (math_random w), [EvRandom]).
Proof.
  intros H1 H2. unfold fetchGold, lookup, try_catch, bind, random.
  rewrite H1, H2. destruct (math_random w) as [r w']. reflexivity.
Qed.

Lemma fetchGold_missing (sym : jsstring) (w : W) :
  assoc sym mockData = None -> object_prototype sym = None ->
  fetchGold math_random sym w = (Ret None, w, []).
Proof.
  intros H1 H2. unfold fetchGold, lookup, try_catch. now rewrite H1, H2.
Qed.

(** A fetch of the metals adapter returns, sends nothing, and a quote it
    returns has numbers (or NaN) in both fields. *)
Lemma fetchGold_run (sym : jsstring) (w : W) :
  exists o w' t,
    fetchGold math_random sym w = (Ret o, w', t)
    /\ forallb (fun e => negb (is_get e)) t = true
    /\ (forall q, o = Some q ->
        exists a b, price q = VNum a /\ change q = VNum b).
Proof.
  destruct (assoc sym mockData) as [d|] eqn:H1.
  - rewrite (fetchGold_own sym d w H1). eexists _, _, _.
    split; [reflexivity|]. split; [reflexivity|].
    intros q [= <-]. simpl. eauto.
  - destruct (object_prototype sym) as [m|] eqn:H2.
    + rewrite (fetchGold_inherited sym m w H1 H2). eexists _, _, _.
      split; [reflexivity|]. split; [reflexivity|].
      intros q [= <-]. simpl. eauto.
    + rewrite (fetchGold_missing sym w H1 H2). eexists _, _, _.
      split; [reflexivity|]. split; [reflexivity|]. discriminate.
Qed.

End AdapterFacts.

(** ** The cryptocurrency adapter *)

(** The keys [fetchCrypto] reads in a response name no member of
    [Object.prototype]. *)
Lemma coin_key_not_builtin (sym : jsstring) :
  object_prototype (coin_key sym) = None.
Proof.
  unfold coin_key, lookup.
  destruct (assoc sym idMap) as [id|] eqn:H.
  - unfold idMap in H. simpl in H.
    repeat match type of H with
           | (if ?c then _ else _) = _ => destruct c
           end; inversion H; reflexivity.
  - destruct (object_prototype sym) as [[n|]|]; reflexivity.
Qed.

(** C2, at the symbol dogecoin, which the table does not have: the adapter
    sends the request all the same, asking the upstream for the id
    [undefined], whatever the transport answers. *)
Theorem C2_unknown_symbol_is_requested :
  assoc (lit "dogecoin") idMap = None
  /\ forall (W : Type) (axios_get : request -> W -> http * W) (w : W),
       trace_of (fetchCrypto axios_get (lit "dogecoin") w)
       = [EvGet {| url := lit "https://api.coingecko.com/api/v3/simple/price"
                          ++ lit "?ids=undefined"
                          ++ lit "&vs_currencies=cny&include_24hr_change=true";
                   referer := None |}]
       /\ gets (trace_of (fetchCrypto axios_get (lit "dogecoin") w)) = 1%nat.
Proof.
  split; [reflexivity|]. intros W axios_get w.
  destruct (fetchCrypto_run W axios_get (lit "dogecoin") w) as (o & E & _).
  rewrite E. split; reflexivity.
Qed.

(** The same request can even be answered with a quote. *)
Example fetchCrypto_unknown_symbol_quote :
  let routes :=
    [(url (crypto_request (lit "dogecoin")),
      VObj [(lit "undefined",
             VObj [(lit "cny", VNum (Num 1));
                   (lit "cny_24h_change", VNum (Num 2))])])] in
  let w : Stub.world := [] in
  outcome_of (fetchCrypto (Stub.axios_get routes) (lit "dogecoin") w)
  = Ret (Some {| price := VNum (Num 1); change := VNum (Num 2) |}).
Proof. reflexivity. Qed.

(** ** The regional-exchange adapter *)

(** C5: a body that contains [null], or is shorter than 32 code units, gives
    no quote, and neither the pattern match nor the split is run: the trace
    is the request alone. *)
Theorem C5_guard_skips_parser
    (W : Type) (axios_get : request -> W -> http * W)
    (sym body : jsstring) (w : W) :
  fst (axios_get (china_request sym) w) = Response (VStr body) ->
  includes body (lit "null") = true \/ (List.length body < 32)%nat ->
  outcome_of (fetchChinaStock axios_get sym w) = Ret None
  /\ trace_of (fetchChinaStock axios_get sym w) = [EvGet (china_request sym)]
  /\ existsb is_parse (trace_of (fetchChinaStock axios_get sym w)) = false.
Proof.
  intros Hr Hg.
  assert (G : includes body (lit "null") || (List.length body <? 32)%nat = true).
  { destruct Hg as [Hg|Hg]; [now rewrite Hg|].
    apply Nat.ltb_lt in Hg. rewrite Hg. apply orb_true_r. }
  unfold fetchChinaStock, try_catch, bind, get, outcome_of, trace_of.
  destruct (axios_get (china_request sym) w) as [h w']. simpl in Hr. subst h.
  rewrite G. simpl. auto.
Qed.

(** The answer of the exchange to a symbol it does not know. *)
Lemma C5_guard_skips_parser_witness :
  let routes :=
    [(url (china_request (lit "sh000000")),
      VStr (lit "var hq_str_sh000000=" ++ quoted [] ++ lit ";"))] in
  let w : Stub.world := [] in
  outcome_of (fetchChinaStock (Stub.axios_get routes) (lit "sh000000") w)
  = Ret None
  /\ trace_of (fetchChinaStock (Stub.axios_get routes) (lit "sh000000") w)
     = [EvGet (china_request (lit "sh000000"))]
  /\ existsb is_parse
       (trace_of (fetchChinaStock (Stub.axios_get routes) (lit "sh000000") w))
     = false.
Proof.
  intros routes w.
  apply (C5_guard_skips_parser _ (Stub.axios_get routes) (lit "sh000000")
           (lit "var hq_str_sh000000=" ++ quoted [] ++ lit ";") w).
  - reflexivity.
  - right. vm_compute. lia.
Defined.

(** *** The pattern and the split on well-formed text *)

Lemma span_unquoted_run (inner rest : jsstring) :
  ~ In dquote inner ->
  span_unquoted (inner ++ dquote :: rest) = (inner, dquote :: rest).
Proof.
  induction inner as [|c inner IH]; intros H; simpl.
  - reflexivity.
  - destruct (c =? dquote)%N eqn:E.
    + apply N.eqb_eq in E. exfalso. apply H. now left.
    + rewrite IH; [reflexivity|]. intros I. apply H. now right.
Qed.

Lemma match_quoted_first (pre inner tail : jsstring) :
  ~ In dquote pre -> ~ In dquote inner -> inner <> [] ->
  match_quoted (pre ++ quoted inner ++ tail) = Some inner.
Proof.
  intros Hp Hi Hn. induction pre as [|c pre IH]; simpl.
  - unfold quoted. simpl. rewrite <- app_assoc. simpl.
    rewrite span_unquoted_run by assumption.
    destruct inner; [contradiction | reflexivity].
  - destruct (c =? dquote)%N eqn:E.
    + apply N.eqb_eq in E. exfalso. apply Hp. now left.
    + apply IH. intros I. apply Hp. now right.
Qed.

Lemma split_field (a b : jsstring) :
  ~ In comma a -> split comma (a ++ comma :: b) = a :: split comma b.
Proof.
  induction a as [|c a IH]; intros H; simpl.
  - reflexivity.
  - destruct (c =? comma)%N eqn:E.
    + apply N.eqb_eq in E. exfalso. apply H. now left.
    + rewrite IH; [reflexivity|]. intros I. apply H. now right.
Qed.

Lemma split_last (a : jsstring) : ~ In comma a -> split comma a = [a].
Proof.
  induction a as [|c a IH]; intros H; simpl.
  - reflexivity.
  - destruct (c =? comma)%N eqn:E.
    + apply N.eqb_eq in E. exfalso. apply H. now left.
    + rewrite IH; [reflexivity|]. intros I. apply H. now right.
Qed.

(** The fields of a list with a name, a price, a change and any further
    fields. *)
Lemma split_quote_fields (nm p c rest : jsstring) :
  ~ In comma nm -> ~ In comma p -> ~ In comma c ->
  rest = [] \/ (exists more, rest = comma :: more) ->
  exists others,
    split comma (nm ++ comma :: p ++ comma :: c ++ rest) = nm :: p :: c :: others.
Proof.
  intros Hn Hp Hc Hr.
  rewrite (split_field nm _ Hn), (split_field p _ Hp).
  destruct Hr as [-> | [more ->]].
  - rewrite app_nil_r, (split_last c Hc). now exists [].
  - rewrite (split_field c _ Hc). now eexists.
Qed.

(** *** Decimal numerals *)

Lemma qred_eq (q : Q) : Qred q == q.
Proof. apply Qred_correct. Qed.

Lemma is_digit_char (d : N) : (d < 10)%N -> is_digit (d + 48) = true.
Proof.
  intros H. unfold is_digit. apply andb_true_iff.
  split; apply N.leb_le; lia.
Qed.

Lemma is_digit_range (c : N) : is_digit c = true -> (48 <= c <= 57)%N.
Proof.
  unfold is_digit. intros H. apply andb_true_iff in H as [H1 H2].
  apply N.leb_le in H1, H2. lia.
Qed.

Lemma digit_not_space (c : N) : is_digit c = true -> is_space c = false.
Proof.
  intros H. apply is_digit_range in H. unfold is_space.
  apply orb_false_iff. split.
  - simpl. repeat (apply orb_false_iff; split); try reflexivity;
      apply N.eqb_neq; lia.
  - apply andb_false_iff. left. apply N.leb_gt. lia.
Qed.

Lemma sign_of_other (c : N) (r : jsstring) :
  c <> 43%N -> c <> 45%N -> sign_of (c :: r) = (false, c :: r).
Proof.
  intros H1 H2. unfold sign_of.
  destruct c as [|p]; [reflexivity|].
  do 6 (destruct p as [p|p|]; try reflexivity); congruence.
Qed.

Lemma span_digits_chars (ds : list N) (rest : jsstring) :
  Forall (fun x => (x < 10)%N) ds ->
  match rest with [] => True | c :: _ => is_digit c = false end ->
  span_digits (digit_chars ds ++ rest) = (ds, rest).
Proof.
  intros H Hr. induction H as [|d ds Hd _ IH]; simpl.
  - destruct rest as [|c r]; [reflexivity|]. simpl. now rewrite Hr.
  - rewrite (is_digit_char d Hd), IH. f_equal. f_equal. lia.
Qed.

Lemma digits_value_from (ds : list N) (acc : N) :
  fold_left (fun a d => (10 * a + d)%N) ds acc
  = (acc * 10 ^ N.of_nat (List.length ds) + digits_value ds)%N.
Proof.
  unfold digits_value. revert acc.
  induction ds as [|d ds IH]; intros acc.
  - simpl. lia.
  - cbn [fold_left List.length]. rewrite IH, (IH (10 * 0 + d)%N).
    rewrite Nat2N.inj_succ, N.pow_succ_r'. lia.
Qed.

Lemma digits_value_app (a b : list N) :
  digits_value (a ++ b)
  = (digits_value a * 10 ^ N.of_nat (List.length b) + digits_value b)%N.
Proof.
  unfold digits_value at 1. rewrite fold_left_app.
  apply digits_value_from.
Qed.

Lemma scale10_whole (neg : bool) (m : N) :
  scale10 neg m 0
  == (if neg then - inject_Z (Z.of_N m) else inject_Z (Z.of_N m)).
Proof.
  unfold scale10. simpl. destruct neg.
  - rewrite Z.mul_1_r. unfold inject_Z, Qopp. reflexivity.
  - now rewrite Z.mul_1_r.
Qed.

Lemma scale10_fraction (neg : bool) (a b : N) (n : nat) :
  scale10 neg (a * 10 ^ N.of_nat (S n) + b) (0 - Z.of_nat (S n))
  == (let x := inject_Z (Z.of_N a)
               + inject_Z (Z.of_N b) / inject_Z (10 ^ Z.of_nat (S n)) in
      if neg then - x else x).
Proof.
  assert (P : (0 - Z.of_nat (S n))%Z = Zneg (Pos.of_succ_nat n)).
  { reflexivity. }
  rewrite P. unfold scale10. rewrite qred_eq.
  assert (T : Z.pos (10 ^ Pos.of_succ_nat n) = (10 ^ Z.of_nat (S n))%Z).
  { now rewrite Pos2Z.inj_pow. }
  assert (Tn : inject_Z (10 ^ Z.of_nat (S n)) > 0).
  { rewrite <- T. reflexivity. }
  assert (E : Z.of_N (a * 10 ^ N.of_nat (S n) + b)
              = (Z.of_N a * 10 ^ Z.of_nat (S n) + Z.of_N b)%Z).
  { rewrite N2Z.inj_add, N2Z.inj_mul, N2Z.inj_pow. now rewrite nat_N_Z. }
  cbv zeta. rewrite Qmake_Qdiv, T.
  destruct neg.
  - rewrite E, inject_Z_opp, inject_Z_plus, inject_Z_mult. field. lra.
  - rewrite E, inject_Z_plus, inject_Z_mult. field. lra.
Qed.

(** [parseFloat] of a numeral is the double nearest to the number it
    denotes. *)
Lemma parseFloat_print (d : decimal) :
  well_formed d -> parseFloat (print d) = round64 (decimal_value d).
Proof.
  intros (Hne & Hw & Hf).
  destruct d as [neg wh fr]. simpl in *.
  destruct wh as [|d0 wh]; [contradiction|].
  assert (D0 : is_digit (d0 + 48) = true).
  { apply is_digit_char. now inversion Hw. }
  pose proof (is_digit_range _ D0) as R0.
  set (tl := match fr with [] => [] | _ => 46%N :: digit_chars fr end).
  set (body := digit_chars (d0 :: wh) ++ tl).
  assert (S0 : sign_of (trim_start (print {| negative := neg;
                                             whole := d0 :: wh;
                                             fraction := fr |}))
               = (neg, body)).
  { unfold print. cbn [negative whole fraction]. fold tl.
    destruct neg.
    - reflexivity.
    - unfold body. cbn [app digit_chars map trim_start].
      rewrite (digit_not_space _ D0). apply sign_of_other; lia. }
  assert (I0 : starts_with (lit "Infinity") body = false).
  { unfold body. cbn [app digit_chars map].
    change (lit "Infinity") with (73%N :: lit "nfinity"). cbn [starts_with].
    apply andb_false_iff. left. apply N.eqb_neq. lia. }
  assert (Sp : span_digits body = (d0 :: wh, tl)).
  { apply span_digits_chars; [exact Hw|]. unfold tl.
    destruct fr; [exact I | reflexivity]. }
  unfold parseFloat. rewrite S0, I0, Sp. unfold tl, decimal_value.
  cbn [negative whole fraction].
  destruct fr as [|f fr].
  - cbn [app List.length exponent_of Z.of_nat Z.sub Z.opp Z.add].
    rewrite app_nil_r.
    apply round64_eq.
    rewrite scale10_whole. simpl digits_value at 2.
    change (digits_value []) with 0%N. simpl (Z.of_N 0).
    destruct neg; unfold Qdiv; simpl (inject_Z 0); ring.
  - rewrite <- (app_nil_r (digit_chars (f :: fr))).
    rewrite (span_digits_chars (f :: fr) [] Hf I).
    cbn [app exponent_of].
    apply round64_eq.
    change (d0 :: wh ++ f :: fr) with ((d0 :: wh) ++ f :: fr).
    rewrite digits_value_app.
    apply (scale10_fraction neg (digits_value (d0 :: wh))
             (digits_value (f :: fr)) (List.length fr)).
Qed.

Lemma print_chars (d : decimal) (c : N) :
  well_formed d -> In c (print d) -> c = 45%N \/ c = 46%N \/ is_digit c = true.
Proof.
  intros (_ & Hw & Hf) I.
  assert (D : forall ds, Forall (fun x => (x < 10)%N) ds ->
                         In c (digit_chars ds) -> is_digit c = true).
  { intros ds H J. unfold digit_chars in J. apply in_map_iff in J as (x & <- & J).
    apply is_digit_char. rewrite Forall_forall in H. now apply H. }
  unfold print in I. apply in_app_or in I as [I|I].
  - destruct (negative d); simpl in I; intuition.
  - apply in_app_or in I as [I|I]; [right; right; now apply (D (whole d))|].
    destruct (fraction d) as [|f fr] eqn:E; [contradiction|].
    destruct I as [<-|I]; [auto|]. right; right. now apply (D (f :: fr)).
Qed.

Lemma print_no (d : decimal) (c : N) :
  well_formed d -> c = comma \/ c = dquote -> ~ In c (print d).
Proof.
  intros H Hc I. destruct (print_chars d c H I) as [E|[E|E]].
  - destruct Hc; subst; discriminate.
  - destruct Hc; subst; discriminate.
  - destruct Hc; subst; discriminate.
Qed.

(** A quoted list with a name, two fields and any further fields, in a body
    that passes the guard, gives the quote of [parseFloat] of the two
    fields, whatever their text. *)
Lemma fetchChinaStock_positional
    (W : Type) (axios_get : request -> W -> http * W)
    (sym : jsstring) (w : W)
    (rsym nm p c rest tail : jsstring) :
  let inner := nm ++ comma :: p ++ comma :: c ++ rest in
  let body := (rsym ++ lit "=") ++ quoted inner ++ tail in
  fst (axios_get (china_request sym) w) = Response (VStr body) ->
  ~ In dquote rsym -> ~ In dquote inner ->
  ~ In comma nm -> ~ In comma p -> ~ In comma c ->
  rest = [] \/ (exists more, rest = comma :: more) ->
  includes body (lit "null") = false -> (32 <= List.length body)%nat ->
  fetchChinaStock axios_get sym w
  = (Ret (Some {| price := VNum (parseFloat p);
                  change := VNum (parseFloat c) |}),
     snd (axios_get (china_request sym) w),
     [EvGet (china_request sym); EvMatch; EvSplit]).
Proof.
  intros inner body Hr Hq Hi Hn Hp Hc Hrest Hnull Hlen.
  assert (Hm : match_quoted body = Some inner).
  { apply match_quoted_first; [|assumption|].
    - intros I. apply in_app_or in I as [I|I]; [now apply Hq|].
      simpl in I. destruct I as [I|[]]. discriminate I.
    - subst inner. destruct nm; discriminate. }
  destruct (split_quote_fields nm p c rest Hn Hp Hc Hrest) as [others Hs].
  unfold fetchChinaStock, try_catch, bind, get.
  destruct (axios_get (china_request sym) w) as [h w']. simpl in Hr. subst h.
  rewrite Hnull. apply Nat.ltb_ge in Hlen. rewrite Hlen. simpl.
  rewrite Hm. simpl. unfold inner. rewrite Hs. reflexivity.
Qed.

(** C3, as amended: a response [symbol="Name,price,change,..."], where the
    price and the change are decimal numerals, that passes the guard (no
    [null] in it, at least 32 code units) gives a quote whose price is the
    double nearest to the number in field 1 and whose change is the double
    nearest to the number in field 2 (an infinity beyond the doubles),
    whatever the other fields are; the pattern and the split run once
    each. *)
Theorem C3_positional_fields
    (W : Type) (axios_get : request -> W -> http * W)
    (sym : jsstring) (w : W)
    (rsym nm rest tail : jsstring) (dp dc : decimal) :
  let inner := nm ++ comma :: print dp ++ comma :: print dc ++ rest in
  let body := (rsym ++ lit "=") ++ quoted inner ++ tail in
  fst (axios_get (china_request sym) w) = Response (VStr body) ->
  well_formed dp -> well_formed dc ->
  ~ In dquote rsym -> ~ In dquote nm -> ~ In comma nm -> ~ In dquote rest ->
  rest = [] \/ (exists more, rest = comma :: more) ->
  includes body (lit "null") = false -> (32 <= List.length body)%nat ->
  fetchChinaStock axios_get sym w
  = (Ret (Some {| price := VNum (round64 (decimal_value dp));
                  change := VNum (round64 (decimal_value dc)) |}),
     snd (axios_get (china_request sym) w),
     [EvGet (china_request sym); EvMatch; EvSplit]).
Proof.
  intros inner body Hr Wp Wc Hq Hn Hn' Hrq Hrest Hnull Hlen.
  rewrite <- (parseFloat_print dp Wp), <- (parseFloat_print dc Wc).
  apply (fetchChinaStock_positional W axios_get sym w rsym nm
           (print dp) (print dc) rest tail); try assumption.
  - unfold inner. intros I.
    apply in_app_or in I as [I|[I|I]]; [now apply Hn | discriminate I |].
    apply in_app_or in I as [I|[I|I]];
      [now apply (print_no dp dquote Wp); auto | discriminate I |].
    apply in_app_or in I as [I|I];
      [now apply (print_no dc dquote Wc); auto | now apply Hrq].
  - apply (print_no dp comma Wp). now left.
  - apply (print_no dc comma Wc). now left.
Qed.

(** The response of the specification's example, and its quote. *)
Lemma C3_positional_fields_witness :
  let dp := {| negative := false; whole := [1; 8; 3; 0]%N; fraction := [0; 0]%N |} in
  let dc := {| negative := false; whole := [1; 8; 3; 5]%N; fraction := [0; 0]%N |} in
  let body := lit "sh600519="
              ++ quoted (moutai ++ lit ",1830.00,1835.00,1820.00") in
  let routes := [(url (china_request (lit "sh600519")), VStr body)] in
  let w : Stub.world := [] in
  fetchChinaStock (Stub.axios_get routes) (lit "sh600519") w
  = (Ret (Some {| price := VNum (round64 (decimal_value dp));
                  change := VNum (round64 (decimal_value dc)) |}),
     w, [EvGet (china_request (lit "sh600519")); EvMatch; EvSplit]).
Proof.
  intros dp dc body routes w.
  apply (C3_positional_fields Stub.world (Stub.axios_get routes)
           (lit "sh600519") w
           (lit "sh600519") moutai (lit ",1820.00") [] dp dc).
  - reflexivity.
  - repeat split; try discriminate; repeat constructor.
  - repeat split; try discriminate; repeat constructor.
  - vm_compute. intuition discriminate.
  - vm_compute. intuition discriminate.
  - vm_compute. intuition discriminate.
  - vm_compute. intuition discriminate.
  - right. now exists (lit "1820.00").
  - reflexivity.
  - vm_compute. lia.
Defined.

(** The same response evaluated: the price is 1830 and the change 1835. *)
Example fetchChinaStock_moutai :
  let body := lit "sh600519="
              ++ quoted (moutai ++ lit ",1830.00,1835.00,1820.00") in
  let routes := [(url (china_request (lit "sh600519")), VStr body)] in
  List.length body = 39%nat
  /\ outcome_of (fetchChinaStock (Stub.axios_get routes) (lit "sh600519") [])
     = Ret (Some {| price := VNum (Num 1830); change := VNum (Num 1835) |}).
Proof. split; vm_compute; reflexivity. Qed.

(** A numeral of 401 digits is a well-formed price: the quote has an
    infinite price. *)
Example fetchChinaStock_huge_price :
  let digits := 1%N :: repeat 0%N 400 in
  let dp := {| negative := false; whole := digits; fraction := [] |} in
  let body := lit "sh600519=" ++ quoted (lit "X," ++ print dp ++ lit ",1") in
  let routes := [(url (china_request (lit "sh600519")), VStr body)] in
  round64 (decimal_value dp) = Inf false
  /\ outcome_of (fetchChinaStock (Stub.axios_get routes) (lit "sh600519") [])
     = Ret (Some {| price := VNum (Inf false); change := VNum (Num 1) |}).
Proof. split; vm_compute; reflexivity. Qed.

(** C3, as stated, fails on a short response of the same form: the guard
    returns before any parsing. *)
Lemma C3_counterexample :
  let body := lit "sh600519=" ++ quoted (lit "X,18.30,18.35,18.20") in
  let routes := [(url (china_request (lit "sh600519")), VStr body)] in
  let w : Stub.world := [] in
  List.length body = 30%nat
  /\ includes body (lit "null") = false
  /\ match_quoted body = Some (lit "X,18.30,18.35,18.20")
  /\ fetchChinaStock (Stub.axios_get routes) (lit "sh600519") w
     = (Ret None, w, [EvGet (china_request (lit "sh600519"))]).
Proof. repeat split; reflexivity. Qed.

Lemma parseFloat_at_missing (parts : list jsstring) (i : nat) :
  nth_error parts i = None -> parseFloat_at parts i = NaN.
Proof. intros H. unfold parseFloat_at. now rewrite H. Qed.

(** The fetch never throws. It gives no quote when the GET is rejected,
    when the body is not a string, when the guard trips, and when no
    double-quoted run is found in the body. Once a run is found (and the
    guard passed) it always gives a quote, of [parseFloat] of the fields 1
    and 2 of the run: a field that is missing is [NaN] there. *)
Lemma fetchChinaStock_outcomes
    (W : Type) (axios_get : request -> W -> http * W)
    (sym : jsstring) (w : W) :
  exists o t,
    fetchChinaStock axios_get sym w
    = (Ret o, snd (axios_get (china_request sym) w),
       EvGet (china_request sym) :: t)
    /\ (fst (axios_get (china_request sym) w) = Rejected -> o = None)
    /\ (forall d, fst (axios_get (china_request sym) w) = Response d ->
        (forall body, d <> VStr body) -> o = None)
    /\ (forall body,
        fst (axios_get (china_request sym) w) = Response (VStr body) ->
        includes body (lit "null") = true \/ (List.length body < 32)%nat ->
        o = None)
    /\ (forall body,
        fst (axios_get (china_request sym) w) = Response (VStr body) ->
        match_quoted body = None -> o = None)
    /\ (forall body inner,
        fst (axios_get (china_request sym) w) = Response (VStr body) ->
        includes body (lit "null") = false -> (32 <= List.length body)%nat ->
        match_quoted body = Some inner ->
        o = Some {| price := VNum (parseFloat_at (split comma inner) 1);
                    change := VNum (parseFloat_at (split comma inner) 2) |}
        /\ (nth_error (split comma inner) 1 = None -> price_is_nan o)
        /\ (nth_error (split comma inner) 2 = None -> change_is_nan o)).
Proof.
  unfold fetchChinaStock, try_catch, bind, get.
  destruct (axios_get (china_request sym) w) as [[|d] w']; simpl.
  - exists None, []. split; [reflexivity|].
    repeat split; intros; try discriminate; reflexivity.
  - destruct d as [| |b|n|body|items|fs]; simpl.
    5: {
      destruct (includes body (lit "null")) eqn:Hn; simpl.
      { exists None, []. split; [reflexivity|].
        split; [discriminate|]. split; [reflexivity|]. split; [reflexivity|].
        split; [reflexivity|].
        intros body' inner [= <-] Hn'. congruence. }
      destruct (List.length body <? 32)%nat eqn:Hl; simpl.
      { exists None, []. split; [reflexivity|].
        split; [discriminate|]. split; [reflexivity|]. split; [reflexivity|].
        split; [reflexivity|].
        intros body' inner [= <-] _ Hl'. apply Nat.ltb_lt in Hl. lia. }
      apply Nat.ltb_ge in Hl.
      destruct (match_quoted body) as [inner|] eqn:Hm; simpl.
      - eexists _, _. split; [reflexivity|].
        split; [discriminate|].
        split; [intros d [= <-] H; exfalso; now apply (H body)|].
        split; [intros body' [= <-] [G|G]; [congruence | lia]|].
        split; [intros body' [= <-]; congruence|].
        intros body' inner' [= <-] _ _ Hm'.
        assert (inner' = inner) as -> by congruence.
        split; [reflexivity|].
        split; intros H; (eexists; split; [reflexivity|]); simpl; f_equal;
          apply parseFloat_at_missing; exact H.
      - exists None, [EvMatch]. split; [reflexivity|].
        split; [discriminate|]. split; [reflexivity|].
        split; [intros body' [= <-] [G|G]; [congruence | lia]|].
        split; [reflexivity|].
        intros body' inner [= <-] _ _ Hm'. congruence. }
    5: destruct (existsb is_null_string items || (List.length items <? 32)%nat);
         simpl.
    all: exists None, []; (split; [reflexivity|]);
      (split; [discriminate|]); (split; [reflexivity|]);
      (split; [intros body'; discriminate|]);
      (split; [intros body'; discriminate|]); intros body' inner; discriminate.
Qed.

(** C4, at a body whose quoted run has too few fields, the second of them
    not a number: nothing is thrown, and the fetch does not give up either.
    It returns a quote of two [NaN], which [formatPrice] turns into a line
    like any other, where the paths of the adapter for a failed parse (no
    match, anything thrown) return no quote. *)
Theorem C4_short_field_list_gives_quote :
  let body := lit "var hq_str_sh600519=" ++ quoted (lit "Kweichow Moutai,--")
              ++ lit ";" in
  let routes := [(url (china_request (lit "sh600519")), VStr body)] in
  let w : Stub.world := [] in
  split comma (lit "Kweichow Moutai,--") = [lit "Kweichow Moutai"; lit "--"]
  /\ fetchChinaStock (Stub.axios_get routes) (lit "sh600519") w
     = (Ret (Some {| price := VNum NaN; change := VNum NaN |}), w,
        [EvGet (china_request (lit "sh600519")); EvMatch; EvSplit])
  /\ outcome_of (fetchChinaStock (Stub.axios_get routes) (lit "sh600519") w)
     <> Ret None
  /\ outcome_of (bind (fetchChinaStock (Stub.axios_get routes) (lit "sh600519"))
                   (render (W := Stub.world)) w)
     = Ret (Line (VNum NaN) false NaN).
Proof. repeat split; try reflexivity. discriminate. Qed.

(** A price alone gives a quote with the price and a [NaN] change. *)
Example fetchChinaStock_price_only :
  let body := lit "var hq_str_sh600519=" ++ quoted (lit "Kweichow Moutai,1830.00")
              ++ lit ";" in
  let routes := [(url (china_request (lit "sh600519")), VStr body)] in
  let w : Stub.world := [] in
  outcome_of (fetchChinaStock (Stub.axios_get routes) (lit "sh600519") w)
  = Ret (Some {| price := VNum (Num 1830); change := VNum NaN |}).
Proof. vm_compute. reflexivity. Qed.

(** ** The shape of a quote *)

(** C6, at an upstream entry that has a price and no change: the
    cryptocurrency adapter returns the quote with its change [undefined]
    instead of no quote, and [formatPrice], which calls [toFixed] on the
    change, throws: the aggregator loses the whole run, the quotes fetched
    before included. *)
Theorem C6_partial_quote_is_returned :
  let routes :=
    [(url (crypto_request (lit "bitcoin")),
      VObj [(lit "bitcoin", VObj [(lit "cny", VNum (Num 435000))])])] in
  let w : Stub.world := [] in
  fetchCrypto (Stub.axios_get routes) (lit "bitcoin") w
  = (Ret (Some {| price := VNum (Num 435000); change := VUndef |}), w,
     [EvGet (crypto_request (lit "bitcoin"))])
  /\ outcome_of (fetchCrypto (Stub.axios_get routes) (lit "bitcoin") w)
     <> Ret None
  /\ outcome_of (bind (fetchCrypto (Stub.axios_get routes) (lit "bitcoin"))
                   (render (W := Stub.world)) w)
     = Throw TypeError
  /\ outcome_of (fetchAllPrices Stub.math_random (Stub.axios_get routes)
                   DEFAULT_WATCHLIST w)
     = Throw TypeError.
Proof.
  repeat split; try reflexivity; try discriminate.
Qed.

(** ** The metals adapter *)

(** The outcome depends on the symbol and the draw only. *)
Lemma fetchGold_draw_only
    (W1 W2 : Type) (random1 : W1 -> Q * W1) (random2 : W2 -> Q * W2)
    (sym : jsstring) (w1 : W1) (w2 : W2) :
  fst (random1 w1) = fst (random2 w2) ->
  outcome_of (fetchGold random1 sym w1) = outcome_of (fetchGold random2 sym w2)
  /\ trace_of (fetchGold random1 sym w1) = trace_of (fetchGold random2 sym w2).
Proof.
  intros H. destruct (assoc sym mockData) as [d|] eqn:H1.
  - rewrite (fetchGold_own W1 random1 sym d w1 H1),
      (fetchGold_own W2 random2 sym d w2 H1).
    unfold outcome_of, trace_of. simpl. now rewrite H.
  - destruct (object_prototype sym) as [m|] eqn:H2.
    + now rewrite (fetchGold_inherited W1 random1 sym m w1 H1 H2),
        (fetchGold_inherited W2 random2 sym m w2 H1 H2).
    + now rewrite (fetchGold_missing W1 random1 sym w1 H1 H2),
        (fetchGold_missing W2 random2 sym w2 H1 H2).
Qed.

(** C9, at the symbol constructor, which the table does not have: the lookup
    finds the member inherited from [Object.prototype], it passes the test,
    a draw is made and a quote of two [NaN] is returned. *)
Theorem C9_inherited_name_gets_quote :
  assoc (lit "constructor") mockData = None
  /\ forall (W : Type) (math_random : W -> Q * W) (w : W),
       fetchGold math_random (lit "constructor") w
       = (Ret (Some {| price := VNum NaN; change := VNum NaN |}),
          snd (math_random w), [EvRandom]).
Proof.
  split; [reflexivity|]. intros W math_random w.
  now apply (fetchGold_inherited W math_random (lit "constructor")
               (NativeFunction (lit "Object")) w).
Qed.

Lemma mockData_entries (sym : jsstring) (d : Mock.metal) :
  assoc sym mockData = Some d ->
  d = {| Mock.base := 2650; Mock.change := 1 # 2 |}
  \/ d = {| Mock.base := 620; Mock.change := literal (3 # 10) |}.
Proof.
  unfold mockData. cbn [assoc]. intros H.
  repeat match type of H with
         | (if ?c then _ else _) = _ => destruct c
         end; inversion H; [left | right]; reflexivity.
Qed.

(** The quote of an instrument of the table, for a draw in [0, 1). *)
Lemma fetchGold_quote
    (W : Type) (math_random : W -> Q * W)
    (sym : jsstring) (d : Mock.metal) (w : W) :
  assoc sym mockData = Some d ->
  is_double (fst (math_random w)) = true ->
  0 <= fst (math_random w) -> fst (math_random w) < 1 ->
  exists p c v,
    fetchGold math_random sym w
    = (Ret (Some {| price := VNum (Num p); change := VNum (Num c) |}),
       snd (math_random w), [EvRandom])
    /\ fmul (fsub (Num (fst (math_random w))) (Num (1 # 2))) (Num 2) = Num v
    /\ -1 <= v /\ v < 1
    /\ fadd (Num (Mock.base d)) (Num v) = Num p
    /\ fadd (Num (Mock.change d)) (fmul (Num v) (Num tenth)) = Num c
    /\ Mock.base d - 1 <= p <= Mock.base d + 1
    /\ Mock.change d - ((1 # 10) + (1 # 2 ^ 53)) <= c
       <= Mock.change d + ((1 # 10) + (1 # 2 ^ 53))
    /\ (0 <= v -> Mock.base d <= p /\ Mock.change d <= c)
    /\ (v <= 0 -> p <= Mock.base d /\ c <= Mock.change d).
Proof.
  intros Hd Dr R0 R1.
  rewrite (fetchGold_own W math_random sym d w Hd). cbv zeta.
  set (r := fst (math_random w)) in *.
  assert (G : exists clo chi,
             is_double (Mock.base d - 1) = true
             /\ is_double (Mock.base d) = true
             /\ is_double (Mock.base d + 1) = true
             /\ is_double (Mock.change d) = true
             /\ is_double clo = true /\ is_double chi = true
             /\ clo <= Mock.change d - tenth
             /\ Mock.change d + tenth <= chi
             /\ Mock.change d - ((1 # 10) + (1 # 2 ^ 53)) <= clo
             /\ chi <= Mock.change d + ((1 # 10) + (1 # 2 ^ 53))).
  { destruct (mockData_entries sym d Hd) as [-> | ->]; cbn [Mock.base Mock.change].
    - exists (literal (4 # 10) - (1 # 2 ^ 54)), (literal (6 # 10) + (1 # 2 ^ 53)).
      repeat split; vm_compute; congruence.
    - exists (literal (2 # 10) - (1 # 2 ^ 55)), (literal (4 # 10)).
      repeat split; vm_compute; congruence. }
  destruct G as (clo & chi & D1 & D2 & D3 & D4 & D5 & D6 & L1 & L2 & L3 & L4).
  destruct (gold_quote (Mock.base d) (Mock.change d) clo chi r
              D1 D2 D3 D4 D5 D6 L1 L2 Dr R0 R1)
    as (p & c & v & Ev & V0 & V1 & Ep & Ec & Bp & Bc & Sp & Sn).
  exists p, c, v. rewrite Ev, Ep, Ec.
  split; [reflexivity|]. split; [reflexivity|].
  split; [exact V0|]. split; [exact V1|].
  split; [reflexivity|]. split; [reflexivity|].
  split; [exact Bp|]. split; [split; lra|]. split; assumption.
Qed.

(** C10, as amended: for an instrument of the table and a draw r in [0, 1),
    the quote has price = base + v and change = baseline + v * 0.1 with
    v = (r - 0.5) * 2 in [-1, 1), every operation being rounded to the
    nearest double. The price is within 1 of the base, bounds included,
    and the two offsets never have opposite signs: from v >= 0 on neither
    the price nor the change is below its baseline, and up to v <= 0
    neither is above. *)
Theorem C10_gold_perturbation
    (W : Type) (math_random : W -> Q * W)
    (sym : jsstring) (d : Mock.metal) (w : W) :
  assoc sym mockData = Some d ->
  is_double (fst (math_random w)) = true ->
  0 <= fst (math_random w) -> fst (math_random w) < 1 ->
  exists p c v,
    outcome_of (fetchGold math_random sym w)
    = Ret (Some {| price := VNum (Num p); change := VNum (Num c) |})
    /\ fmul (fsub (Num (fst (math_random w))) (Num (1 # 2))) (Num 2) = Num v
    /\ -1 <= v /\ v < 1
    /\ fadd (Num (Mock.base d)) (Num v) = Num p
    /\ fadd (Num (Mock.change d)) (fmul (Num v) (Num tenth)) = Num c
    /\ Qabs (p - Mock.base d) <= 1
    /\ (0 <= v -> Mock.base d <= p /\ Mock.change d <= c)
    /\ (v <= 0 -> p <= Mock.base d /\ c <= Mock.change d).
Proof.
  intros Hd Dr R0 R1.
  destruct (fetchGold_quote W math_random sym d w Hd Dr R0 R1)
    as (p & c & v & E & Ev & V0 & V1 & Ep & Ec & Bp & _ & Sp & Sn).
  exists p, c, v. rewrite E.
  split; [reflexivity|]. split; [exact Ev|].
  split; [exact V0|]. split; [exact V1|].
  split; [exact Ep|]. split; [exact Ec|].
  split; [apply Qabs_Qle_condition; split; lra|]. split; assumption.
Qed.

(** The draw 1/4 for the instrument XAUUSD. *)
Lemma C10_gold_perturbation_witness :
  let w := [1 # 4] in
  exists p c v,
    outcome_of (fetchGold Stub.math_random (lit "XAUUSD") w)
    = Ret (Some {| price := VNum (Num p); change := VNum (Num c) |})
    /\ fmul (fsub (Num (fst (Stub.math_random w))) (Num (1 # 2))) (Num 2) = Num v
    /\ -1 <= v /\ v < 1
    /\ fadd (Num 2650) (Num v) = Num p
    /\ fadd (Num (1 # 2)) (fmul (Num v) (Num tenth)) = Num c
    /\ Qabs (p - 2650) <= 1
    /\ (0 <= v -> 2650 <= p /\ 1 # 2 <= c)
    /\ (v <= 0 -> p <= 2650 /\ c <= 1 # 2).
Proof.
  intros w.
  apply (C10_gold_perturbation Stub.world Stub.math_random (lit "XAUUSD")
           {| Mock.base := 2650; Mock.change := 1 # 2 |} w).
  - reflexivity.
  - reflexivity.
  - vm_compute. discriminate.
  - reflexivity.
Defined.

(** C10, as stated, fails at the draw 0, which [Math.random] may return:
    v = -1 and the price is exactly 1 below the base. With doubles the
    change offset is not a tenth of the price offset either (AU9999 at the
    draw 0: the change is the double below 0.2), and the offsets need not
    have the same sign: at the draw 1/2 + 2^-46 the price is the base
    itself and the change is above its baseline. *)
Lemma C10_counterexample :
  (fst (Stub.math_random [0]) = 0
   /\ outcome_of (fetchGold Stub.math_random (lit "XAUUSD") [0])
      = Ret (Some {| price := VNum (Num 2649);
                     change := VNum (Num (literal (4 # 10))) |})
   /\ ~ Qabs (2649 - 2650) < 1)
  /\ (let c := 7205759403792793 # 2 ^ 55 in
      outcome_of (fetchGold Stub.math_random (lit "AU9999") [0])
      = Ret (Some {| price := VNum (Num 619); change := VNum (Num c) |})
      /\ c == literal (2 # 10) - (1 # 2 ^ 55)
      /\ ~ c - literal (3 # 10) == (1 # 10) * (619 - 620))
  /\ (let r := (1 # 2) + (1 # 2 ^ 46) in
      exists c,
        is_double r = true
        /\ outcome_of (fetchGold Stub.math_random (lit "XAUUSD") [r])
           = Ret (Some {| price := VNum (Num 2650); change := VNum (Num c) |})
        /\ 1 # 2 < c).
Proof.
  split; [|split].
  - repeat split; try (vm_compute; reflexivity). vm_compute. discriminate.
  - split; [vm_compute; reflexivity|].
    split; [vm_compute; reflexivity|]. vm_compute. discriminate.
  - eexists. split; [vm_compute; reflexivity|].
    split; vm_compute; reflexivity.
Qed.

(** ** The aggregator *)

(** *** Objects *)

Lemma assoc_none {A : Type} (k : jsstring) (o : list (jsstring * A)) :
  assoc k o = None <-> ~ In k (map fst o).
Proof.
  induction o as [|[k' a] o IH]; simpl.
  - tauto.
  - destruct (str_eqb k' k) eqn:E.
    + apply str_eqb_eq in E. split; [discriminate | tauto].
    + apply str_eqb_neq in E. rewrite IH. tauto.
Qed.

Lemma assoc_skip {A : Type} (k k' : jsstring) (a : A)
    (o1 o2 : list (jsstring * A)) :
  k' <> k -> assoc k (o1 ++ (k', a) :: o2) = assoc k (o1 ++ o2).
Proof.
  intros H. induction o1 as [|[k1 a1] o1 IH]; simpl.
  - apply str_eqb_neq in H. now rewrite H.
  - now rewrite IH.
Qed.

Lemma set_fresh {A : Type} (o : object A) (k : jsstring) (a : A) :
  k <> lit "__proto__" -> ~ In k (map fst o) -> set o k a = o ++ [(k, a)].
Proof.
  intros H1 H2. unfold set, define.
  apply str_eqb_neq in H1. rewrite H1.
  apply assoc_none in H2. now rewrite H2.
Qed.

(** Outcomes stored under fresh, pairwise distinct names are appended in
    their order. *)
Lemma store_fresh (outs : list (entry * option quote)) :
  forall results : object cell,
    NoDup (map fst results ++ map (fun eo => name (fst eo)) outs) ->
    ~ In (lit "__proto__") (map (fun eo => name (fst eo)) outs) ->
    store results outs = results ++ map named outs.
Proof.
  induction outs as [|eo outs IH]; intros results Hd Hp; simpl.
  - now rewrite app_nil_r.
  - unfold store in *. simpl.
    assert (Hk : ~ In (name (fst eo)) (map fst results)).
    { intros I. apply NoDup_remove_2 in Hd. apply Hd.
      apply in_or_app. now left. }
    rewrite set_fresh; [|intros E; apply Hp; now left|exact Hk].
    rewrite IH.
    + now rewrite <- app_assoc.
    + rewrite map_app. simpl. rewrite <- app_assoc. simpl.
      apply NoDup_Add with (a := name (fst eo))
                           (l := map fst results
                                 ++ map (fun eo => name (fst eo)) outs).
      * apply Add_app.
      * split.
        -- now apply NoDup_remove_1 in Hd.
        -- now apply NoDup_remove_2 in Hd.
    + intros I. apply Hp. now right.
Qed.

Lemma store_app (results : object cell) (a b : list (entry * option quote)) :
  store results (a ++ b) = store (store results a) b.
Proof. unfold store. apply fold_left_app. Qed.

Lemma keys_no_index {A : Type} (o : object A) :
  (forall k, In k (map fst o) -> array_index k = None) ->
  keys o = map fst o.
Proof.
  intros H. unfold keys.
  assert (F : forall ks acc,
             (forall k, In k ks -> array_index k = None) ->
             fold_left (fun acc k => match array_index k with
                                     | Some n => insert_sorted n k acc
                                     | None => acc
                                     end) ks acc = acc).
  { induction ks as [|k ks IH]; intros acc Hk; simpl; [reflexivity|].
    rewrite (Hk k (or_introl eq_refl)). apply IH.
    intros k' I. apply Hk. now right. }
  rewrite (F _ _ H). simpl.
  induction (map fst o) as [|k ks IH]; simpl; [reflexivity|].
  rewrite (H k (or_introl eq_refl)). f_equal. apply IH.
  intros k' I. apply H. now right.
Qed.

(** *** Traces *)

Lemma requests_app (t1 t2 : list event) :
  requests (t1 ++ t2) = requests t1 ++ requests t2.
Proof. unfold requests. apply flat_map_app. Qed.

Lemma requests_none (t : list event) :
  forallb (fun e => negb (is_get e)) t = true -> requests t = [].
Proof.
  induction t as [|e t IH]; simpl; [reflexivity|].
  intros H. apply andb_true_iff in H as [He Ht].
  destruct e; simpl in *; try discriminate; now apply IH.
Qed.

Lemma gets_requests (t : list event) : gets t = List.length (requests t).
Proof.
  unfold gets, requests.
  induction t as [|e t IH]; simpl; [reflexivity|].
  destruct e; simpl; now rewrite ?IH.
Qed.

(** *** The loops *)

Section Loops.

Variable W : Type.
Variable math_random : W -> Q * W.
Variable axios_get : request -> W -> http * W.

Lemma render_printable (o : option quote) (w : W) :
  printable o -> render o w = (Ret (cell_of o), w, []).
Proof.
  destruct o as [[p c]|]; simpl; [|reflexivity].
  intros [[n ->] Hp]. unfold formatPrice. now rewrite Hp.
Qed.

(** Formatting reads no environment and leaves no event. *)
Lemma render_pure (o : option quote) (w : W) :
  exists r, render o w = (r, w, []).
Proof.
  destruct o as [[p c]|]; simpl; [|now eexists].
  unfold formatPrice. destruct c; try (now eexists).
  destruct (converts_to_string p); now eexists.
Qed.

(** A quote of two numbers can be formatted. *)
Lemma numeric_printable (q : quote) :
  (exists a b, price q = VNum a /\ change q = VNum b) -> printable (Some q).
Proof.
  intros (a & b & Ha & Hb). simpl. rewrite Ha, Hb. split; [eauto | reflexivity].
Qed.

(** A loop of [fetchAllPrices] stores what the visit of the same entries
    collects, when all that is collected can be formatted. *)
Lemma for_of_store (fetch : jsstring -> M W (option quote))
    (entries : list entry) :
  forall (results : object cell) (w : W) outs w' t,
    fetch_each fetch entries w = (Ret outs, w', t) ->
    Forall (fun eo => printable (snd eo)) outs ->
    for_of fetch entries results w = (Ret (store results outs), w', t).
Proof.
  induction entries as [|e rest IH]; intros results w outs w' t Hv Hp.
  - injection Hv as <- <- <-. reflexivity.
  - simpl in Hv |- *. unfold bind in Hv |- *.
    destruct (fetch (symbol e) w) as [[[o|ex] w1] t1]; [|discriminate].
    destruct (fetch_each fetch rest w1) as [[[os|ex] w2] t2] eqn:Hr;
      [|discriminate].
    simpl in Hv. injection Hv as <- <- <-.
    inversion Hp as [|? ? Ho Hos]; subst. simpl in Ho.
    rewrite (render_printable o w1 Ho).
    rewrite (IH (set results (name e) (cell_of o)) w1 os w2 t2 Hr Hos).
    simpl. now rewrite app_nil_r.
Qed.

(** The visit of a list of entries by a fetch that always returns. *)
Lemma fetch_each_run (fetch : jsstring -> M W (option quote))
    (reqs : jsstring -> list request) (entries : list entry) :
  (forall e w, In e entries ->
     exists o w' t, fetch (symbol e) w = (Ret o, w', t)
                    /\ requests t = reqs (symbol e) /\ printable o) ->
  forall w, exists outs w' t,
    fetch_each fetch entries w = (Ret outs, w', t)
    /\ map fst outs = entries
    /\ requests t = flat_map (fun e => reqs (symbol e)) entries
    /\ Forall (fun eo => printable (snd eo)) outs.
Proof.
  induction entries as [|e rest IH]; intros H w.
  - exists [], w, []. repeat split. constructor.
  - destruct (H e w (or_introl eq_refl)) as (o & w1 & t1 & E1 & R1 & P1).
    destruct (IH (fun e' w' I => H e' w' (or_intror I)) w1)
      as (os & w2 & t2 & E2 & M2 & R2 & P2).
    exists ((e, o) :: os), w2, (t1 ++ t2 ++ []).
    simpl. unfold bind. rewrite E1, E2. simpl.
    split; [reflexivity|]. split; [now rewrite M2|].
    split; [|now constructor].
    now rewrite !requests_app, R1, R2, app_nil_r.
Qed.

(** Whatever a loop does, returning or thrown out of by [formatPrice], the
    requests it sent are those of its first entries, in their order. *)
Lemma for_of_requests_prefix (fetch : jsstring -> M W (option quote))
    (reqs : jsstring -> list request) :
  (forall sym w, exists o w' t,
      fetch sym w = (Ret o, w', t) /\ requests t = reqs sym) ->
  forall entries results w,
    exists rest,
      flat_map (fun e => reqs (symbol e)) entries
      = requests (trace_of (for_of fetch entries results w)) ++ rest.
Proof.
  intros H entries. induction entries as [|e more IH]; intros results w.
  - now exists [].
  - destruct (H (symbol e) w) as (o & w1 & t1 & E1 & R1).
    destruct (render_pure o w1) as [r Er].
    cbn [for_of flat_map]. unfold bind. rewrite E1, Er.
    destruct r as [c|ex].
    + destruct (IH (set results (name e) c) w1) as [rest Hrest].
      destruct (for_of fetch more (set results (name e) c) w1)
        as [[r2 w2] t2].
      unfold trace_of in *. cbn [snd app] in *.
      exists rest. now rewrite requests_app, R1, Hrest, app_assoc.
    + unfold trace_of. cbn [snd].
      exists (flat_map (fun e0 => reqs (symbol e0)) more).
      now rewrite requests_app, R1, app_nil_r.
Qed.

End Loops.

(** *** The whole run *)

Lemma flat_map_single {A B : Type} (f : A -> B) (l : list A) :
  flat_map (fun a => [f a]) l = map f l.
Proof. induction l; simpl; congruence. Qed.

Lemma flat_map_nothing {A B : Type} (l : list A) :
  flat_map (fun _ : A => @nil B) l = [].
Proof. induction l; simpl; congruence. Qed.

Section Run.

Variable W : Type.
Variable math_random : W -> Q * W.
Variable axios_get : request -> W -> http * W.

Lemma symbols_of_own (wl : watchlist) (key : jsstring) (es : list entry) (w : W) :
  group_entries wl key = Some es -> symbols_of wl key w = (Ret es, w, []).
Proof.
  unfold group_entries, symbols_of, lookup.
  destruct (assoc key wl) as [g|]; [|discriminate].
  now intros [= <-].
Qed.

(** What one fetch of each adapter does, as the loops need it. *)
Lemma china_fetch (sym : jsstring) (w : W) :
  exists o w' t,
    fetchChinaStock axios_get sym w = (Ret o, w', t)
    /\ requests t = [china_request sym] /\ printable o.
Proof.
  destruct (fetchChinaStock_run W axios_get sym w) as (o & t & E & G & N).
  eexists o, _, _. split; [exact E|]. split.
  - simpl. now rewrite (requests_none t G).
  - destruct o as [q|]; [|exact I]. now apply numeric_printable, N.
Qed.

Lemma gold_fetch (sym : jsstring) (w : W) :
  exists o w' t,
    fetchGold math_random sym w = (Ret o, w', t)
    /\ requests t = [] /\ printable o.
Proof.
  destruct (fetchGold_run W math_random sym w) as (o & w' & t & E & G & N).
  exists o, w', t. split; [exact E|]. split; [now apply requests_none|].
  destruct o as [q|]; [|exact I]. now apply numeric_printable, N.
Qed.

Lemma crypto_fetch (sym : jsstring) (w : W) :
  exists o w' t,
    fetchCrypto axios_get sym w = (Ret o, w', t)
    /\ requests t = [crypto_request sym].
Proof.
  destruct (fetchCrypto_run W axios_get sym w) as (o & E & _).
  eexists o, _, _. split; [exact E | reflexivity].
Qed.

Lemma crypto_fetch_printable (crypto : list entry) (e : entry) (w : W) :
  crypto_quotes_printable axios_get crypto -> In e crypto ->
  exists o w' t,
    fetchCrypto axios_get (symbol e) w = (Ret o, w', t)
    /\ requests t = [crypto_request (symbol e)] /\ printable o.
Proof.
  intros Hn Hin.
  destruct (crypto_fetch (symbol e) w) as (o & w' & t & E & R).
  exists o, w', t. split; [exact E|]. split; [exact R|].
  destruct o as [q|]; [|exact I].
  apply (Hn e w q Hin). now rewrite E.
Qed.

(** With the four groups present, the aggregator gets through its first
    three loops, whose results are the store of what the visit of their
    entries collects; what is left is the loop over the coins. *)
Lemma fetchAllPrices_upto_crypto (wl : watchlist)
    (stocks hkstocks gold crypto : list entry) (w : W) :
  group_entries wl (lit "stocks") = Some stocks ->
  group_entries wl (lit "hkstocks") = Some hkstocks ->
  group_entries wl (lit "gold") = Some gold ->
  group_entries wl (lit "crypto") = Some crypto ->
  exists a b c w1 w2 w3 t1 t2 t3,
    fetch_each (fetchChinaStock axios_get) stocks w = (Ret a, w1, t1)
    /\ fetch_each (fetchChinaStock axios_get) hkstocks w1 = (Ret b, w2, t2)
    /\ fetch_each (fetchGold math_random) gold w2 = (Ret c, w3, t3)
    /\ (map fst a = stocks /\ map fst b = hkstocks /\ map fst c = gold)
    /\ (Forall (fun eo => printable (snd eo)) a
        /\ Forall (fun eo => printable (snd eo)) b
        /\ Forall (fun eo => printable (snd eo)) c)
    /\ requests (t1 ++ t2 ++ t3)
       = map (fun e => china_request (symbol e)) stocks
         ++ map (fun e => china_request (symbol e)) hkstocks
    /\ fetchAllPrices math_random axios_get wl w
       = (let '(r, w4, t4) :=
            for_of (fetchCrypto axios_get) crypto (store [] (a ++ b ++ c)) w3 in
          (r, w4, t1 ++ t2 ++ t3 ++ t4)).
Proof.
  intros Hs Hh Hg Hc.
  destruct (fetch_each_run W _ (fun s => [china_request s]) stocks
              (fun e w0 _ => china_fetch (symbol e) w0) w)
    as (a & w1 & t1 & E1 & M1 & R1 & P1).
  destruct (fetch_each_run W _ (fun s => [china_request s]) hkstocks
              (fun e w0 _ => china_fetch (symbol e) w0) w1)
    as (b & w2 & t2 & E2 & M2 & R2 & P2).
  destruct (fetch_each_run W _ (fun _ => []) gold
              (fun e w0 _ => gold_fetch (symbol e) w0) w2)
    as (c & w3 & t3 & E3 & M3 & R3 & P3).
  exists a, b, c, w1, w2, w3, t1, t2, t3.
  split; [exact E1|]. split; [exact E2|]. split; [exact E3|].
  split; [auto|]. split; [auto|]. split.
  - rewrite !requests_app, R1, R2, R3.
    now rewrite !flat_map_single, flat_map_nothing, app_nil_r.
  - unfold fetchAllPrices, bind.
    rewrite (symbols_of_own wl _ stocks w Hs).
    rewrite (for_of_store W _ stocks [] w a w1 t1 E1 P1).
    rewrite (symbols_of_own wl _ hkstocks w1 Hh).
    rewrite (for_of_store W _ hkstocks _ w1 b w2 t2 E2 P2).
    rewrite (symbols_of_own wl _ gold w2 Hg).
    rewrite (for_of_store W _ gold _ w2 c w3 t3 E3 P3).
    rewrite (symbols_of_own wl _ crypto w3 Hc).
    rewrite !store_app.
    destruct (for_of (fetchCrypto axios_get) crypto
                (store (store (store [] a) b) c) w3) as [[r w4] t4].
    reflexivity.
Qed.

(** The requests of a run, returning or not, are an initial part of the
    requests of the four groups in the order stocks, hkstocks, crypto. *)
Lemma fetchAllPrices_requests_prefix (wl : watchlist)
    (stocks hkstocks gold crypto : list entry) (w : W) :
  group_entries wl (lit "stocks") = Some stocks ->
  group_entries wl (lit "hkstocks") = Some hkstocks ->
  group_entries wl (lit "gold") = Some gold ->
  group_entries wl (lit "crypto") = Some crypto ->
  exists rest,
    requests_of stocks hkstocks crypto
    = requests (trace_of (fetchAllPrices math_random axios_get wl w)) ++ rest.
Proof.
  intros Hs Hh Hg Hc.
  destruct (fetchAllPrices_upto_crypto wl stocks hkstocks gold crypto w
              Hs Hh Hg Hc)
    as (a & b & c & w1 & w2 & w3 & t1 & t2 & t3 & _ & _ & _ & _ & _ & R & E).
  destruct (for_of_requests_prefix W (fetchCrypto axios_get)
              (fun s => [crypto_request s]) crypto_fetch
              crypto (store [] (a ++ b ++ c)) w3) as [rest Hrest].
  rewrite E.
  destruct (for_of (fetchCrypto axios_get) crypto (store [] (a ++ b ++ c)) w3)
    as [[r w4] t4].
  unfold trace_of in *. cbn [snd] in *.
  exists rest. unfold requests_of.
  rewrite flat_map_single in Hrest. rewrite Hrest.
  replace (t1 ++ t2 ++ t3 ++ t4) with ((t1 ++ t2 ++ t3) ++ t4)
    by now rewrite <- !app_assoc.
  rewrite (requests_app (t1 ++ t2 ++ t3) t4), R.
  now rewrite <- !app_assoc.
Qed.

(** With the four groups present and crypto quotes that can be formatted,
    the aggregator returns: its result is the store of what the visit
    collects, in the same final environment, with the same trace. *)
Lemma fetchAllPrices_visit (wl : watchlist)
    (stocks hkstocks gold crypto : list entry) (w : W) :
  group_entries wl (lit "stocks") = Some stocks ->
  group_entries wl (lit "hkstocks") = Some hkstocks ->
  group_entries wl (lit "gold") = Some gold ->
  group_entries wl (lit "crypto") = Some crypto ->
  crypto_quotes_printable axios_get crypto ->
  exists outs w' t,
    visit_all math_random axios_get stocks hkstocks gold crypto w
    = (Ret outs, w', t)
    /\ map fst outs = stocks ++ hkstocks ++ gold ++ crypto
    /\ requests t = requests_of stocks hkstocks crypto
    /\ fetchAllPrices math_random axios_get wl w = (Ret (store [] outs), w', t)
    /\ Forall (fun eo => printable (snd eo)) outs.
Proof.
  intros Hs Hh Hg Hc Hn.
  destruct (fetchAllPrices_upto_crypto wl stocks hkstocks gold crypto w
              Hs Hh Hg Hc)
    as (a & b & c & w1 & w2 & w3 & t1 & t2 & t3
        & E1 & E2 & E3 & (M1 & M2 & M3) & (P1 & P2 & P3) & R & E).
  destruct (fetch_each_run W _ (fun s => [crypto_request s]) crypto
              (fun e w0 I => crypto_fetch_printable crypto e w0 Hn I) w3)
    as (d & w4 & t4 & E4 & M4 & R4 & P4).
  exists (a ++ b ++ c ++ d), w4, (t1 ++ t2 ++ t3 ++ t4).
  split; [|split; [|split; [|split]]].
  5: now rewrite !Forall_app.
  - unfold visit_all, bind. rewrite E1, E2, E3, E4. simpl.
    now rewrite app_nil_r.
  - now rewrite !map_app, M1, M2, M3, M4.
  - replace (t1 ++ t2 ++ t3 ++ t4) with ((t1 ++ t2 ++ t3) ++ t4)
      by now rewrite <- !app_assoc.
    rewrite (requests_app (t1 ++ t2 ++ t3) t4), R, R4, flat_map_single.
    unfold requests_of. now rewrite <- !app_assoc.
  - rewrite E.
    rewrite (for_of_store W _ crypto _ w3 d w4 t4 E4 P4).
    f_equal. f_equal. f_equal.
    replace (a ++ b ++ c ++ d) with ((a ++ b ++ c) ++ d)
      by now rewrite <- !app_assoc.
    now rewrite (store_app [] (a ++ b ++ c) d).
Qed.

End Run.

(** Under pairwise distinct names, the report holds for each entry the
    cell of its own outcome. *)
Lemma assoc_named (outs : list (entry * option quote))
    (e : entry) (o : option quote) :
  NoDup (map (fun eo => name (fst eo)) outs) -> In (e, o) outs ->
  assoc (name e) (map named outs) = Some (cell_of o).
Proof.
  induction outs as [|[e1 o1] outs IH]; intros Hd Hin; [contradiction|].
  cbn [map fst] in Hd. inversion Hd as [|? ? Hn Hd']; subst.
  cbn [map assoc named fst snd].
  destruct Hin as [[= -> ->]|Hin].
  - now rewrite str_eqb_refl.
  - assert (N : str_eqb (name e1) (name e) = false).
    { apply str_eqb_neq. intros Eq. apply Hn. rewrite Eq.
      apply in_map_iff. now exists (e, o). }
    rewrite N. now apply IH.
Qed.

(** *** Checking the side conditions on concrete names *)

Lemma existsb_str_eqb_false (k : jsstring) (l : list jsstring) :
  existsb (str_eqb k) l = false -> ~ In k l.
Proof.
  intros H I. assert (T : existsb (str_eqb k) l = true).
  { apply existsb_exists. exists k. split; [exact I | apply str_eqb_refl]. }
  congruence.
Qed.

Lemma distinctb_NoDup (l : list jsstring) : distinctb l = true -> NoDup l.
Proof.
  induction l as [|k l IH]; simpl; intros H; constructor.
  - apply andb_true_iff in H as [H _]. apply negb_true_iff in H.
    now apply existsb_str_eqb_false.
  - apply andb_true_iff in H as [_ H]. now apply IH.
Qed.

Lemma no_index_checked (l : list jsstring) :
  forallb (fun k => match array_index k with Some _ => false | None => true end)
          l = true ->
  forall k, In k l -> array_index k = None.
Proof.
  intros H k I. rewrite forallb_forall in H. specialize (H k I).
  now destruct (array_index k).
Qed.

Lemma some_routes_printable :
  crypto_quotes_printable (Stub.axios_get some_routes)
    [ {| symbol := lit "bitcoin"; name := lit "BTC" |};
      {| symbol := lit "ethereum"; name := lit "ETH" |};
      {| symbol := lit "solana"; name := lit "SOL" |} ].
Proof.
  intros e w q [<-|[<-|[<-|[]]]] H; vm_compute in H.
  - injection H as <-. split; [now eexists | reflexivity].
  - discriminate H.
  - discriminate H.
Defined.

Lemma offline_crypto_printable (crypto : list entry) :
  crypto_quotes_printable Stub.offline crypto.
Proof. intros e w q _ H. vm_compute in H. discriminate H. Defined.

(** *** The report *)

(** A cross stands for an outcome without quote, and for no other that
    can be formatted. *)
Lemma cell_of_cross (o : option quote) :
  printable o -> (cell_of o = Cross <-> o = None).
Proof.
  destruct o as [[p c]|]; simpl; [|tauto].
  intros [[n ->] _]. split; discriminate.
Qed.

(** C1, as amended: for a watchlist that has the four groups with adapters,
    whose display names in these groups are pairwise distinct and none
    [__proto__], and whenever the quotes the cryptocurrency adapter gets
    can be formatted, the aggregator returns a report that has one entry
    per entry of the four groups, whatever fetches fail. Every symbol of
    the two stock groups and of the crypto group is requested, in order;
    the report holds under the name of each entry the cell of that entry's
    own outcome, which is the cross exactly when the entry got no quote. *)
Theorem C1_report_size
    (W : Type) (math_random : W -> Q * W)
    (axios_get : request -> W -> http * W)
    (wl : watchlist) (stocks hkstocks gold crypto : list entry) (w : W) :
  group_entries wl (lit "stocks") = Some stocks ->
  group_entries wl (lit "hkstocks") = Some hkstocks ->
  group_entries wl (lit "gold") = Some gold ->
  group_entries wl (lit "crypto") = Some crypto ->
  NoDup (map name (stocks ++ hkstocks ++ gold ++ crypto)) ->
  ~ In (lit "__proto__") (map name (stocks ++ hkstocks ++ gold ++ crypto)) ->
  crypto_quotes_printable axios_get crypto ->
  exists outs w' t,
    visit_all math_random axios_get stocks hkstocks gold crypto w
    = (Ret outs, w', t)
    /\ map fst outs = stocks ++ hkstocks ++ gold ++ crypto
    /\ fetchAllPrices math_random axios_get wl w = (Ret (map named outs), w', t)
    /\ List.length (map named outs)
       = (List.length stocks + List.length hkstocks
          + List.length gold + List.length crypto)%nat
    /\ requests t = requests_of stocks hkstocks crypto
    /\ gets t
       = (List.length stocks + List.length hkstocks + List.length crypto)%nat
    /\ (forall e o, In (e, o) outs ->
        assoc (name e) (map named outs) = Some (cell_of o)
        /\ (cell_of o = Cross <-> o = None)).
Proof.
  intros Hs Hh Hg Hc Hd Hp Hn.
  destruct (fetchAllPrices_visit W math_random axios_get wl
              stocks hkstocks gold crypto w Hs Hh Hg Hc Hn)
    as (outs & w' & t & Hv & Hm & Hr & Hf & Hpr).
  assert (Names : map (fun eo => name (fst eo)) outs
                  = map name (stocks ++ hkstocks ++ gold ++ crypto)).
  { rewrite <- Hm. now rewrite map_map. }
  exists outs, w', t. split; [exact Hv|]. split; [exact Hm|].
  split; [|split; [|split; [exact Hr|split]]].
  - rewrite Hf. f_equal. f_equal. f_equal.
    rewrite store_fresh; simpl; rewrite ?Names; auto.
  - rewrite length_map, <- (length_map fst), Hm, !length_app. lia.
  - rewrite gets_requests, Hr. unfold requests_of.
    rewrite !length_app, !length_map. lia.
  - intros e o Hin. split.
    + apply assoc_named; [now rewrite Names | exact Hin].
    + rewrite Forall_forall in Hpr. apply (cell_of_cross o).
      apply (Hpr (e, o) Hin).
Qed.

(** The built-in watchlist, with one stock and one coin answering. *)
Lemma C1_report_size_witness :
  let stocks := entries_of DEFAULT_WATCHLIST (lit "stocks") in
  let hkstocks := entries_of DEFAULT_WATCHLIST (lit "hkstocks") in
  let gold := entries_of DEFAULT_WATCHLIST (lit "gold") in
  let crypto := entries_of DEFAULT_WATCHLIST (lit "crypto") in
  exists outs w' t,
    visit_all Stub.math_random (Stub.axios_get some_routes)
      stocks hkstocks gold crypto [1 # 4]
    = (Ret outs, w', t)
    /\ map fst outs = stocks ++ hkstocks ++ gold ++ crypto
    /\ fetchAllPrices Stub.math_random (Stub.axios_get some_routes)
         DEFAULT_WATCHLIST [1 # 4]
       = (Ret (map named outs), w', t)
    /\ List.length (map named outs) = (5 + 2 + 2 + 3)%nat
    /\ requests t = requests_of stocks hkstocks crypto
    /\ gets t = (5 + 2 + 3)%nat
    /\ (forall e o, In (e, o) outs ->
        assoc (name e) (map named outs) = Some (cell_of o)
        /\ (cell_of o = Cross <-> o = None)).
Proof.
  refine (C1_report_size Stub.world Stub.math_random
            (Stub.axios_get some_routes) DEFAULT_WATCHLIST
            _ _ _ _ [1 # 4] eq_refl eq_refl eq_refl eq_refl _ _ _).
  - apply distinctb_NoDup. reflexivity.
  - apply existsb_str_eqb_false. reflexivity.
  - exact some_routes_printable.
Defined.

(** C1, as stated, fails on two entries with one display name: the second
    outcome overwrites the first, and the report has one entry for the two
    configured. *)
Lemma C1_counterexample :
  List.length (configured same_name) = 2%nat
  /\ fetchAllPrices Stub.math_random Stub.offline same_name []
     = (Ret [(lit "Index", Cross)], [],
        [EvGet (china_request (lit "sh000001"));
         EvGet (china_request (lit "sz399001"))])
  /\ List.length [(lit "Index", Cross)] <> List.length (configured same_name).
Proof. repeat split. discriminate. Qed.

(** The futures entry is configured and not reported. *)
Example with_futures_not_reported :
  List.length (configured with_futures) = 13%nat
  /\ exists r,
       outcome_of (fetchAllPrices Stub.math_random Stub.offline with_futures [])
       = Ret r
       /\ List.length r = 12%nat.
Proof. split; [reflexivity|]. eexists. split; vm_compute; reflexivity. Qed.

(** A coin whose price is an object with a [toString] of its own, as JSON
    can hold: the change is a number, and the run is lost all the same,
    with the [TypeError] of the conversion of the price to a string. *)
Example fetchAllPrices_price_object_throws :
  let routes :=
    [(url (crypto_request (lit "bitcoin")),
      VObj [(lit "bitcoin",
             VObj [(lit "cny", VObj [(lit "toString", VNum (Num 1))]);
                   (lit "cny_24h_change", VNum (Num 1))])])] in
  outcome_of (fetchCrypto (Stub.axios_get routes) (lit "bitcoin") [])
  = Ret (Some {| price := VObj [(lit "toString", VNum (Num 1))];
                 change := VNum (Num 1) |})
  /\ outcome_of (fetchAllPrices Stub.math_random (Stub.axios_get routes)
                   DEFAULT_WATCHLIST [])
     = Throw TypeError.
Proof. split; vm_compute; reflexivity. Qed.

(** C7, as amended: the groups are visited in the fixed order stocks,
    hkstocks, gold, crypto, whatever the order of the watchlist's keys, and
    the entries of each in their configured order. The requests of a run
    are an initial part of the requests of the entries in that order. When
    the quotes of the crypto group can be formatted the run returns: all
    the requests were sent, and each outcome was stored, in that order,
    under the name of its entry. When moreover the names are pairwise
    distinct, none of them [__proto__] or an array index, the keys of the
    report are these names in that order, each with the cell of its own
    entry's outcome. *)
Theorem C7_report_order
    (W : Type) (math_random : W -> Q * W)
    (axios_get : request -> W -> http * W)
    (wl : watchlist) (stocks hkstocks gold crypto : list entry) (w : W) :
  group_entries wl (lit "stocks") = Some stocks ->
  group_entries wl (lit "hkstocks") = Some hkstocks ->
  group_entries wl (lit "gold") = Some gold ->
  group_entries wl (lit "crypto") = Some crypto ->
  (exists rest,
      requests_of stocks hkstocks crypto
      = requests (trace_of (fetchAllPrices math_random axios_get wl w)) ++ rest)
  /\ (crypto_quotes_printable axios_get crypto ->
      exists outs w' t,
        visit_all math_random axios_get stocks hkstocks gold crypto w
        = (Ret outs, w', t)
        /\ map fst outs = stocks ++ hkstocks ++ gold ++ crypto
        /\ fetchAllPrices math_random axios_get wl w
           = (Ret (store [] outs), w', t)
        /\ requests t = requests_of stocks hkstocks crypto
        /\ (NoDup (map name (stocks ++ hkstocks ++ gold ++ crypto)) ->
            ~ In (lit "__proto__")
                 (map name (stocks ++ hkstocks ++ gold ++ crypto)) ->
            (forall k, In k (map name (stocks ++ hkstocks ++ gold ++ crypto)) ->
                       array_index k = None) ->
            store [] outs = map named outs
            /\ keys (map named outs)
               = map name (stocks ++ hkstocks ++ gold ++ crypto))).
Proof.
  intros Hs Hh Hg Hc. split.
  - now apply (fetchAllPrices_requests_prefix W math_random axios_get wl
                 stocks hkstocks gold crypto w).
  - intros Hn.
    destruct (fetchAllPrices_visit W math_random axios_get wl
                stocks hkstocks gold crypto w Hs Hh Hg Hc Hn)
      as (outs & w' & t & Hv & Hm & Hr & Hf & _).
    exists outs, w', t. split; [exact Hv|]. split; [exact Hm|].
    split; [exact Hf|]. split; [exact Hr|].
    intros Hd Hp Hi.
    assert (Names : map (fun eo => name (fst eo)) outs
                    = map name (stocks ++ hkstocks ++ gold ++ crypto)).
    { rewrite <- Hm. now rewrite map_map. }
    assert (Keys : map fst (map named outs)
                   = map name (stocks ++ hkstocks ++ gold ++ crypto)).
    { rewrite map_map. exact Names. }
    split.
    + rewrite store_fresh; simpl; rewrite ?Names; auto.
    + rewrite keys_no_index; [exact Keys|]. now rewrite Keys.
Qed.

(** The built-in watchlist again: its report follows its entries. *)
Lemma C7_report_order_witness :
  let stocks := entries_of DEFAULT_WATCHLIST (lit "stocks") in
  let hkstocks := entries_of DEFAULT_WATCHLIST (lit "hkstocks") in
  let gold := entries_of DEFAULT_WATCHLIST (lit "gold") in
  let crypto := entries_of DEFAULT_WATCHLIST (lit "crypto") in
  (exists rest,
      requests_of stocks hkstocks crypto
      = requests (trace_of (fetchAllPrices Stub.math_random
                              (Stub.axios_get some_routes)
                              DEFAULT_WATCHLIST [1 # 4])) ++ rest)
  /\ exists outs w' t,
       visit_all Stub.math_random (Stub.axios_get some_routes)
         stocks hkstocks gold crypto [1 # 4]
       = (Ret outs, w', t)
       /\ map fst outs = stocks ++ hkstocks ++ gold ++ crypto
       /\ fetchAllPrices Stub.math_random (Stub.axios_get some_routes)
            DEFAULT_WATCHLIST [1 # 4]
          = (Ret (store [] outs), w', t)
       /\ requests t = requests_of stocks hkstocks crypto
       /\ store [] outs = map named outs
       /\ keys (map named outs)
          = map name (stocks ++ hkstocks ++ gold ++ crypto).
Proof.
  intros stocks hkstocks gold crypto.
  destruct (C7_report_order Stub.world Stub.math_random
              (Stub.axios_get some_routes) DEFAULT_WATCHLIST
              stocks hkstocks gold crypto [1 # 4]
              eq_refl eq_refl eq_refl eq_refl) as [A B].
  split; [exact A|].
  destruct (B some_routes_printable) as (outs & w' & t & Hv & Hm & Hf & Hr & K).
  destruct K as [K1 K2].
  - apply distinctb_NoDup. reflexivity.
  - apply existsb_str_eqb_false. reflexivity.
  - apply no_index_checked. reflexivity.
  - exists outs, w', t. auto 8.
Defined.

(** C7, as stated, fails on a watchlist whose keys come in another order:
    the coin is configured first and reported, and requested, last. *)
Lemma C7_counterexample :
  map name (configured crypto_first) = [lit "BTC"; lit "SSE"]
  /\ exists r t,
       fetchAllPrices Stub.math_random Stub.offline crypto_first []
       = (Ret r, [], t)
       /\ keys r = [lit "SSE"; lit "BTC"]
       /\ requests t = [china_request (lit "sh000001");
                        crypto_request (lit "bitcoin")]
       /\ keys r <> map name (configured crypto_first).
Proof.
  split; [reflexivity|]. eexists _, _.
  split; [vm_compute; reflexivity|]. repeat split. discriminate.
Qed.

(** C8, as amended: a group whose key has no adapter is ignored. The
    result, the final environment and the trace are those of the watchlist
    without that group; when the four groups with adapters are present and
    the crypto quotes can be formatted, the run returns a report, the
    requests are those of the entries of these four groups and the report
    stores their outcomes: none of the symbols of the other group is
    fetched or reported. *)
Theorem C8_unbound_group_ignored
    (W : Type) (math_random : W -> Q * W)
    (axios_get : request -> W -> http * W)
    (wl1 wl2 : watchlist) (k : jsstring) (g : group) (w : W) :
  bound k = false ->
  fetchAllPrices math_random axios_get (wl1 ++ (k, g) :: wl2) w
  = fetchAllPrices math_random axios_get (wl1 ++ wl2) w
  /\ forall stocks hkstocks gold crypto,
       group_entries (wl1 ++ wl2) (lit "stocks") = Some stocks ->
       group_entries (wl1 ++ wl2) (lit "hkstocks") = Some hkstocks ->
       group_entries (wl1 ++ wl2) (lit "gold") = Some gold ->
       group_entries (wl1 ++ wl2) (lit "crypto") = Some crypto ->
       crypto_quotes_printable axios_get crypto ->
       exists outs w' t,
         visit_all math_random axios_get stocks hkstocks gold crypto w
         = (Ret outs, w', t)
         /\ map fst outs = stocks ++ hkstocks ++ gold ++ crypto
         /\ fetchAllPrices math_random axios_get (wl1 ++ (k, g) :: wl2) w
            = (Ret (store [] outs), w', t)
         /\ requests t = requests_of stocks hkstocks crypto.
Proof.
  intros Hb.
  assert (Eq : fetchAllPrices math_random axios_get (wl1 ++ (k, g) :: wl2) w
               = fetchAllPrices math_random axios_get (wl1 ++ wl2) w).
  { unfold bound in Hb. simpl in Hb.
    repeat (apply orb_false_iff in Hb as [? Hb]).
    assert (S : forall key, str_eqb k key = false ->
                symbols_of (W := W) (wl1 ++ (k, g) :: wl2) key
                = symbols_of (wl1 ++ wl2) key).
    { intros key Hk. unfold symbols_of, lookup.
      rewrite assoc_skip; [reflexivity|]. now apply str_eqb_neq. }
    unfold fetchAllPrices. now rewrite !S by assumption. }
  split; [exact Eq|].
  intros stocks hkstocks gold crypto Hs Hh Hg Hc Hn. rewrite Eq.
  destruct (fetchAllPrices_visit W math_random axios_get (wl1 ++ wl2)
              stocks hkstocks gold crypto w Hs Hh Hg Hc Hn)
    as (outs & w' & t & Hv & Hm & Hr & Hf & _).
  exists outs, w', t. auto.
Qed.

(** The built-in watchlist with and without a futures group, every
    request being rejected. *)
Lemma C8_unbound_group_ignored_witness :
  let stocks := entries_of DEFAULT_WATCHLIST (lit "stocks") in
  let hkstocks := entries_of DEFAULT_WATCHLIST (lit "hkstocks") in
  let gold := entries_of DEFAULT_WATCHLIST (lit "gold") in
  let crypto := entries_of DEFAULT_WATCHLIST (lit "crypto") in
  fetchAllPrices Stub.math_random Stub.offline with_futures []
  = fetchAllPrices Stub.math_random Stub.offline (DEFAULT_WATCHLIST ++ []) []
  /\ exists outs w' t,
       visit_all Stub.math_random Stub.offline stocks hkstocks gold crypto []
       = (Ret outs, w', t)
       /\ map fst outs = stocks ++ hkstocks ++ gold ++ crypto
       /\ fetchAllPrices Stub.math_random Stub.offline with_futures []
          = (Ret (store [] outs), w', t)
       /\ requests t = requests_of stocks hkstocks crypto.
Proof.
  intros stocks hkstocks gold crypto.
  destruct (C8_unbound_group_ignored Stub.world Stub.math_random Stub.offline
              DEFAULT_WATCHLIST [] (lit "futures")
              {| title := lit "futures";
                 symbols := [{| symbol := lit "CL"; name := lit "Oil" |}] |}
              [] eq_refl) as [A B].
  split; [exact A|].
  exact (B stocks hkstocks gold crypto eq_refl eq_refl eq_refl eq_refl
           (offline_crypto_printable crypto)).
Defined.

(** C8, as stated, fails on that watchlist: the run returns a report after
    its ten requests, and the futures entry is in it under no form. *)
Lemma C8_counterexample :
  bound (lit "futures") = false
  /\ addStock (lit "CL") (lit "Oil") (lit "futures") DEFAULT_WATCHLIST
     = Ret with_futures
  /\ load_watchlist
       (Parsed [(lit "futures",
                 {| title := lit "futures";
                    symbols := [{| symbol := lit "CL"; name := lit "Oil" |}] |})])
     = with_futures
  /\ exists r,
       outcome_of (fetchAllPrices Stub.math_random Stub.offline with_futures [])
       = Ret r
       /\ List.length r = 12%nat
       /\ assoc (lit "Oil") r = None
       /\ gets (trace_of (fetchAllPrices Stub.math_random Stub.offline
                            with_futures [])) = 10%nat.
Proof.
  split; [reflexivity|]. split; [reflexivity|]. split; [reflexivity|].
  eexists. split; [vm_compute; reflexivity|]. repeat split.
Qed.

(** A watchlist that holds a futures group and none of the four groups
    with adapters: the run is lost, with or without the futures group. *)
Example only_futures_throws :
  let futures := (lit "futures",
                  {| title := lit "futures";
                     symbols := [{| symbol := lit "CL"; name := lit "Oil" |}] |}) in
  fetchAllPrices Stub.math_random Stub.offline [futures] []
  = (Throw TypeError, [], [])
  /\ fetchAllPrices Stub.math_random Stub.offline [] []
     = (Throw TypeError, [], []).
Proof. split; reflexivity. Qed.

(** * Further properties *)

(** ** Objects: defining and reading properties *)

Lemma assoc_app {A : Type} (k : jsstring) (o1 o2 : list (jsstring * A)) :
  assoc k (o1 ++ o2)
  = match assoc k o1 with Some a => Some a | None => assoc k o2 end.
Proof.
  induction o1 as [|[k1 a1] o1 IH]; simpl; [reflexivity|].
  now destruct (str_eqb k1 k).
Qed.

Lemma assoc_replace {A : Type} (o : object A) (k k' : jsstring) (a : A) :
  assoc k (replace o k' a)
  = match assoc k' o with
    | Some _ => if str_eqb k' k then Some a else assoc k o
    | None => assoc k o
    end.
Proof.
  induction o as [|[k1 a1] o IH]; simpl; [reflexivity|].
  destruct (str_eqb k1 k') eqn:E1; simpl.
  - apply str_eqb_eq in E1. subst k1. now destruct (str_eqb k' k).
  - rewrite IH. destruct (str_eqb k1 k) eqn:E2.
    + apply str_eqb_eq in E2. subst k1.
      destruct (assoc k' o); [|reflexivity].
      destruct (str_eqb k' k) eqn:E3; [|reflexivity].
      apply str_eqb_eq in E3. subst k'. rewrite str_eqb_refl in E1.
      discriminate.
    + reflexivity.
Qed.

Lemma keys_replace {A : Type} (o : object A) (k : jsstring) (a : A) :
  map fst (replace o k a) = map fst o.
Proof.
  induction o as [|[k1 a1] o IH]; simpl; [reflexivity|].
  destruct (str_eqb k1 k); simpl; [reflexivity | now rewrite IH].
Qed.

Lemma assoc_define {A : Type} (o : object A) (k k' : jsstring) (a : A) :
  assoc k (define o k' a) = if str_eqb k' k then Some a else assoc k o.
Proof.
  unfold define. destruct (assoc k' o) as [a'|] eqn:E.
  - rewrite assoc_replace, E. reflexivity.
  - rewrite assoc_app. simpl.
    destruct (str_eqb k' k) eqn:E1.
    + apply str_eqb_eq in E1. subst k'. now rewrite E.
    + now destruct (assoc k o).
Qed.

Lemma keys_define {A : Type} (o : object A) (k : jsstring) (a : A) :
  map fst (define o k a)
  = match assoc k o with
    | Some _ => map fst o
    | None => map fst o ++ [k]
    end.
Proof.
  unfold define. destruct (assoc k o).
  - apply keys_replace.
  - now rewrite map_app.
Qed.

Lemma define_NoDup {A : Type} (o : object A) (k : jsstring) (a : A) :
  NoDup (map fst o) -> NoDup (map fst (define o k a)).
Proof.
  intros H. rewrite keys_define. destruct (assoc k o) eqn:E; [exact H|].
  apply assoc_none in E.
  apply NoDup_Add with (a := k) (l := map fst o).
  - rewrite <- (app_nil_r (map fst o)) at 1. apply Add_app.
  - now split.
Qed.

(** ** The report as a map from names to cells *)

(** What the report holds under a name after outcomes were stored: the cell
    of the last outcome stored under it, else what was there; nothing is
    ever stored under [__proto__]. *)
Lemma assoc_store (k : jsstring) (outs : list (entry * option quote)) :
  forall results : object cell,
    assoc k (store results outs)
    = if str_eqb k (lit "__proto__") then assoc k results
      else match last_named k outs with
           | Some c => Some c
           | None => assoc k results
           end.
Proof.
  unfold store. induction outs as [|eo outs IH]; intros results; simpl.
  - now destruct (str_eqb k (lit "__proto__")).
  - rewrite IH. destruct (str_eqb k (lit "__proto__")) eqn:Ep.
    + unfold set. destruct (str_eqb (name (fst eo)) (lit "__proto__")) eqn:En;
        [reflexivity|].
      rewrite assoc_define. destruct (str_eqb (name (fst eo)) k) eqn:Ek;
        [|reflexivity].
      apply str_eqb_eq in Ek. rewrite Ek in En. congruence.
    + destruct (last_named k outs); [reflexivity|].
      unfold set. destruct (str_eqb (name (fst eo)) (lit "__proto__")) eqn:En.
      * destruct (str_eqb (name (fst eo)) k) eqn:Ek; [|reflexivity].
        apply str_eqb_eq in Ek. rewrite Ek in En. congruence.
      * rewrite assoc_define. now destruct (str_eqb (name (fst eo)) k).
Qed.

Lemma store_NoDup (outs : list (entry * option quote)) :
  forall results : object cell,
    NoDup (map fst results) -> NoDup (map fst (store results outs)).
Proof.
  unfold store. induction outs as [|eo outs IH]; intros results H; simpl.
  - exact H.
  - apply IH. unfold set.
    destruct (str_eqb (name (fst eo)) (lit "__proto__")); [exact H|].
    now apply define_NoDup.
Qed.

Lemma store_length (outs : list (entry * option quote)) :
  forall results : object cell,
    (List.length (store results outs)
     <= List.length results + List.length outs)%nat.
Proof.
  unfold store. induction outs as [|eo outs IH]; intros results; simpl.
  - lia.
  - specialize (IH (set results (name (fst eo)) (cell_of (snd eo)))).
    assert (L : (List.length (set results (name (fst eo)) (cell_of (snd eo)))
                 <= S (List.length results))%nat).
    { unfold set, define.
      destruct (str_eqb (name (fst eo)) (lit "__proto__")); [lia|].
      destruct (assoc (name (fst eo)) results).
      - rewrite <- (length_map fst), keys_replace, length_map. lia.
      - rewrite length_app. simpl. lia. }
    lia.
Qed.

(** ** The aggregator, further *)

Section Aggregator.

Variable W : Type.
Variable math_random : W -> Q * W.
Variable axios_get : request -> W -> http * W.

Lemma symbols_of_entries (wl : watchlist) (key : jsstring) (w : W) :
  object_prototype key = None ->
  symbols_of wl key w
  = match group_entries wl key with
    | Some es => (Ret es, w, [])
    | None => (Throw TypeError, w, [])
    end.
Proof.
  intros H. unfold symbols_of, lookup, group_entries.
  destruct (assoc key wl); simpl; [reflexivity|]. now rewrite H.
Qed.

(** A loop over an adapter whose quotes can all be formatted returns. *)
Lemma for_of_returns (fetch : jsstring -> M W (option quote)) :
  (forall sym w, exists o w' t,
      fetch sym w = (Ret o, w', t) /\ printable o) ->
  forall entries results w, exists r w' t,
    for_of fetch entries results w = (Ret r, w', t).
Proof.
  intros H entries. induction entries as [|e rest IH]; intros results w.
  - now exists results, w, [].
  - destruct (H (symbol e) w) as (o & w1 & t1 & E & P).
    destruct (IH (set results (name e) (cell_of o)) w1) as (r & w2 & t2 & E2).
    exists r, w2, (t1 ++ [] ++ t2). simpl. unfold bind.
    now rewrite E, (render_printable W o w1 P), E2.
Qed.

Lemma china_printable (sym : jsstring) (w : W) :
  exists o w' t,
    fetchChinaStock axios_get sym w = (Ret o, w', t) /\ printable o.
Proof.
  destruct (china_fetch W axios_get sym w) as (o & w' & t & E & _ & P).
  now exists o, w', t.
Qed.

Lemma gold_printable (sym : jsstring) (w : W) :
  exists o w' t,
    fetchGold math_random sym w = (Ret o, w', t) /\ printable o.
Proof.
  destruct (gold_fetch W math_random sym w) as (o & w' & t & E & _ & P).
  now exists o, w', t.
Qed.

(** The result of the aggregator depends on the watchlist through the
    entries of its four groups only. *)
Lemma fetchAllPrices_groups (wl wl' : watchlist) (w : W) :
  (forall key, In key bound_keys ->
               group_entries wl key = group_entries wl' key) ->
  fetchAllPrices math_random axios_get wl w
  = fetchAllPrices math_random axios_get wl' w.
Proof.
  intros H.
  assert (S : forall key, In key bound_keys ->
              symbols_of (W := W) wl key = symbols_of wl' key).
  { intros key I. unfold symbols_of, lookup.
    specialize (H key I). unfold group_entries in H.
    destruct (assoc key wl) as [g|], (assoc key wl') as [g'|];
      simpl in H; try discriminate; [|reflexivity].
    now injection H as ->. }
  unfold fetchAllPrices.
  rewrite (S (lit "stocks")), (S (lit "hkstocks")), (S (lit "gold")),
    (S (lit "crypto")); [reflexivity|..]; simpl; auto 6.
Qed.

(** A watchlist that lacks one of the four groups makes the aggregator
    throw a [TypeError]: there is no report. *)
Lemma fetchAllPrices_missing (wl : watchlist) (w : W) :
  (exists key, In key bound_keys /\ group_entries wl key = None) ->
  outcome_of (fetchAllPrices math_random axios_get wl w) = Throw TypeError.
Proof.
  intros (key & I & Hk).
  unfold fetchAllPrices, bind.
  rewrite (symbols_of_entries wl (lit "stocks") w eq_refl).
  destruct (group_entries wl (lit "stocks")) as [s|] eqn:Gs; [|reflexivity].
  destruct (for_of_returns _ china_printable s [] w) as (r1 & w1 & t1 & E1).
  rewrite E1.
  rewrite (symbols_of_entries wl (lit "hkstocks") w1 eq_refl).
  destruct (group_entries wl (lit "hkstocks")) as [h|] eqn:Gh; [|reflexivity].
  destruct (for_of_returns _ china_printable h r1 w1) as (r2 & w2 & t2 & E2).
  rewrite E2.
  rewrite (symbols_of_entries wl (lit "gold") w2 eq_refl).
  destruct (group_entries wl (lit "gold")) as [g|] eqn:Gg; [|reflexivity].
  destruct (for_of_returns _ gold_printable g r2 w2) as (r3 & w3 & t3 & E3).
  rewrite E3.
  rewrite (symbols_of_entries wl (lit "crypto") w3 eq_refl).
  destruct (group_entries wl (lit "crypto")) as [c|] eqn:Gc; [|reflexivity].
  exfalso. simpl in I.
  destruct I as [<-|[<-|[<-|[<-|[]]]]]; congruence.
Qed.

End Aggregator.

(** X9: the report is a map from display names to cells. With the four
    groups present and crypto quotes that can be formatted (a change that
    is a number, a price that converts to a string), its keys are pairwise
    distinct, it has at most one entry per configured entry, it holds
    nothing under [__proto__], and under any other name it holds the cell of
    the last entry of that name in the order of the visit. *)
Theorem fetchAllPrices_last_name_wins
    (W : Type) (math_random : W -> Q * W)
    (axios_get : request -> W -> http * W)
    (wl : watchlist) (stocks hkstocks gold crypto : list entry) (w : W) :
  group_entries wl (lit "stocks") = Some stocks ->
  group_entries wl (lit "hkstocks") = Some hkstocks ->
  group_entries wl (lit "gold") = Some gold ->
  group_entries wl (lit "crypto") = Some crypto ->
  crypto_quotes_printable axios_get crypto ->
  exists outs r w' t,
    visit_all math_random axios_get stocks hkstocks gold crypto w
    = (Ret outs, w', t)
    /\ map fst outs = stocks ++ hkstocks ++ gold ++ crypto
    /\ fetchAllPrices math_random axios_get wl w = (Ret r, w', t)
    /\ NoDup (map fst r)
    /\ (List.length r
        <= List.length (stocks ++ hkstocks ++ gold ++ crypto))%nat
    /\ assoc (lit "__proto__") r = None
    /\ forall k, k <> lit "__proto__" -> assoc k r = last_named k outs.
Proof.
  intros Hs Hh Hg Hc Hn.
  destruct (fetchAllPrices_visit W math_random axios_get wl
              stocks hkstocks gold crypto w Hs Hh Hg Hc Hn)
    as (outs & w' & t & Hv & Hm & _ & Hf & _).
  exists outs, (store [] outs), w', t.
  split; [exact Hv|]. split; [exact Hm|]. split; [exact Hf|].
  split; [apply store_NoDup; constructor|].
  split; [rewrite <- Hm, length_map; apply (store_length outs [])|].
  split.
  - now rewrite assoc_store, str_eqb_refl.
  - intros k Hk. rewrite assoc_store.
    apply str_eqb_neq in Hk. rewrite Hk. now destruct (last_named k outs).
Qed.

(** Two entries named Index, both down. *)
Lemma fetchAllPrices_last_name_wins_witness :
  exists outs r w' t,
    visit_all Stub.math_random Stub.offline
      (entries_of same_name (lit "stocks")) [] [] [] []
    = (Ret outs, w', t)
    /\ map fst outs = entries_of same_name (lit "stocks") ++ [] ++ [] ++ []
    /\ fetchAllPrices Stub.math_random Stub.offline same_name [] = (Ret r, w', t)
    /\ NoDup (map fst r)
    /\ (List.length r
        <= List.length (entries_of same_name (lit "stocks") ++ [] ++ [] ++ []))%nat
    /\ assoc (lit "__proto__") r = None
    /\ forall k, k <> lit "__proto__" -> assoc k r = last_named k outs.
Proof.
  exact (fetchAllPrices_last_name_wins Stub.world Stub.math_random
           Stub.offline same_name _ _ _ _ [] eq_refl eq_refl eq_refl eq_refl
           (offline_crypto_printable [])).
Defined.

(** X10: the aggregator reads the watchlist through the entries of the groups
    stocks, hkstocks, gold and crypto only: two watchlists that agree on
    them give the same result, the same requests and the same final
    environment, whatever their other keys, the order of their keys and the
    titles of their groups. *)
Theorem fetchAllPrices_reads_four_groups
    (W : Type) (math_random : W -> Q * W)
    (axios_get : request -> W -> http * W)
    (wl wl' : watchlist) (w : W) :
  (forall key, In key bound_keys ->
               group_entries wl key = group_entries wl' key) ->
  fetchAllPrices math_random axios_get wl w
  = fetchAllPrices math_random axios_get wl' w.
Proof. apply fetchAllPrices_groups. Qed.

Lemma fetchAllPrices_reads_four_groups_witness :
  fetchAllPrices Stub.math_random (Stub.axios_get some_routes) crypto_first []
  = fetchAllPrices Stub.math_random (Stub.axios_get some_routes) crypto_last [].
Proof.
  apply (fetchAllPrices_reads_four_groups Stub.world Stub.math_random
           (Stub.axios_get some_routes) crypto_first crypto_last []).
  intros key [<-|[<-|[<-|[<-|[]]]]]; reflexivity.
Defined.

(** X11: a watchlist that lacks one of the groups stocks, hkstocks, gold and
    crypto makes the aggregator throw a [TypeError] instead of returning a
    report; when it is the stocks group, nothing was requested before. *)
Theorem fetchAllPrices_missing_group
    (W : Type) (math_random : W -> Q * W)
    (axios_get : request -> W -> http * W)
    (wl : watchlist) (w : W) :
  (exists key, In key bound_keys /\ group_entries wl key = None) ->
  outcome_of (fetchAllPrices math_random axios_get wl w) = Throw TypeError
  /\ (group_entries wl (lit "stocks") = None ->
      fetchAllPrices math_random axios_get wl w = (Throw TypeError, w, [])).
Proof.
  intros H. split; [now apply fetchAllPrices_missing|].
  intros Hs. unfold fetchAllPrices, bind.
  rewrite (symbols_of_entries W wl (lit "stocks") w eq_refl). now rewrite Hs.
Qed.

(** Without the Hong Kong group the stock is requested and the run lost. *)
Lemma fetchAllPrices_missing_group_witness :
  outcome_of (fetchAllPrices Stub.math_random Stub.offline no_hkstocks [])
  = Throw TypeError
  /\ (group_entries no_hkstocks (lit "stocks") = None ->
      fetchAllPrices Stub.math_random Stub.offline no_hkstocks []
      = (Throw TypeError, [], [])).
Proof.
  apply (fetchAllPrices_missing_group Stub.world Stub.math_random
           Stub.offline no_hkstocks []).
  exists (lit "hkstocks"). split; [simpl; auto | reflexivity].
Defined.

(** ** The regional-exchange adapter, further *)

Lemma span_unquoted_spec (s : jsstring) :
  let (run, rest) := span_unquoted s in
  s = run ++ rest /\ ~ In dquote run
  /\ (rest = [] \/ exists rest', rest = dquote :: rest').
Proof.
  induction s as [|c r IH]; simpl.
  - repeat split; auto.
  - destruct (c =? dquote)%N eqn:E.
    + apply N.eqb_eq in E. subst c. repeat split; eauto.
    + destruct (span_unquoted r) as [run rest].
      destruct IH as (-> & Hn & Hr). repeat split; auto.
      intros [->|I]; [now rewrite N.eqb_refl in E | now apply Hn].
Qed.

(** What the pattern captures stands in the text between two double quotes,
    is not empty and has no double quote in it. *)
Lemma match_quoted_sound (s inner : jsstring) :
  match_quoted s = Some inner ->
  inner <> [] /\ ~ In dquote inner
  /\ exists pre post, s = pre ++ quoted inner ++ post.
Proof.
  revert inner. induction s as [|c r IH]; intros inner H; simpl in H.
  - discriminate.
  - assert (Rec : match_quoted r = Some inner ->
                  inner <> [] /\ ~ In dquote inner
                  /\ exists pre post, c :: r = pre ++ quoted inner ++ post).
    { intros Hr. destruct (IH inner Hr) as (Hn & Hq & pre & post & ->).
      repeat split; auto. now exists (c :: pre), post. }
    destruct (c =? dquote)%N eqn:E; [|now apply Rec].
    apply N.eqb_eq in E. subst c.
    pose proof (span_unquoted_spec r) as S.
    destruct (span_unquoted r) as [run rest].
    destruct S as (-> & Hq & Hr).
    destruct run as [|x run]; [now apply Rec|].
    destruct rest as [|y rest]; [now apply Rec|].
    injection H as <-.
    destruct Hr as [Hr|[rest' Hr]]; [discriminate|]. injection Hr as -> ->.
    split; [discriminate|]. split; [exact Hq|].
    exists [], rest'. unfold quoted. simpl. now rewrite <- app_assoc.
Qed.

(** The pattern matches as soon as the text has a non-empty run between two
    double quotes. *)
Lemma match_quoted_complete (pre inner post : jsstring) :
  inner <> [] -> ~ In dquote inner ->
  match_quoted (pre ++ quoted inner ++ post) <> None.
Proof.
  intros Hn Hq. induction pre as [|c pre IH].
  - unfold quoted. simpl. rewrite <- app_assoc. simpl.
    rewrite span_unquoted_run by assumption.
    destruct inner; [contradiction | discriminate].
  - change ((c :: pre) ++ quoted inner ++ post)
      with (c :: (pre ++ quoted inner ++ post)).
    remember (pre ++ quoted inner ++ post) as s eqn:Es. clear Es. simpl.
    destruct (c =? dquote)%N; [|exact IH].
    destruct (span_unquoted s) as [[|x run] rest]; [exact IH|].
    destruct rest; [exact IH | discriminate].
Qed.

(** With an empty first pair of double quotes the pattern captures what
    stands between that pair and the next double quote. *)
Lemma match_quoted_after_empty (pre mid post : jsstring) :
  ~ In dquote pre -> mid <> [] -> ~ In dquote mid ->
  match_quoted (pre ++ quoted [] ++ mid ++ dquote :: post) = Some mid.
Proof.
  intros Hp Hn Hq. induction pre as [|c pre IH]; simpl.
  - rewrite span_unquoted_run by assumption.
    destruct mid; [contradiction | reflexivity].
  - destruct (c =? dquote)%N eqn:E.
    + apply N.eqb_eq in E. exfalso. apply Hp. now left.
    + apply IH. intros I. apply Hp. now right.
Qed.

(** X1: the adapter sends one request per call, to the quote endpoint for the
    symbol as it is given and with the Referer header, whatever it is
    answered: a rejected request is not sent again, and nothing is thrown.
*)
Theorem fetchChinaStock_single_request
    (W : Type) (axios_get : request -> W -> http * W)
    (sym : jsstring) (w : W) :
  exists o,
    outcome_of (fetchChinaStock axios_get sym w) = Ret o
    /\ requests (trace_of (fetchChinaStock axios_get sym w))
       = [ {| url := lit "https://hq.sinajs.cn/list=" ++ sym;
              referer := Some (lit "http://finance.sina.com.cn") |} ]
    /\ gets (trace_of (fetchChinaStock axios_get sym w)) = 1%nat
    /\ (fst (axios_get (china_request sym) w) = Rejected -> o = None).
Proof.
  destruct (fetchChinaStock_run W axios_get sym w) as (o & t & E & G & _).
  exists o. rewrite E. unfold outcome_of, trace_of. simpl.
  split; [reflexivity|].
  assert (R : requests (EvGet (china_request sym) :: t) = [china_request sym]).
  { change (EvGet (china_request sym) :: t)
      with ([EvGet (china_request sym)] ++ t).
    now rewrite requests_app, (requests_none t G). }
  split; [exact R|]. split; [now rewrite gets_requests, R|].
  intros Hr. revert E. unfold fetchChinaStock, try_catch, bind, get.
  destruct (axios_get (china_request sym) w) as [h w']. simpl in Hr. subst h.
  simpl. now intros [= <- _].
Qed.

(** X2: the adapter gives a quote exactly when the response data is a string
    that has no [null] in it, at least 32 code units, and a non-empty run
    between two double quotes. *)
Theorem fetchChinaStock_success_iff
    (W : Type) (axios_get : request -> W -> http * W)
    (sym : jsstring) (w : W) :
  (exists q, outcome_of (fetchChinaStock axios_get sym w) = Ret (Some q))
  <-> (exists body pre inner post,
          fst (axios_get (china_request sym) w) = Response (VStr body)
          /\ includes body (lit "null") = false
          /\ (32 <= List.length body)%nat
          /\ body = pre ++ quoted inner ++ post
          /\ inner <> [] /\ ~ In dquote inner).
Proof.
  unfold fetchChinaStock, try_catch, bind, get, outcome_of.
  destruct (axios_get (china_request sym) w) as [[|d] w']; simpl.
  - split; [intros [q H]; discriminate | intros (b & _ & _ & _ & H & _)].
    discriminate.
  - destruct d as [| |b|n|body|items|fs]; simpl.
    5: {
      destruct (includes body (lit "null")) eqn:Hn; simpl.
      { split; [intros [q H]; discriminate|].
        intros (b & _ & _ & _ & [= <-] & Hn' & _). congruence. }
      destruct (List.length body <? 32)%nat eqn:Hl; simpl.
      { split; [intros [q H]; discriminate|].
        intros (b & _ & _ & _ & [= <-] & _ & Hl' & _).
        apply Nat.ltb_lt in Hl. lia. }
      apply Nat.ltb_ge in Hl.
      destruct (match_quoted body) as [inner|] eqn:Hm; simpl.
      - split; [intros _ | intros _; eauto].
        destruct (match_quoted_sound body inner Hm)
          as (Hne & Hq & pre & post & Hb).
        exists body, pre, inner, post. auto 7.
      - split; [intros [q H]; discriminate|].
        intros (b & pre & inner & post & [= <-] & _ & _ & Hb & Hne & Hq).
        exfalso. apply (match_quoted_complete pre inner post Hne Hq).
        assert (E : body = pre ++ quoted inner ++ post) by exact Hb.
        now rewrite <- E. }
    5: destruct (existsb is_null_string items || (List.length items <? 32)%nat);
         simpl.
    all: split; [intros [q H]; discriminate|];
      intros (b0 & _ & _ & _ & H & _); discriminate.
Qed.

(** X3: when the first pair of double quotes of the body is empty, the quote is
    read from the text between that pair and the next double quote, and
    the quoted field list that follows is not looked at. *)
Theorem fetchChinaStock_empty_first_quotes
    (W : Type) (axios_get : request -> W -> http * W)
    (sym : jsstring) (w : W) (pre mid fields post : jsstring) :
  let body := pre ++ quoted [] ++ mid ++ quoted fields ++ post in
  fst (axios_get (china_request sym) w) = Response (VStr body) ->
  includes body (lit "null") = false -> (32 <= List.length body)%nat ->
  ~ In dquote pre -> mid <> [] -> ~ In dquote mid ->
  outcome_of (fetchChinaStock axios_get sym w)
  = Ret (Some {| price := VNum (parseFloat_at (split comma mid) 1);
                 change := VNum (parseFloat_at (split comma mid) 2) |})
  /\ (~ In comma mid ->
      outcome_of (fetchChinaStock axios_get sym w)
      = Ret (Some {| price := VNum NaN; change := VNum NaN |})).
Proof.
  intros body Hr Hn Hl Hp Hne Hq.
  assert (Hm : match_quoted body = Some mid).
  { unfold body, quoted at 2. simpl.
    rewrite <- app_assoc. simpl.
    apply (match_quoted_after_empty pre mid (fields ++ [dquote] ++ post));
      assumption. }
  assert (E : outcome_of (fetchChinaStock axios_get sym w)
              = Ret (Some {| price := VNum (parseFloat_at (split comma mid) 1);
                             change := VNum (parseFloat_at (split comma mid) 2) |})).
  { unfold fetchChinaStock, try_catch, bind, get, outcome_of.
    destruct (axios_get (china_request sym) w) as [h w']. simpl in Hr. subst h.
    rewrite Hn. apply Nat.ltb_ge in Hl. rewrite Hl. simpl.
    now rewrite Hm. }
  split; [exact E|].
  intros Hc. rewrite E, (split_last mid Hc). reflexivity.
Qed.

(** The answer to a request for two symbols of which the first is unknown
    to the exchange. *)
Lemma fetchChinaStock_empty_first_quotes_witness :
  let body := lit "var hq_str_sh000000=" ++ quoted []
              ++ lit "; var hq_str_sh600519="
              ++ quoted (lit "Moutai,1830.00,1835.00") ++ lit ";" in
  let routes := [(url (china_request (lit "sh000000,sh600519")), VStr body)] in
  let w : Stub.world := [] in
  outcome_of (fetchChinaStock (Stub.axios_get routes)
                (lit "sh000000,sh600519") w)
  = Ret (Some {| price :=
                   VNum (parseFloat_at
                           (split comma (lit "; var hq_str_sh600519=")) 1);
                 change :=
                   VNum (parseFloat_at
                           (split comma (lit "; var hq_str_sh600519=")) 2) |})
  /\ (~ In comma (lit "; var hq_str_sh600519=") ->
      outcome_of (fetchChinaStock (Stub.axios_get routes)
                    (lit "sh000000,sh600519") w)
      = Ret (Some {| price := VNum NaN; change := VNum NaN |})).
Proof.
  intros body routes w.
  apply (fetchChinaStock_empty_first_quotes Stub.world (Stub.axios_get routes)
           (lit "sh000000,sh600519") w
           (lit "var hq_str_sh000000=") (lit "; var hq_str_sh600519=")
           (lit "Moutai,1830.00,1835.00") (lit ";")).
  - reflexivity.
  - reflexivity.
  - vm_compute. lia.
  - vm_compute. intuition discriminate.
  - discriminate.
  - vm_compute. intuition discriminate.
Defined.

(** ** The cryptocurrency adapter, further *)

Lemma idMap_identity (sym id : jsstring) :
  assoc sym idMap = Some id -> id = sym /\ coin_key sym = sym.
Proof.
  intros H. assert (E : id = sym).
  { unfold idMap in H. cbn [assoc] in H.
    repeat match type of H with
           | (if ?c then _ else _) = _ =>
               let Hc := fresh in
               destruct c eqn:Hc; [apply str_eqb_eq in Hc|]
           end; congruence. }
  split; [exact E|]. unfold coin_key, lookup. rewrite H. exact E.
Qed.

(** X4: for a coin of its table the adapter sends one request per call, for
    that coin's id alone, priced in cny with the 24 hour change, without
    Referer header. Nothing is thrown, whatever the answer. *)
Theorem fetchCrypto_known_request
    (W : Type) (axios_get : request -> W -> http * W)
    (sym id : jsstring) (w : W) :
  assoc sym idMap = Some id ->
  (exists o, outcome_of (fetchCrypto axios_get sym w) = Ret o)
  /\ trace_of (fetchCrypto axios_get sym w)
     = [EvGet {| url := lit "https://api.coingecko.com/api/v3/simple/price?ids="
                        ++ sym
                        ++ lit "&vs_currencies=cny&include_24hr_change=true";
                 referer := None |}].
Proof.
  intros H. destruct (idMap_identity sym id H) as [_ K].
  destruct (fetchCrypto_run W axios_get sym w) as (o & E & _).
  rewrite E. unfold outcome_of, trace_of, crypto_request. simpl.
  rewrite K. eauto.
Qed.

Lemma fetchCrypto_known_request_witness :
  (exists o, outcome_of (fetchCrypto Stub.offline (lit "ethereum") []) = Ret o)
  /\ trace_of (fetchCrypto Stub.offline (lit "ethereum") [])
     = [EvGet {| url := lit "https://api.coingecko.com/api/v3/simple/price?ids="
                        ++ lit "ethereum"
                        ++ lit "&vs_currencies=cny&include_24hr_change=true";
                 referer := None |}].
Proof.
  apply (fetchCrypto_known_request Stub.world Stub.offline
           (lit "ethereum") (lit "ethereum") []).
  reflexivity.
Defined.

(** X5: the adapter gives a quote exactly when the response data is an object
    with a truthy entry under the key of the coin; the quote is then the
    [cny] and the [cny_24h_change] of that entry as they are. A missing
    key, an entry that is 0, empty, false or [null], data that is no
    object, and a rejected request give none. *)
Theorem fetchCrypto_quote_iff
    (W : Type) (axios_get : request -> W -> http * W)
    (sym : jsstring) (w : W) (q : quote) :
  outcome_of (fetchCrypto axios_get sym w) = Ret (Some q)
  <-> (exists fs data,
          fst (axios_get (crypto_request sym) w) = Response (VObj fs)
          /\ assoc (coin_key sym) fs = Some data
          /\ truthy data = true
          /\ q = {| price := field data (lit "cny");
                    change := field data (lit "cny_24h_change") |}).
Proof.
  unfold fetchCrypto, try_catch, bind, get, outcome_of.
  destruct (axios_get (crypto_request sym) w) as [[|d] w']; simpl.
  - split; [discriminate | intros (fs & data & H & _); discriminate].
  - destruct d as [| |b|n|body|items|fs]; simpl;
      try (split; [discriminate | intros (fs0 & data & H & _); discriminate]).
    destruct (assoc (coin_key sym) fs) as [data|] eqn:Ha; simpl.
    + destruct (truthy data) eqn:T; simpl.
      * split.
        -- intros [= <-]. now exists fs, data.
        -- intros (fs0 & data0 & [= <-] & Hd & _ & ->).
           rewrite Ha in Hd. now injection Hd as <-.
      * split; [discriminate|].
        intros (fs0 & data0 & [= <-] & Hd & T0 & _).
        rewrite Ha in Hd. injection Hd as <-. congruence.
    + split; [discriminate|].
      intros (fs0 & data0 & [= <-] & Hd & _). congruence.
Qed.

(** ** The metals adapter, further *)

(** X6: the adapter never sends a request and never throws. It draws one
    random number when its table, or what the table inherits, has the
    symbol, and then gives a quote; otherwise it gives none and leaves the
    generator as it was. *)
Theorem fetchGold_effects
    (W : Type) (math_random : W -> Q * W) (sym : jsstring) (w : W) :
  gets (trace_of (fetchGold math_random sym w)) = 0%nat
  /\ match lookup mockData sym with
     | Missing => fetchGold math_random sym w = (Ret None, w, [])
     | _ => exists q,
           fetchGold math_random sym w
           = (Ret (Some q), snd (math_random w), [EvRandom])
     end.
Proof.
  unfold lookup.
  destruct (assoc sym mockData) as [d|] eqn:H1.
  - rewrite (fetchGold_own W math_random sym d w H1). split; [reflexivity|].
    eauto.
  - destruct (object_prototype sym) as [m|] eqn:H2.
    + rewrite (fetchGold_inherited W math_random sym m w H1 H2).
      split; [reflexivity|]. eauto.
    + rewrite (fetchGold_missing W math_random sym w H1 H2).
      split; reflexivity.
Qed.

(** X7: for an instrument of the table and a draw in [0, 1) the price of the
    quote is within 1 of the base price and its change within
    0.1 + 2^-53 of the baseline change, bounds included; both are
    positive, and the line of the quote is formatted as a gain. *)
Theorem fetchGold_always_up
    (W : Type) (math_random : W -> Q * W)
    (sym : jsstring) (d : Mock.metal) (w : W) :
  assoc sym mockData = Some d ->
  is_double (fst (math_random w)) = true ->
  0 <= fst (math_random w) -> fst (math_random w) < 1 ->
  exists p c,
    outcome_of (fetchGold math_random sym w)
    = Ret (Some {| price := VNum (Num p); change := VNum (Num c) |})
    /\ Qabs (p - Mock.base d) <= 1
    /\ Qabs (c - Mock.change d) <= (1 # 10) + (1 # 2 ^ 53)
    /\ 0 < p /\ 0 < c
    /\ outcome_of (bind (fetchGold math_random sym) (render (W := W)) w)
       = Ret (Line (VNum (Num p)) true (Num c)).
Proof.
  intros Hd Dr R0 R1.
  destruct (fetchGold_quote W math_random sym d w Hd Dr R0 R1)
    as (p & c & v & E & _ & _ & _ & _ & _ & Bp & Bc & _ & _).
  assert (Bd : 2 <= Mock.base d /\ (2 # 10) + (1 # 2 ^ 53) < Mock.change d).
  { destruct (mockData_entries sym d Hd) as [-> | ->];
      split; vm_compute; congruence. }
  destruct Bd as [Bb Bc'].
  assert (Pc : 0 < c) by lra.
  assert (G : Qle_bool 0 c = true).
  { apply Qle_bool_iff. lra. }
  exists p, c. unfold bind. rewrite E. unfold outcome_of.
  cbn [fst snd render formatPrice price change ret geq0 converts_to_string].
  split; [reflexivity|].
  split; [apply Qabs_Qle_condition; split; lra|].
  split; [apply Qabs_Qle_condition; split; lra|].
  split; [lra|]. split; [exact Pc|].
  now rewrite G.
Qed.

Lemma fetchGold_always_up_witness :
  exists p c,
    outcome_of (fetchGold Stub.math_random (lit "AU9999") [7 # 8])
    = Ret (Some {| price := VNum (Num p); change := VNum (Num c) |})
    /\ Qabs (p - 620) <= 1
    /\ Qabs (c - literal (3 # 10)) <= (1 # 10) + (1 # 2 ^ 53)
    /\ 0 < p /\ 0 < c
    /\ outcome_of (bind (fetchGold Stub.math_random (lit "AU9999"))
                     (render (W := Stub.world)) [7 # 8])
       = Ret (Line (VNum (Num p)) true (Num c)).
Proof.
  apply (fetchGold_always_up Stub.world Stub.math_random (lit "AU9999")
           {| Mock.base := 620; Mock.change := literal (3 # 10) |} [7 # 8]).
  - reflexivity.
  - reflexivity.
  - vm_compute. discriminate.
  - reflexivity.
Defined.

(** The bounds are reached: the largest double below 1 gives the price
    base + 1. *)
Example fetchGold_upper_bound_reached :
  let r := 1 - (1 # 2 ^ 53) in
  is_double r = true
  /\ exists c,
       outcome_of (fetchGold Stub.math_random (lit "XAUUSD") [r])
       = Ret (Some {| price := VNum (Num 2651); change := VNum (Num c) |}).
Proof. split; [vm_compute; reflexivity|]. eexists. vm_compute. reflexivity. Qed.

(** ** Formatting the outcomes *)

(** X8: formatting what the regional-exchange adapter or the metals adapter
    returned never throws. Formatting what the cryptocurrency adapter
    returned throws, a [TypeError], exactly when it is a quote whose change
    is not a number or whose price does not convert to a string; otherwise
    it gives the cell of the outcome. *)
Theorem render_throws_iff
    (W : Type) (math_random : W -> Q * W)
    (axios_get : request -> W -> http * W) (sym : jsstring) (w : W) :
  (exists c, outcome_of (bind (fetchChinaStock axios_get sym)
                           (render (W := W)) w) = Ret c)
  /\ (exists c, outcome_of (bind (fetchGold math_random sym)
                              (render (W := W)) w) = Ret c)
  /\ (outcome_of (bind (fetchCrypto axios_get sym) (render (W := W)) w)
      = Throw TypeError
      <-> exists q,
            outcome_of (fetchCrypto axios_get sym w) = Ret (Some q)
            /\ ((forall n, change q <> VNum n)
                \/ converts_to_string (price q) = false))
  /\ (forall o,
        outcome_of (fetchCrypto axios_get sym w) = Ret o -> printable o ->
        outcome_of (bind (fetchCrypto axios_get sym) (render (W := W)) w)
        = Ret (cell_of o)).
Proof.
  split; [|split; [|split]].
  - destruct (china_printable W axios_get sym w) as (o & w' & t & E & P).
    exists (cell_of o). unfold bind. rewrite E.
    now rewrite (render_printable W o w' P).
  - destruct (gold_printable W math_random sym w) as (o & w' & t & E & P).
    exists (cell_of o). unfold bind. rewrite E.
    now rewrite (render_printable W o w' P).
  - destruct (fetchCrypto_run W axios_get sym w) as (o & E & _).
    unfold bind. rewrite E. unfold outcome_of. cbn [fst].
    destruct o as [[p c]|]; cbn [render price change].
    + unfold formatPrice.
      destruct c as [| |b|n|s|items|fs];
        try (split; [intros _; eexists; split; [reflexivity|];
                     left; intros n0; cbn [change]; discriminate
                    | reflexivity]).
      destruct (converts_to_string p) eqn:Cp.
      * split; [discriminate|].
        intros (q & [= <-] & [H|H]); cbn [price change] in H.
        -- exfalso. now apply (H n).
        -- congruence.
      * split; [|reflexivity].
        intros _. eexists. split; [reflexivity|]. right. exact Cp.
    + split; [discriminate | intros (q & H & _); discriminate].
  - intros o Ho P.
    destruct (fetchCrypto_run W axios_get sym w) as (o' & E & _).
    rewrite E in Ho. unfold outcome_of in Ho. cbn [fst] in Ho.
    injection Ho as ->.
    unfold bind. rewrite E. now rewrite (render_printable W o _ P).
Qed.

(** ** Reading the configuration *)

Lemma assoc_spread {A : Type} (k : jsstring) (b : object A) :
  NoDup (map fst b) ->
  forall a : object A,
    assoc k (spread a b)
    = match assoc k b with Some v => Some v | None => assoc k a end.
Proof.
  unfold spread. induction b as [|[k1 v1] b IH]; intros Hd a; simpl.
  - reflexivity.
  - inversion Hd as [|? ? Hn Hd']; subst.
    rewrite (IH Hd'), assoc_define.
    destruct (str_eqb k1 k) eqn:E; [|reflexivity].
    apply str_eqb_eq in E. subst k1.
    apply assoc_none in Hn. now rewrite Hn.
Qed.

Lemma spread_keeps {A : Type} (k : jsstring) (b : object A) :
  forall a : object A, assoc k a <> None -> assoc k (spread a b) <> None.
Proof.
  unfold spread. induction b as [|[k1 v1] b IH]; intros a H; simpl.
  - exact H.
  - apply IH. rewrite assoc_define.
    destruct (str_eqb k1 k); [discriminate | exact H].
Qed.

Lemma spread_keys {A : Type} (b : object A) :
  forall a : object A,
    exists extra, map fst (spread a b) = map fst a ++ extra.
Proof.
  unfold spread. induction b as [|[k1 v1] b IH]; intros a; simpl.
  - exists []. now rewrite app_nil_r.
  - destruct (IH (define a k1 v1)) as [extra E]. rewrite E, keys_define.
    destruct (assoc k1 a).
    + now exists extra.
    + exists (k1 :: extra). now rewrite <- app_assoc.
Qed.

Lemma group_entries_some (wl : watchlist) (key : jsstring) :
  group_entries wl key <> None ->
  group_entries wl key = Some (entries_of wl key).
Proof.
  unfold entries_of. now destruct (group_entries wl key).
Qed.

Lemma load_watchlist_bound (f : config_file) (key : jsstring) :
  In key bound_keys ->
  group_entries (load_watchlist f) key
  = Some (entries_of (load_watchlist f) key).
Proof.
  intros I. apply group_entries_some. unfold group_entries.
  assert (D : assoc key DEFAULT_WATCHLIST <> None).
  { simpl in I. destruct I as [<-|[<-|[<-|[<-|[]]]]]; discriminate. }
  assert (L : assoc key (load_watchlist f) <> None).
  { destruct f; simpl; try exact D. now apply spread_keeps. }
  now destruct (assoc key (load_watchlist f)).
Qed.

Lemma insert_sorted_in (n : N) (k : jsstring) (l : list (N * jsstring))
    (x : N * jsstring) :
  In x (insert_sorted n k l) -> x = (n, k) \/ In x l.
Proof.
  induction l as [|[m k'] l IH]; simpl.
  - intros [<-|[]]. now left.
  - destruct (n <? m)%N; simpl.
    + intros [<-|H]; auto.
    + intros [<-|H]; [auto|]. destruct (IH H); auto.
Qed.

(** [Object.keys]: the keys that are array indices, then the others in
    creation order. *)
Lemma keys_split {A : Type} (o : object A) :
  exists indices,
    keys o
    = indices
      ++ filter (fun k => match array_index k with
                          | Some _ => false
                          | None => true
                          end) (map fst o)
    /\ Forall (fun k => array_index k <> None) indices.
Proof.
  unfold keys. eexists. split; [reflexivity|].
  assert (F : forall ks acc,
             Forall (fun x : N * jsstring => array_index (snd x) <> None) acc ->
             Forall (fun x : N * jsstring => array_index (snd x) <> None)
               (fold_left (fun acc k => match array_index k with
                                        | Some n => insert_sorted n k acc
                                        | None => acc
                                        end) ks acc)).
  { induction ks as [|k ks IH]; intros acc H; simpl; [exact H|].
    apply IH. destruct (array_index k) as [n|] eqn:E; [|exact H].
    apply Forall_forall. intros x Hx.
    destruct (insert_sorted_in n k acc x Hx) as [->|Hin].
    - simpl. congruence.
    - rewrite Forall_forall in H. now apply H. }
  specialize (F (map fst o) [] (Forall_nil _)).
  apply Forall_forall. intros k Hk. apply in_map_iff in Hk as (x & <- & Hx).
  rewrite Forall_forall in F. now apply F.
Qed.

(** X12: for a configuration file that is absent, does not parse, or holds
    groups, the watchlist [main] works on has the four groups stocks,
    hkstocks, gold and crypto: such a file can override and add groups,
    not remove the built-in ones. In the order of [Object.keys] the four
    come together and in this order, after the keys of the file that are
    array indices and before its other keys. *)
Theorem load_watchlist_has_bound_groups (f : config_file) :
  (forall key, In key bound_keys ->
     group_entries (load_watchlist f) key
     = Some (entries_of (load_watchlist f) key))
  /\ exists indices others,
       keys (load_watchlist f) = indices ++ bound_keys ++ others
       /\ Forall (fun k => array_index k <> None) indices
       /\ Forall (fun k => array_index k = None) others.
Proof.
  split.
  - apply load_watchlist_bound.
  - assert (K : exists extra,
               map fst (load_watchlist f) = bound_keys ++ extra).
    { destruct f; simpl; try (exists []; reflexivity).
      apply (spread_keys customConfig DEFAULT_WATCHLIST). }
    destruct K as [extra K].
    destruct (keys_split (load_watchlist f)) as (indices & E & Hi).
    exists indices,
      (filter (fun k => match array_index k with
                        | Some _ => false
                        | None => true
                        end) extra).
    split; [|split; [exact Hi|]].
    + rewrite E, K, filter_app. reflexivity.
    + apply Forall_forall. intros k Hk. apply filter_In in Hk as [_ Hk].
      now destruct (array_index k).
Qed.

(** A file whose keys are 5 and futures. *)
Example load_watchlist_index_key :
  let g := {| title := lit "G"; symbols := [] |} in
  keys (load_watchlist (Parsed [(lit "futures", g); (lit "5", g)]))
  = [lit "5"; lit "stocks"; lit "hkstocks"; lit "gold"; lit "crypto";
     lit "futures"].
Proof. reflexivity. Qed.

(** X13: a group of the configuration file replaces the built-in group of its
    key as a whole; the built-in groups the file does not have are kept;
    without a file that parses the watchlist is the built-in one. *)
Theorem load_watchlist_override (customConfig : watchlist) (key : jsstring) :
  NoDup (map fst customConfig) ->
  group_entries (load_watchlist (Parsed customConfig)) key
  = match group_entries customConfig key with
    | Some es => Some es
    | None => group_entries DEFAULT_WATCHLIST key
    end
  /\ load_watchlist NoFile = DEFAULT_WATCHLIST
  /\ load_watchlist Unparsable = DEFAULT_WATCHLIST.
Proof.
  intros H. split; [|split; reflexivity].
  unfold group_entries, load_watchlist.
  rewrite (assoc_spread key customConfig H).
  now destruct (assoc key customConfig).
Qed.

(** A file with a one-entry stocks group and a futures group. *)
Lemma load_watchlist_override_witness :
  let customConfig :=
    [ (lit "futures", {| title := lit "F"; symbols := [] |});
      (lit "stocks",
       {| title := lit "S";
          symbols := [ {| symbol := lit "sh600519"; name := lit "Moutai" |} ] |}) ] in
  group_entries (load_watchlist (Parsed customConfig)) (lit "stocks")
  = match group_entries customConfig (lit "stocks") with
    | Some es => Some es
    | None => group_entries DEFAULT_WATCHLIST (lit "stocks")
    end
  /\ load_watchlist NoFile = DEFAULT_WATCHLIST
  /\ load_watchlist Unparsable = DEFAULT_WATCHLIST.
Proof.
  intros customConfig.
  apply (load_watchlist_override customConfig (lit "stocks")).
  apply distinctb_NoDup. reflexivity.
Defined.

(** ** The main program *)

Lemma events_of_app (t1 t2 : list effect) :
  events_of (t1 ++ t2) = events_of t1 ++ events_of t2.
Proof. unfold events_of. apply flat_map_app. Qed.

Lemma lines_of_app (t1 t2 : list effect) :
  lines_of (t1 ++ t2) = lines_of t1 ++ lines_of t2.
Proof. unfold lines_of. apply flat_map_app. Qed.

Lemma events_of_did (t : list event) : events_of (map Did t) = t.
Proof. induction t; simpl; congruence. Qed.

Lemma lines_of_did (t : list event) : lines_of (map Did t) = [].
Proof. induction t; simpl; congruence. Qed.

Section MainFacts.

Variable W : Type.
Variable math_random : W -> Q * W.
Variable axios_get : request -> W -> http * W.
Variable locale_string : W -> jsstring * W.
Variable locale_time_string : W -> jsstring * W.

(** A loop of [main] logs one line per entry, with the cell of the outcome
    the visit of the same entries collects. *)
Lemma print_each_run (fetch : jsstring -> M W (option quote))
    (entries : list entry) :
  forall (w : W) outs w' t,
    fetch_each fetch entries w = (Ret outs, w', t) ->
    Forall (fun eo => printable (snd eo)) outs ->
    exists tr,
      print_each fetch entries w = (Ret tt, w', tr)
      /\ events_of tr = t
      /\ lines_of tr = map entry_line outs.
Proof.
  induction entries as [|e rest IH]; intros w outs w' t Hv Hp.
  - injection Hv as <- <- <-. now exists [].
  - simpl in Hv |- *. unfold bind in Hv. unfold io_bind, io_lift, log.
    destruct (fetch (symbol e) w) as [[[o|ex] w1] t1]; [|discriminate].
    destruct (fetch_each fetch rest w1) as [[[os|ex] w2] t2] eqn:Hr;
      [|discriminate].
    simpl in Hv. injection Hv as <- <- <-.
    inversion Hp as [|? ? Ho Hos]; subst. simpl in Ho.
    rewrite (render_printable W o w1 Ho).
    destruct (IH w1 os w2 t2 Hr Hos) as (tr & E & Ev & Ln).
    rewrite E. eexists. split; [reflexivity|]. split.
    + rewrite !events_of_app, events_of_did, Ev. simpl.
      now rewrite app_nil_r.
    + rewrite !lines_of_app, lines_of_did, Ln. reflexivity.
Qed.

(** The visits of the four groups, one after the other. *)
Lemma visit_groups (stocks hkstocks gold crypto : list entry) (w : W) :
  crypto_quotes_printable axios_get crypto ->
  exists a b c d w1 w2 w3 w4 t1 t2 t3 t4,
    fetch_each (fetchChinaStock axios_get) stocks w = (Ret a, w1, t1)
    /\ fetch_each (fetchChinaStock axios_get) hkstocks w1 = (Ret b, w2, t2)
    /\ fetch_each (fetchGold math_random) gold w2 = (Ret c, w3, t3)
    /\ fetch_each (fetchCrypto axios_get) crypto w3 = (Ret d, w4, t4)
    /\ (map fst a = stocks /\ map fst b = hkstocks
        /\ map fst c = gold /\ map fst d = crypto)
    /\ (Forall (fun eo => printable (snd eo)) a
        /\ Forall (fun eo => printable (snd eo)) b
        /\ Forall (fun eo => printable (snd eo)) c
        /\ Forall (fun eo => printable (snd eo)) d).
Proof.
  intros Hn.
  destruct (fetch_each_run W _ (fun s => [china_request s]) stocks
              (fun e w0 _ => china_fetch W axios_get (symbol e) w0) w)
    as (a & w1 & t1 & E1 & M1 & _ & P1).
  destruct (fetch_each_run W _ (fun s => [china_request s]) hkstocks
              (fun e w0 _ => china_fetch W axios_get (symbol e) w0) w1)
    as (b & w2 & t2 & E2 & M2 & _ & P2).
  destruct (fetch_each_run W _ (fun _ => []) gold
              (fun e w0 _ => gold_fetch W math_random (symbol e) w0) w2)
    as (c & w3 & t3 & E3 & M3 & _ & P3).
  destruct (fetch_each_run W _ (fun s => [crypto_request s]) crypto
              (fun e w0 I =>
                 crypto_fetch_printable W axios_get crypto e w0 Hn I) w3)
    as (d & w4 & t4 & E4 & M4 & _ & P4).
  exists a, b, c, d, w1, w2, w3, w4, t1, t2, t3, t4. auto 12.
Qed.


Lemma io_bind_run {A B : Type} (m : IO W A) (f : A -> IO W B)
    (w w1 w2 : W) (a : A) (r : result B) (t1 t2 : list effect) :
  m w = (Ret a, w1, t1) -> f a w1 = (r, w2, t2) ->
  io_bind m f w = (r, w2, t1 ++ t2).
Proof. intros H1 H2. unfold io_bind. now rewrite H1, H2. Qed.

Lemma log_run (l : line) (w : W) : log l w = (Ret tt, w, [Logged l]).
Proof. reflexivity. Qed.

Lemma read_clock_run (clock : W -> jsstring * W) (w : W) :
  read_clock clock w = (Ret (fst (clock w)), snd (clock w), []).
Proof. unfold read_clock. now destruct (clock w). Qed.

Lemma io_lift_run {A : Type} (m : M W A) (w w' : W) (r : result A)
    (t : list event) :
  m w = (r, w', t) -> io_lift m w = (r, w', map Did t).
Proof. intros H. unfold io_lift. now rewrite H. Qed.

Lemma read_watchlist_run (f : config_file) (w : W) :
  read_watchlist f w = (Ret (load_watchlist f), w, warning f).
Proof. now destruct f. Qed.

Lemma warning_events (f : config_file) : events_of (warning f) = [].
Proof. now destruct f. Qed.

Lemma warning_lines (f : config_file) :
  lines_of (warning f)
  = match f with Unparsable => [ConfigWarning] | _ => [] end.
Proof. now destruct f. Qed.


Lemma main_run (f : config_file) (w : W) :
  let wl := load_watchlist f in
  let stocks := entries_of wl (lit "stocks") in
  let hkstocks := entries_of wl (lit "hkstocks") in
  let gold := entries_of wl (lit "gold") in
  let crypto := entries_of wl (lit "crypto") in
  let w0 := snd (locale_string w) in
  crypto_quotes_printable axios_get crypto ->
  exists a b c d w' t tr,
    visit_all math_random axios_get stocks hkstocks gold crypto w0
    = (Ret (a ++ b ++ c ++ d), w', t)
    /\ (map fst a = stocks /\ map fst b = hkstocks
        /\ map fst c = gold /\ map fst d = crypto)
    /\ main math_random axios_get locale_string locale_time_string f w
       = (Ret tt, snd (locale_time_string w'), tr)
    /\ events_of tr = t
    /\ lines_of tr
       = screen f (fst (locale_string w)) (fst (locale_time_string w'))
           a b c d
    /\ fetchAllPrices math_random axios_get wl w0
       = (Ret (store [] (a ++ b ++ c ++ d)), w', t).
Proof.
  intros wl stocks hkstocks gold crypto w0 Hn.
  assert (Hs : group_entries wl (lit "stocks") = Some stocks)
    by (apply load_watchlist_bound; simpl; auto).
  assert (Hh : group_entries wl (lit "hkstocks") = Some hkstocks)
    by (apply load_watchlist_bound; simpl; auto).
  assert (Hg : group_entries wl (lit "gold") = Some gold)
    by (apply load_watchlist_bound; simpl; auto).
  assert (Hc : group_entries wl (lit "crypto") = Some crypto)
    by (apply load_watchlist_bound; simpl; auto 6).
  destruct (visit_groups stocks hkstocks gold crypto w0 Hn)
    as (a & b & c & d & w1 & w2 & w3 & w4 & t1 & t2 & t3 & t4
        & E1 & E2 & E3 & E4 & Hm & P1 & P2 & P3 & P4).
  destruct (print_each_run _ stocks w0 a w1 t1 E1 P1) as (r1 & Q1 & V1 & L1).
  destruct (print_each_run _ hkstocks w1 b w2 t2 E2 P2) as (r2 & Q2 & V2 & L2).
  destruct (print_each_run _ gold w2 c w3 t3 E3 P3) as (r3 & Q3 & V3 & L3).
  destruct (print_each_run _ crypto w3 d w4 t4 E4 P4) as (r4 & Q4 & V4 & L4).
  exists a, b, c, d, w4, (t1 ++ t2 ++ t3 ++ t4).
  assert (Main : exists tr,
             main math_random axios_get locale_string locale_time_string f w
             = (Ret tt, snd (locale_time_string w4), tr)
             /\ events_of tr = t1 ++ t2 ++ t3 ++ t4
             /\ lines_of tr
                = screen f (fst (locale_string w))
                    (fst (locale_time_string w4)) a b c d).
  { eexists. split.
    - unfold main. fold wl.
      repeat first
        [ eapply io_bind_run;
          [ first [ apply log_run
                  | apply read_clock_run
                  | apply read_watchlist_run
                  | apply io_lift_run; apply symbols_of_own; eassumption
                  | eassumption ] | ]
        | apply log_run ].
    - unfold screen. fold w0.
      repeat (rewrite ?events_of_app, ?lines_of_app; simpl).
      rewrite ?events_of_did, ?lines_of_did, ?warning_events, ?warning_lines.
      rewrite V1, V2, V3, V4, L1, L2, L3, L4.
      repeat (rewrite <- ?app_assoc; simpl). rewrite ?app_nil_r.
      split; reflexivity. }
  destruct Main as (tr & Em & Ev & Ln).
  exists tr. split; [|split; [exact Hm|split; [exact Em|split;
                                [exact Ev|split; [exact Ln|]]]]].
  - unfold visit_all, bind. rewrite E1, E2, E3, E4. simpl.
    now rewrite app_nil_r.
  - unfold fetchAllPrices, bind.
    rewrite (symbols_of_own W wl _ stocks w0 Hs).
    rewrite (for_of_store W _ stocks [] w0 a w1 t1 E1 P1).
    rewrite (symbols_of_own W wl _ hkstocks w1 Hh).
    rewrite (for_of_store W _ hkstocks _ w1 b w2 t2 E2 P2).
    rewrite (symbols_of_own W wl _ gold w2 Hg).
    rewrite (for_of_store W _ gold _ w2 c w3 t3 E3 P3).
    rewrite (symbols_of_own W wl _ crypto w3 Hc).
    rewrite (for_of_store W _ crypto _ w3 d w4 t4 E4 P4).
    simpl. now rewrite !store_app.
Qed.

End MainFacts.

(** X14: for a configuration file that is absent, does not parse, or holds
    groups, if the quotes the cryptocurrency adapter gets can be formatted
    (a change that is a number, a price that converts to a string), [main]
    returns. It logs its banner, four headings
    and closing lines, and under each heading one line per entry of the
    group in the configured order, names repeated or not, with the cell of
    that entry's own outcome. Its adapter events, and the environment it
    leaves apart from the clock, are those of [fetchAllPrices] on the same
    watchlist, whose report stores the same cells by name. *)
Theorem main_prints_every_entry
    (W : Type) (math_random : W -> Q * W)
    (axios_get : request -> W -> http * W)
    (locale_string locale_time_string : W -> jsstring * W)
    (f : config_file) (w : W) :
  let wl := load_watchlist f in
  let stocks := entries_of wl (lit "stocks") in
  let hkstocks := entries_of wl (lit "hkstocks") in
  let gold := entries_of wl (lit "gold") in
  let crypto := entries_of wl (lit "crypto") in
  let w0 := snd (locale_string w) in
  crypto_quotes_printable axios_get crypto ->
  exists a b c d w' t tr,
    visit_all math_random axios_get stocks hkstocks gold crypto w0
    = (Ret (a ++ b ++ c ++ d), w', t)
    /\ (map fst a = stocks /\ map fst b = hkstocks
        /\ map fst c = gold /\ map fst d = crypto)
    /\ main math_random axios_get locale_string locale_time_string f w
       = (Ret tt, snd (locale_time_string w'), tr)
    /\ events_of tr = t
    /\ lines_of tr
       = screen f (fst (locale_string w)) (fst (locale_time_string w'))
           a b c d
    /\ fetchAllPrices math_random axios_get wl w0
       = (Ret (store [] (a ++ b ++ c ++ d)), w', t).
Proof. apply main_run. Qed.

(** A configuration file that does not parse, one stock and one coin
    answering. *)
Lemma main_prints_every_entry_witness :
  let wl := load_watchlist Unparsable in
  exists a b c d w' t tr,
    visit_all Stub.math_random (Stub.axios_get some_routes)
      (entries_of wl (lit "stocks")) (entries_of wl (lit "hkstocks"))
      (entries_of wl (lit "gold")) (entries_of wl (lit "crypto"))
      (snd (stub_date [1 # 4]))
    = (Ret (a ++ b ++ c ++ d), w', t)
    /\ (map fst a = entries_of wl (lit "stocks")
        /\ map fst b = entries_of wl (lit "hkstocks")
        /\ map fst c = entries_of wl (lit "gold")
        /\ map fst d = entries_of wl (lit "crypto"))
    /\ main Stub.math_random (Stub.axios_get some_routes) stub_date stub_time
         Unparsable [1 # 4]
       = (Ret tt, snd (stub_time w'), tr)
    /\ events_of tr = t
    /\ lines_of tr
       = screen Unparsable (fst (stub_date [1 # 4])) (fst (stub_time w'))
           a b c d
    /\ fetchAllPrices Stub.math_random (Stub.axios_get some_routes) wl
         (snd (stub_date [1 # 4]))
       = (Ret (store [] (a ++ b ++ c ++ d)), w', t).
Proof.
  intros wl.
  apply (main_prints_every_entry Stub.world Stub.math_random
           (Stub.axios_get some_routes) stub_date stub_time Unparsable [1 # 4]).
  exact some_routes_printable.
Defined.

(** Two entries of one name are two lines of [main]. *)
Example main_same_name_lines :
  lines_of (trace_of_io
              (main Stub.math_random Stub.offline stub_date stub_time
                 (Parsed same_name) []))
  = [Blank; Banner (lit "2026/1/5 09:30:00"); Rule; Blank;
     Heading Stocks; EntryLine (lit "Index") Cross; EntryLine (lit "Index") Cross;
     Blank; Heading HKStocks; Blank; Heading Gold; Blank; Heading Crypto;
     Blank; Rule; Finished (lit "09:30:00"); Blank].
Proof. reflexivity. Qed.

(** ** Adding a stock *)

Lemma configured_replace (config : watchlist) (market : jsstring)
    (g : group) (e : entry) :
  assoc market config = Some g ->
  List.length (configured (replace config market
                             {| title := title g; symbols := symbols g ++ [e] |}))
  = S (List.length (configured config)).
Proof.
  unfold configured. induction config as [|[k g1] config IH]; simpl.
  - discriminate.
  - destruct (str_eqb k market) eqn:E; simpl.
    + intros [= ->]. rewrite !length_app. simpl. lia.
    + intros H. rewrite !length_app, (IH H). lia.
Qed.

Lemma addStock_run (s n market : jsstring) (config : watchlist) :
  match lookup config market with
  | Inherited _ => addStock s n market config = Throw TypeError
  | _ =>
      exists config',
        addStock s n market config = Ret config'
        /\ group_entries config' market
           = Some (entries_of config market ++ [{| symbol := s; name := n |}])
        /\ (forall key, key <> market -> assoc key config' = assoc key config)
        /\ List.length (configured config') = S (List.length (configured config))
        /\ (NoDup (map fst config) -> NoDup (map fst config'))
  end.
Proof.
  unfold addStock, lookup, entries_of, group_entries.
  destruct (assoc market config) as [g|] eqn:Ha; simpl.
  - eexists. split; [reflexivity|]. split; [|split; [|split]].
    + rewrite assoc_replace, Ha, str_eqb_refl. reflexivity.
    + intros key Hk. rewrite assoc_replace, Ha.
      assert (E : str_eqb market key = false)
        by (apply str_eqb_neq; congruence).
      now rewrite E.
    + now apply configured_replace.
    + now rewrite keys_replace.
  - destruct (object_prototype market); [reflexivity|].
    eexists. split; [reflexivity|]. split; [|split; [|split]].
    + rewrite assoc_app, Ha. simpl. now rewrite str_eqb_refl.
    + intros key Hk. rewrite assoc_app. simpl.
      assert (E : str_eqb market key = false)
        by (apply str_eqb_neq; congruence).
      rewrite E. now destruct (assoc key config).
    + unfold configured. rewrite flat_map_app, length_app. simpl. lia.
    + intros Hd. rewrite map_app. simpl.
      apply assoc_none in Ha.
      apply NoDup_Add with (a := market) (l := map fst config).
      * rewrite <- (app_nil_r (map fst config)) at 1. apply Add_app.
      * now split.
Qed.

(** X15: [addStock] appends the new entry to the group of its market, creating
    the group when the configuration has none, and leaves every other
    group as it was: the configuration has one entry more. It throws when
    the market is the name of a member of [Object.prototype] and no group
    of the configuration. *)
Theorem addStock_appends (s n market : jsstring) (config : watchlist) :
  match lookup config market with
  | Inherited _ => addStock s n market config = Throw TypeError
  | _ =>
      exists config',
        addStock s n market config = Ret config'
        /\ group_entries config' market
           = Some (entries_of config market ++ [{| symbol := s; name := n |}])
        /\ (forall key, key <> market -> assoc key config' = assoc key config)
        /\ List.length (configured config') = S (List.length (configured config))
        /\ (NoDup (map fst config) -> NoDup (map fst config'))
  end.
Proof. apply addStock_run. Qed.

Lemma addStock_other_groups (s n market : jsstring)
    (config config' : watchlist) (key : jsstring) :
  addStock s n market config = Ret config' -> key <> market ->
  group_entries config' key = group_entries config key.
Proof.
  intros H Hk. pose proof (addStock_run s n market config) as R.
  unfold group_entries.
  destruct (lookup config market); try congruence;
    destruct R as (c & E & _ & O & _); rewrite H in E; injection E as <-;
    now rewrite (O key Hk).
Qed.

(** X16: [addStock] does not look for the stock among the entries it has: adding
    the same stock twice leaves two copies of it at the end of the group.
*)
Theorem addStock_twice (s n market : jsstring) (config c1 : watchlist) :
  addStock s n market config = Ret c1 ->
  exists c2,
    addStock s n market c1 = Ret c2
    /\ group_entries c2 market
       = Some (entries_of config market
               ++ [{| symbol := s; name := n |}; {| symbol := s; name := n |}])
    /\ List.length (configured c2) = S (S (List.length (configured config))).
Proof.
  intros H1.
  pose proof (addStock_run s n market config) as R1.
  assert (G1 : group_entries c1 market
               = Some (entries_of config market
                       ++ [{| symbol := s; name := n |}])
               /\ List.length (configured c1)
                  = S (List.length (configured config))).
  { destruct (lookup config market); try congruence;
      destruct R1 as (c & E & G & _ & L & _); rewrite H1 in E;
      injection E as <-; auto. }
  destruct G1 as [G1 L1].
  pose proof (addStock_run s n market c1) as R2.
  assert (O : exists g, lookup c1 market = Own g).
  { unfold lookup. unfold group_entries in G1.
    destruct (assoc market c1) as [g|]; [eauto | discriminate]. }
  destruct O as [g O]. rewrite O in R2.
  destruct R2 as (c2 & E2 & G2 & _ & L2 & _).
  exists c2. split; [exact E2|]. split.
  - rewrite G2. unfold entries_of at 1. rewrite G1, <- app_assoc. reflexivity.
  - now rewrite L2, L1.
Qed.

Lemma addStock_twice_witness :
  exists c2,
    addStock (lit "CL") (lit "Oil") (lit "futures") with_futures = Ret c2
    /\ group_entries c2 (lit "futures")
       = Some (entries_of DEFAULT_WATCHLIST (lit "futures")
               ++ [{| symbol := lit "CL"; name := lit "Oil" |};
                   {| symbol := lit "CL"; name := lit "Oil" |}])
    /\ List.length (configured c2)
       = S (S (List.length (configured DEFAULT_WATCHLIST))).
Proof.
  apply (addStock_twice (lit "CL") (lit "Oil") (lit "futures")
           DEFAULT_WATCHLIST with_futures).
  reflexivity.
Defined.



Lemma last_named_in (outs : list (entry * option quote)) (e : entry) :
  In e (map fst outs) -> last_named (name e) outs <> None.
Proof.
  induction outs as [|eo outs IH]; simpl; [contradiction|].
  intros [<-|I].
  - destruct (last_named (name (fst eo)) outs); [discriminate|].
    rewrite str_eqb_refl. discriminate.
  - specialize (IH I). now destruct (last_named (name e) outs).
Qed.

(** X18: on a configuration that has the four groups, and when the quotes
    of its coins can be formatted, a stock added to the stocks group is
    requested by the aggregator right after the stocks that were there,
    before the other groups, and the report has a cell under its name,
    unless the name is [__proto__]. *)
Theorem addStock_stock_is_fetched
    (W : Type) (math_random : W -> Q * W)
    (axios_get : request -> W -> http * W)
    (s n : jsstring) (config : watchlist)
    (stocks hkstocks gold crypto : list entry) (w : W) :
  group_entries config (lit "stocks") = Some stocks ->
  group_entries config (lit "hkstocks") = Some hkstocks ->
  group_entries config (lit "gold") = Some gold ->
  group_entries config (lit "crypto") = Some crypto ->
  crypto_quotes_printable axios_get crypto ->
  n <> lit "__proto__" ->
  exists config' r w' t,
    addStock s n (lit "stocks") config = Ret config'
    /\ fetchAllPrices math_random axios_get config' w = (Ret r, w', t)
    /\ requests t
       = map (fun e => china_request (symbol e)) stocks
         ++ [china_request s]
         ++ map (fun e => china_request (symbol e)) hkstocks
         ++ map (fun e => crypto_request (symbol e)) crypto
    /\ assoc n r <> None.
Proof.
  intros Hs Hh Hg Hc Hn Hp.
  pose proof (addStock_run s n (lit "stocks") config) as R.
  assert (L : exists g, lookup config (lit "stocks") = Own g).
  { unfold lookup. unfold group_entries in Hs.
    destruct (assoc (lit "stocks") config) as [g|]; [eauto | discriminate]. }
  destruct L as [g L]. rewrite L in R.
  destruct R as (config' & Ea & Hs' & _).
  assert (E : entries_of config (lit "stocks") = stocks).
  { unfold entries_of. now rewrite Hs. }
  rewrite E in Hs'.
  assert (O : forall key, key <> lit "stocks" ->
              group_entries config' key = group_entries config key).
  { intros key Hk.
    apply (addStock_other_groups s n (lit "stocks") config config' key Ea Hk). }
  destruct (fetchAllPrices_visit W math_random axios_get config'
              (stocks ++ [{| symbol := s; name := n |}]) hkstocks gold crypto w)
    as (outs & w' & t & _ & Hm & Hr & Hf & _); try assumption.
  { rewrite O; [exact Hh | discriminate]. }
  { rewrite O; [exact Hg | discriminate]. }
  { rewrite O; [exact Hc | discriminate]. }
  exists config', (store [] outs), w', t.
  split; [exact Ea|]. split; [exact Hf|]. split.
  - rewrite Hr. unfold requests_of. rewrite map_app, <- app_assoc. reflexivity.
  - rewrite assoc_store.
    apply str_eqb_neq in Hp. rewrite Hp.
    assert (I : In {| symbol := s; name := n |} (map fst outs)).
    { rewrite Hm. apply in_or_app. left. apply in_or_app. right. now left. }
    pose proof (last_named_in outs _ I) as Hl. simpl in Hl.
    now destruct (last_named n outs).
Qed.

(** Adding a stock to the built-in watchlist. *)
Lemma addStock_stock_is_fetched_witness :
  exists config' r w' t,
    addStock (lit "sh601318") (lit "PingAn") (lit "stocks") DEFAULT_WATCHLIST
    = Ret config'
    /\ fetchAllPrices Stub.math_random (Stub.axios_get some_routes) config' []
       = (Ret r, w', t)
    /\ requests t
       = map (fun e => china_request (symbol e))
           (entries_of DEFAULT_WATCHLIST (lit "stocks"))
         ++ [china_request (lit "sh601318")]
         ++ map (fun e => china_request (symbol e))
              (entries_of DEFAULT_WATCHLIST (lit "hkstocks"))
         ++ map (fun e => crypto_request (symbol e))
              (entries_of DEFAULT_WATCHLIST (lit "crypto"))
    /\ assoc (lit "PingAn") r <> None.
Proof.
  refine (addStock_stock_is_fetched Stub.world Stub.math_random
            (Stub.axios_get some_routes) (lit "sh601318") (lit "PingAn")
            DEFAULT_WATCHLIST _ _ _ _ [] eq_refl eq_refl eq_refl eq_refl _ _).
  - exact some_routes_printable.
  - discriminate.
Defined.

(** ** The add command *)

(** X19: the first add, made when there is no configuration file, writes the
    built-in watchlist of the command line with the new stock, provided
    the write succeeds; when it fails, as it does where the directory of
    the file does not exist, the add ends with the error of the write.
    Read by [main], the file written replaces the four built-in groups of
    [index.js]: the stocks shown are the three of the command line and the
    new one, and the other groups are those of the command line, so that
    nine entries are shown where twelve were before. *)
Theorem first_add_replaces_builtin (s n : jsstring) :
  Cli.nonempty s = true -> Cli.nonempty n = true ->
  Cli.run [lit "add"; s; n] NoFile false = Cli.WriteFailed
  /\ exists config,
       Cli.run [lit "add"; s; n] NoFile true = Cli.Wrote config
       /\ group_entries (load_watchlist (Parsed config)) (lit "stocks")
          = Some (entries_of Cli.DEFAULT_WATCHLIST (lit "stocks")
                  ++ [{| symbol := s; name := n |}])
       /\ (forall key, In key bound_keys -> key <> lit "stocks" ->
             group_entries (load_watchlist (Parsed config)) key
             = group_entries Cli.DEFAULT_WATCHLIST key)
       /\ List.length (configured (load_watchlist (Parsed config))) = 9%nat
       /\ List.length (configured (load_watchlist NoFile)) = 12%nat.
Proof.
  intros Hs Hn. unfold Cli.run, Cli.arg. simpl nth. rewrite Hs, Hn.
  split; [reflexivity|].
  eexists. split; [reflexivity|].
  split; [reflexivity|]. split; [|split; reflexivity].
  intros key I Hk. simpl in I.
  destruct I as [<-|[<-|[<-|[<-|[]]]]]; try reflexivity. congruence.
Qed.

Lemma first_add_replaces_builtin_witness :
  Cli.run [lit "add"; lit "sh601318"; lit "PingAn"] NoFile false
  = Cli.WriteFailed
  /\ exists config,
       Cli.run [lit "add"; lit "sh601318"; lit "PingAn"] NoFile true
       = Cli.Wrote config
       /\ group_entries (load_watchlist (Parsed config)) (lit "stocks")
          = Some (entries_of Cli.DEFAULT_WATCHLIST (lit "stocks")
                  ++ [{| symbol := lit "sh601318"; name := lit "PingAn" |}])
       /\ (forall key, In key bound_keys -> key <> lit "stocks" ->
             group_entries (load_watchlist (Parsed config)) key
             = group_entries Cli.DEFAULT_WATCHLIST key)
       /\ List.length (configured (load_watchlist (Parsed config))) = 9%nat
       /\ List.length (configured (load_watchlist NoFile)) = 12%nat.
Proof.
  apply (first_add_replaces_builtin (lit "sh601318") (lit "PingAn"));
    reflexivity.
Defined.

(** Without a command, and with a command it does not know, the command
    line calls the exports of [index.js], which are no function. *)
Example default_command_throws (f : config_file) (writable : bool) :
  Cli.run [] f writable = Cli.Failed TypeError
  /\ Cli.run [lit "check"] f writable = Cli.Failed TypeError.
Proof. split; reflexivity. Qed.
